(** * canvas-helpers: style resolution, colour preparation and shape emitters

    A shallow embedding of the drawing helpers of
    @basementuniverse/canvas-helpers.

    - JavaScript numbers are IEEE-754 binary64 values: Rocq's primitive
      [float], whose operations the kernel evaluates bit for bit.
    - A style object is a record of property slots, one per member of
      [StyleOptions], plus a finite map for the index signature.
    - An emitter is a computation that issues calls on the drawing context
      and finishes normally, by [return], or by a thrown exception.
    - The drawing context is a state machine over the issued calls. *)

From Stdlib Require Import ZArith Uint63 Floats.
From stdpp Require Import base option list strings gmap.

Set Warnings "-inexact-float,-register-all".
Set Default Proof Using "Type".

(** ** JavaScript values *)

(** Outcome of an expression that may throw; [TypeError] stands for the
    exception, whatever its class. *)
Inductive Result (A : Type) : Type :=
| Ok (a : A)
| TypeError.
Arguments Ok {A} a.
Arguments TypeError {A}.

(** A value as [typeof] sees it.  An object is its properties, in
    insertion order, each with the outcome of reading it: [Ok v] for a data
    property that stores [v] or an accessor that returns it, [TypeError]
    for an accessor that throws. *)
Inductive Value : Type :=
| VUndefined
| VNull
| VBoolean (b : bool)
| VNumber (x : float)
| VString (s : string)
| VSymbol
| VObject (props : list (string * Result Value))
| VFunction.

(** A value of TypeScript type [A | null | undefined]. *)
Inductive js (A : Type) : Type :=
| undefined
| null
| val (a : A).
Arguments undefined {A}.
Arguments null {A}.
Arguments val {A} a.

(** An own property of an object literal: [None] when the object has no
    such property, [Some v] when it stores [v] (which may be [undefined]). *)
Definition slot (A : Type) : Type := option (js A).

(** [obj.p] *)
Definition read {A} (p : slot A) : js A :=
  match p with
  | Some v => v
  | None => undefined
  end.

(** [v ?? d] *)
Definition nullish {A} (v : js A) (d : A) : A :=
  match v with
  | val a => a
  | _ => d
  end.

(** [v !== undefined] *)
Definition is_defined {A} (v : js A) : bool :=
  match v with
  | undefined => false
  | _ => true
  end.

(** [v !== null] *)
Definition not_null {A} (v : js A) : bool :=
  match v with
  | null => false
  | _ => true
  end.

(** Truthiness of a [boolean | null | undefined]. *)
Definition truthy (v : js bool) : bool :=
  match v with
  | val b => b
  | _ => false
  end.

(** Truthiness of an object-valued property. *)
Definition present {A} (v : js A) : bool :=
  match v with
  | val _ => true
  | _ => false
  end.

(** [typeof v] *)
Definition typeof (v : Value) : string :=
  match v with
  | VUndefined => "undefined"
  | VNull => "object"
  | VBoolean _ => "boolean"
  | VNumber _ => "number"
  | VString _ => "string"
  | VSymbol => "symbol"
  | VObject _ => "object"
  | VFunction => "function"
  end.

(** The property named [k], when the object has one. *)
Fixpoint assoc {A} (k : string) (props : list (string * A)) : option A :=
  match props with
  | [] => None
  | (k', v) :: rest => if String.eqb k k' then Some v else assoc k rest
  end.

(** [k in v]: throws unless [v] is an object. *)
Definition has_property (k : string) (v : Value) : Result bool :=
  match v with
  | VObject props => Ok (if assoc k props is Some _ then true else false)
  | VFunction => Ok false
  | _ => TypeError
  end.

(** [v.k]: throws on [null] and [undefined], and when the property is
    an accessor that throws. *)
Definition get_property (k : string) (v : Value) : Result Value :=
  match v with
  | VObject props => default (Ok VUndefined) (assoc k props)
  | VUndefined | VNull => TypeError
  | _ => Ok VUndefined
  end.

(** [a && b], evaluating [b] only when [a] is true. *)
Definition and_then (a b : Result bool) : Result bool :=
  match a with
  | Ok true => b
  | other => other
  end.

(** [a || b], evaluating [b] only when [a] is false. *)
Definition or_else (a b : Result bool) : Result bool :=
  match a with
  | Ok false => b
  | other => other
  end.

Definition result_map {A B} (f : A -> B) (r : Result A) : Result B :=
  match r with
  | Ok a => Ok (f a)
  | TypeError => TypeError
  end.

(** [f] on the outcome of [r], unless [r] has thrown. *)
Definition result_bind {A B} (r : Result A) (f : A -> Result B) : Result B :=
  match r with
  | Ok a => f a
  | TypeError => TypeError
  end.

Infix "&&&" := and_then (at level 40, left associativity).
Infix "|||" := or_else (at level 50, left associativity).
Notation "'let?' x := r 'in' k" := (result_bind r (fun x => k))
  (at level 10, x name, r at level 100, k at level 200).

(** ** Geometry, colours and gradients as the type declarations give them *)

(** [vec2] of @basementuniverse/vec: a point or an offset. *)
Module vec2.
Record t : Type := mk { x : float; y : float }.

(** [vec2()] *)
Definition zero : t := mk 0 0.

(** [vec2.sub(a, b)] *)
Definition sub (a b : t) : t := mk (x a - x b) (y a - y b).

(** [vec2.len(a)] *)
Definition len (a : t) : float := sqrt (x a * x a + y a * y a).
End vec2.

(** [type Color = { r; g; b; a? }] *)
Module Color.
Record t : Type := mk { r : float; g : float; b : float; a : slot float }.
End Color.

(** [Color | string] *)
Inductive ColorValue : Type :=
| CssString (s : string)
| ColorObject (c : Color.t).

Inductive GradientType : Type := GradientLinear | GradientRadial.

Record ColorStop : Type := mkColorStop {
  stop_color : ColorValue;
  stop_position : float
}.

(** The [gradient] member of [StyleOptions]. *)
Record Gradient : Type := mkGradient {
  gradient_type : GradientType;
  gradient_start : vec2.t;
  gradient_end : vec2.t;
  colorStops : list ColorStop
}.

(** A [CanvasGradient] as the host builds it: the constructor arguments
    and the colour stops added so far, oldest first. *)
Inductive GradientSource : Type :=
| LinearGradient (x0 y0 x1 y1 : float)
| RadialGradient (x0 y0 r0 x1 y1 r1 : float).

Record CanvasGradient : Type := mkCanvasGradient {
  gradient_source : GradientSource;
  gradient_stops : list (float * string)
}.

(** What [fillStyle] may be assigned. *)
Inductive Paint : Type :=
| PaintColor (css : string)
| PaintGradient (gr : CanvasGradient).

(** ** Calls on the drawing context *)

(** One method call or attribute assignment on a
    [CanvasRenderingContext2D], with the arguments passed. *)
Inductive Call : Type :=
| Save
| Restore
| BeginPath
| ClosePath
| MoveTo (x y : float)
| LineTo (x y : float)
| Arc (x y radius startAngle endAngle : float)
| Rect (x y w h : float)
| RoundRect (x y w h radii : float)
| Fill
| Stroke
| Translate (x y : float)
| Rotate (angle : float)
| CreateLinearGradient (x0 y0 x1 y1 : float)
| CreateRadialGradient (x0 y0 r0 x1 y1 r1 : float)
| SetStrokeStyle (v : string)
| SetFillStyle (v : Paint)
| SetLineWidth (v : js float)
| SetLineDash (segments : list float).

(** ** Style options *)

Inductive LineStyle : Type := Solid | Dashed | Dotted.
Inductive CrossStyle : Type := Plus | Ex.
Inductive PathType : Type := Linear | Bezier | CatmullRom.

(** ['caret' | 'chevron' | ((context, ...args) => void)].  A function is
    the calls it issues on the context it is handed, given the size. *)
Inductive ArrowType : Type :=
| Caret
| Chevron
| ArrowFunction (draw : float -> list Call).

(** The [arrow] member of [StyleOptions]. *)
Record Arrow : Type := mkArrow {
  arrow_type : slot ArrowType;
  arrow_size : slot float
}.

(** [Partial<StyleOptions>] and [StyleOptions]: one slot per declared
    member; [extensions] holds the members admitted by the index
    signature [[key: string]: any]. *)
Module StyleOptions.
Record t : Type := mk {
  batch : slot bool;
  fill : slot bool;
  fillColor : slot ColorValue;
  gradient : slot Gradient;
  stroke : slot bool;
  strokeColor : slot ColorValue;
  lineWidth : slot float;
  lineStyle : slot LineStyle;
  lineDash : slot (list float);
  crossStyle : slot CrossStyle;
  rounded : slot bool;
  borderRadius : slot float;
  arrow : slot Arrow;
  pathType : slot PathType;
  bezierOrder : slot float;
  catmullRomTension : slot float;
  extensions : gmap string Value
}.

(** [{}] *)
Definition empty : t :=
  mk None None None None None None None None None None None None None
     None None None ∅.

(** A property of [source] if it has it, of [target] otherwise. *)
Definition overlay {A} (source target : slot A) : slot A :=
  match source with
  | Some v => Some v
  | None => target
  end.

(** [Object.assign(target, source)]: own properties of [source] are
    copied over those of [target], [undefined] values included. *)
Definition assign (target source : t) : t :=
  {| batch := overlay (batch source) (batch target);
     fill := overlay (fill source) (fill target);
     fillColor := overlay (fillColor source) (fillColor target);
     gradient := overlay (gradient source) (gradient target);
     stroke := overlay (stroke source) (stroke target);
     strokeColor := overlay (strokeColor source) (strokeColor target);
     lineWidth := overlay (lineWidth source) (lineWidth target);
     lineStyle := overlay (lineStyle source) (lineStyle target);
     lineDash := overlay (lineDash source) (lineDash target);
     crossStyle := overlay (crossStyle source) (crossStyle target);
     rounded := overlay (rounded source) (rounded target);
     borderRadius := overlay (borderRadius source) (borderRadius target);
     arrow := overlay (arrow source) (arrow target);
     pathType := overlay (pathType source) (pathType target);
     bezierOrder := overlay (bezierOrder source) (bezierOrder target);
     catmullRomTension :=
       overlay (catmullRomTension source) (catmullRomTension target);
     extensions := extensions source ∪ extensions target |}.

(** [{ ...s, lineDash: d }] *)
Definition with_lineDash (s : t) (d : js (list float)) : t :=
  {| batch := batch s; fill := fill s; fillColor := fillColor s;
     gradient := gradient s; stroke := stroke s;
     strokeColor := strokeColor s; lineWidth := lineWidth s;
     lineStyle := lineStyle s; lineDash := Some d;
     crossStyle := crossStyle s; rounded := rounded s;
     borderRadius := borderRadius s; arrow := arrow s;
     pathType := pathType s; bezierOrder := bezierOrder s;
     catmullRomTension := catmullRomTension s;
     extensions := extensions s |}.

(** [{ ...s, pathType: p }] *)
Definition with_pathType (s : t) (p : js PathType) : t :=
  {| batch := batch s; fill := fill s; fillColor := fillColor s;
     gradient := gradient s; stroke := stroke s;
     strokeColor := strokeColor s; lineWidth := lineWidth s;
     lineStyle := lineStyle s; lineDash := lineDash s;
     crossStyle := crossStyle s; rounded := rounded s;
     borderRadius := borderRadius s; arrow := arrow s;
     pathType := Some p; bezierOrder := bezierOrder s;
     catmullRomTension := catmullRomTension s;
     extensions := extensions s |}.

(** [{ ...s, arrow: a }] *)
Definition with_arrow (s : t) (a : js Arrow) : t :=
  {| batch := batch s; fill := fill s; fillColor := fillColor s;
     gradient := gradient s; stroke := stroke s;
     strokeColor := strokeColor s; lineWidth := lineWidth s;
     lineStyle := lineStyle s; lineDash := lineDash s;
     crossStyle := crossStyle s; rounded := rounded s;
     borderRadius := borderRadius s; arrow := Some a;
     pathType := pathType s; bezierOrder := bezierOrder s;
     catmullRomTension := catmullRomTension s;
     extensions := extensions s |}.
End StyleOptions.
Import StyleOptions.

Definition DEFAULT_STYLE_OPTIONS : StyleOptions.t :=
  {| batch := Some (val false);
     fill := Some (val false);
     fillColor := Some null;
     gradient := Some null;
     stroke := Some (val true);
     strokeColor := Some null;
     lineWidth := Some (val 1%float);
     lineStyle := Some (val Solid);
     lineDash := Some null;
     crossStyle := Some (val Ex);
     rounded := Some (val false);
     borderRadius := None;
     arrow := Some (val {| arrow_type := Some (val Caret);
                           arrow_size := Some (val 5%float) |});
     pathType := None;
     bezierOrder := None;
     catmullRomTension := None;
     extensions := ∅ |}.

Definition DEFAULT_LINE_DASHES (s : LineStyle) : list float :=
  match s with
  | Solid => []
  | Dashed => [5; 5]%float
  | Dotted => [1; 3]%float
  end.

(** [style?.p] *)
Definition member {A} (style : option StyleOptions.t)
    (p : StyleOptions.t -> slot A) : js A :=
  match style with
  | Some s => read (p s)
  | None => undefined
  end.

(** Get a complete style object with default values filled in. *)
Definition getStyle (style : option StyleOptions.t) : StyleOptions.t :=
  assign (assign StyleOptions.empty DEFAULT_STYLE_OPTIONS)
    (with_lineDash (default StyleOptions.empty style)
       (if is_defined (member style lineDash)
        then member style lineDash
        else if negb (is_defined (member style lineStyle))
        then val []
        else val (DEFAULT_LINE_DASHES
                    (nullish (member style lineStyle) Solid)))).

(** ** Numeric helpers of @basementuniverse/utils and @basementuniverse/vec

    The module imports [clamp], [dot], [mat] and [vec2] from these two
    packages; they are embedded here from their published definitions. *)

(** [clamp(a, min, max)]: [a < min ? min : a > max ? max : a].  A number
    within the bounds is returned as it is, whole or not, and so is NaN. *)
Definition clamp (a min max : float) : float :=
  if (a <? min)%float then min else if (max <? a)%float then max else a.

(** [dot(a, b)]: [a.reduce((n, v, i) => n + v * b[i], 0)]; an index past
    the end of [b] reads [undefined], which multiplies to NaN. *)
Fixpoint dot_from (acc : float) (a b : list float) : float :=
  match a with
  | [] => acc
  | v :: a' => dot_from (acc + v * hd nan b) a' (tl b)
  end.

Definition dot (a b : list float) : float := dot_from 0 a b.

(** [mat(m, n, entries)]: [m] rows, [n] columns, row-major entries. *)
Module mat.
Record t : Type := mk { m : nat; n : nat; entries : list float }.

(** [mat.row(a, i)], rows counted from 1 *)
Definition row (a : t) (i : nat) : list float :=
  take (n a) (drop ((i - 1) * n a) (entries a)).

(** [mat.mulv(a, b)]: [false] (here [None]) when the vector does not
    have one entry per column, else one dot product per row. *)
Definition mulv (a : t) (b : list float) : option (list float) :=
  if negb (n a =? length b)%nat then None
  else Some (map (fun i => dot (row a i) b) (seq 1 (m a))).
End mat.

(** The key under which a number finds an entry in the tables
    [BEZIER_MATRICES] and [BEZIER_COEFFICIENTS]: both have the keys 1, 2
    and 3, and any other number reads [undefined]. *)
Definition table_key (order : float) : option Z :=
  if (order =? 1)%float then Some 1%Z
  else if (order =? 2)%float then Some 2%Z
  else if (order =? 3)%float then Some 3%Z
  else None.

Definition BEZIER_MATRICES (order : Z) : option mat.t :=
  match order with
  | 1%Z => Some (mat.mk 2 2 [-1; 1; 1; 0]%float)
  | 2%Z => Some (mat.mk 3 3 [1; -2; 1; -2; 2; 0; 1; 0; 0]%float)
  | 3%Z => Some (mat.mk 4 4 [-1; 3; -3; 1; 3; -6; 3; 0;
                              -3; 3; 0; 0; 1; 0; 0; 0]%float)
  | _ => None
  end.

Definition BEZIER_COEFFICIENTS (t : float) (order : Z) : option (list float) :=
  match order with
  | 1%Z => Some [t; 1]%float
  | 2%Z => Some [t * t; t; 1]%float
  | 3%Z => Some [t * t * t; t * t; t; 1]%float
  | _ => None
  end.

(** A stand-in for [Math.pow] on the two exponents the module uses, for
    evaluating on concrete vertices. *)
Definition pow_by_multiplication (x n : float) : float :=
  if (n =? 2)%float then (x * x)%float
  else if (n =? 3)%float then (x * x * x)%float
  else nan.

(** Stand-ins for the host's conversions to strings, for evaluating where
    they play no part: the same string for every number, and the default
    tag for every object. *)
Definition any_number : float -> string := fun _ => "".
Definition any_object : Value -> Result string :=
  fun _ => Ok "[object Object]".

(** The values a loop variable takes in
    [for (let v = init; cond(v); v = next(v))], first to last.  The list
    stops early when [fuel] iterations were not enough. *)
Fixpoint loop_values {A} (fuel : nat) (cond : A -> bool) (next : A -> A)
    (v : A) : list A :=
  match fuel with
  | O => []
  | S fuel' =>
      if cond v then v :: loop_values fuel' cond next (next v) else []
  end.

(** [for (let t = 0; t <= 1; t += 0.01)] *)
Definition curve_parameters : list float :=
  loop_values 128 (fun t => t <=? 1)%float (fun t => t + 0.01)%float 0%float.

(** [for (let i = 0; i + segmentSize <= length; i += order)], for an
    order that is a whole number *)
Definition segment_starts (segmentSize order length : nat) : list nat :=
  loop_values (S length) (fun i => i + segmentSize <=? length)%nat
    (fun i => i + order)%nat 0%nat.

(** [vertices.length] as a number *)
Definition number_of_length (length : nat) : float :=
  PrimFloat.of_uint63 (Uint63.of_Z (Z.of_nat length)).

(** The same loop for any order: the values of [i] are numbers. *)
Definition segment_starts_number (segmentSize order : float) (length : nat)
    : list float :=
  loop_values (S length)
    (fun i => i + segmentSize <=? number_of_length length)%float
    (fun i => i + order)%float 0%float.

(** An argument of [slice] as an index into an array of [length]
    elements: truncated towards zero, counted from the end when negative,
    and kept within the array. *)
Definition relative_index (x : float) (length : nat) : nat :=
  match Prim2SF x with
  | S754_infinity false => length
  | S754_finite negative mantissa exponent =>
      let k := Z.shiftl (Z.pos mantissa) exponent in
      if negative && (0 <? k)%Z then Z.to_nat (Z.of_nat length - k)
      else Z.to_nat (Z.min k (Z.of_nat length))
  | _ => 0%nat
  end.

(** [array.slice(start, end)] *)
Definition slice {A} (start end_ : float) (array : list A) : list A :=
  let k := relative_index start (length array) in
  let final := relative_index end_ (length array) in
  take (final - k) (drop k array).

(** ** Emitters as computations over the context *)

(** How a block of statements ends. *)
Inductive Flow (A : Type) : Type :=
| Continue (a : A)
| Returned
| Thrown.
Arguments Continue {A} a.
Arguments Returned {A}.
Arguments Thrown {A}.

(** The calls issued, in order, and how the block ended. *)
Definition Emit (A : Type) : Type := list Call * Flow A.

Definition ret {A} (a : A) : Emit A := ([], Continue a).

Definition bind {A B} (m : Emit A) (k : A -> Emit B) : Emit B :=
  match m with
  | (calls, Continue a) => let (calls', f) := k a in (calls ++ calls', f)
  | (calls, Returned) => (calls, Returned)
  | (calls, Thrown) => (calls, Thrown)
  end.

Declare Scope emit_scope.
Delimit Scope emit_scope with emit.
Notation "x <- m ;; k" := (bind m (fun x => k))
  (at level 100, m at next level, right associativity) : emit_scope.
Notation "m ;; k" := (bind m (fun _ => k))
  (at level 100, right associativity) : emit_scope.
Open Scope emit_scope.

(** [context.method(...)] *)
Definition call (c : Call) : Emit unit := ([c], Continue tt).

(** a callee that issues [calls] on the context and returns *)
Definition calls_of (calls : list Call) : Emit unit := (calls, Continue tt).

(** [return;] *)
Definition return_ {A} : Emit A := ([], Returned).

Definition throw {A} : Emit A := ([], Thrown).

Definition lift {A} (r : Result A) : Emit A :=
  match r with
  | Ok a => ret a
  | TypeError => throw
  end.

(** [if (b) { m }] *)
Definition when (b : bool) (m : Emit unit) : Emit unit :=
  if b then m else ret tt.

Fixpoint for_each {A} (l : list A) (body : A -> Emit unit) : Emit unit :=
  match l with
  | [] => ret tt
  | v :: l' => body v ;; for_each l' body
  end.

(** [for (let i = lo; i < hi; i++)] *)
Definition for_range (lo hi : nat) (body : nat -> Emit unit) : Emit unit :=
  for_each (seq lo (hi - lo)) body.

(** a loop that updates an accumulator *)
Fixpoint fold_each {A S} (l : list A) (body : S -> A -> Emit S) (s : S)
    : Emit S :=
  match l with
  | [] => ret s
  | v :: l' => s' <- body s v ;; fold_each l' body s'
  end.

(** [vertices[i]] where a member of the element is read next: reading a
    member of [undefined] throws. *)
Definition element (vertices : list vec2.t) (i : nat) : Emit vec2.t :=
  match vertices !! i with
  | Some v => ret v
  | None => throw
  end.

(** [context.setLineDash(v)]: the host throws unless [v] is a sequence. *)
Definition setLineDash (v : js (list float)) : Emit unit :=
  match v with
  | val segments => call (SetLineDash segments)
  | _ => throw
  end.

(** A typed colour member as the untyped value [prepareColor] inspects. *)
Definition color_object (c : Color.t) : Value :=
  VObject ([("r", Ok (VNumber (Color.r c))); ("g", Ok (VNumber (Color.g c)));
            ("b", Ok (VNumber (Color.b c)))]
           ++ match Color.a c with
              | None => []
              | Some undefined => [("a", Ok VUndefined)]
              | Some null => [("a", Ok VNull)]
              | Some (val a) => [("a", Ok (VNumber a))]
              end).

Definition color_value (c : js ColorValue) : Value :=
  match c with
  | undefined => VUndefined
  | null => VNull
  | val (CssString s) => VString s
  | val (ColorObject c) => color_object c
  end.

(** ** The drawing context *)

(** The part of a [CanvasRenderingContext2D] the emitters touch.  [state]
    is what [save()] pushes and [restore()] pops: the transform and the
    style attributes.  The current path and the painted output are not
    part of it.  Every call returns: the exceptions a host raises on
    arguments it rejects (a negative radius, a colour stop outside [0, 1])
    are not part of the model. *)
Module Canvas.
Inductive TransformStep : Type :=
| Translated (x y : float)
| Rotated (angle : float).

Record state : Type := mkState {
  transform : list TransformStep;   (* applied since identity, newest first *)
  strokeStyle : string;
  fillStyle : Paint;
  lineWidth : float;
  lineDash : list float
}.

Record t : Type := mk {
  current : state;
  saved : list state;                         (* the state stack, top first *)
  currentPath : list (Call * list TransformStep);
  painted : list (Call * state * list (Call * list TransformStep))
}.

Definition set_state (ctx : t) (s : state) : t :=
  mk s (saved ctx) (currentPath ctx) (painted ctx).

(** Line widths that are zero, negative, infinite or NaN are ignored. *)
Definition valid_width (w : float) : bool :=
  ((0 <? w) && (w <? infinity))%float.

(** Dash lists with a negative or non-finite entry are ignored; a list
    of odd length is repeated once. *)
Definition valid_dash (v : float) : bool :=
  ((0 <=? v) && (v <? infinity))%float.

Definition exec (ctx : t) (c : Call) : t :=
  let s := current ctx in
  match c with
  | Save => mk s (s :: saved ctx) (currentPath ctx) (painted ctx)
  | Restore =>
      match saved ctx with
      | [] => ctx
      | top :: rest => mk top rest (currentPath ctx) (painted ctx)
      end
  | BeginPath => mk s (saved ctx) [] (painted ctx)
  | ClosePath | MoveTo _ _ | LineTo _ _ | Arc _ _ _ _ _ | Rect _ _ _ _
  | RoundRect _ _ _ _ _ =>
      mk s (saved ctx) (currentPath ctx ++ [(c, transform s)]) (painted ctx)
  | Fill | Stroke =>
      mk s (saved ctx) (currentPath ctx)
         (painted ctx ++ [(c, s, currentPath ctx)])
  | Translate x y =>
      set_state ctx
        (mkState (Translated x y :: transform s) (strokeStyle s)
           (fillStyle s) (lineWidth s) (lineDash s))
  | Rotate angle =>
      set_state ctx
        (mkState (Rotated angle :: transform s) (strokeStyle s)
           (fillStyle s) (lineWidth s) (lineDash s))
  | CreateLinearGradient _ _ _ _ | CreateRadialGradient _ _ _ _ _ _ => ctx
  | SetStrokeStyle v =>
      set_state ctx
        (mkState (transform s) v (fillStyle s) (lineWidth s) (lineDash s))
  | SetFillStyle v =>
      set_state ctx
        (mkState (transform s) (strokeStyle s) v (lineWidth s) (lineDash s))
  | SetLineWidth (val w) =>
      if valid_width w
      then set_state ctx
             (mkState (transform s) (strokeStyle s) (fillStyle s) w
                (lineDash s))
      else ctx
  | SetLineWidth _ => ctx
  | SetLineDash segments =>
      if forallb valid_dash segments
      then set_state ctx
             (mkState (transform s) (strokeStyle s) (fillStyle s)
                (lineWidth s)
                (if Nat.even (length segments) then segments
                 else segments ++ segments))
      else ctx
  end.

(** The context after the calls were made on it, in order. *)
Definition run (calls : list Call) (ctx : t) : t := fold_left exec calls ctx.
End Canvas.

(** The function given as arrowhead type, when the resolved style has
    one. *)
Definition custom_arrowhead (style : option StyleOptions.t)
    : option (float -> list Call) :=
  match read (StyleOptions.arrow (getStyle style)) with
  | val actualArrow =>
      match nullish (read (arrow_type actualArrow)) Caret with
      | ArrowFunction draw => Some draw
      | _ => None
      end
  | _ => None
  end.

(** ** Predicates on emitters *)

(** Calls other than [save()] and [restore()]. *)
Definition plain (c : Call) : bool :=
  match c with
  | Save | Restore => false
  | _ => true
  end.

(** Calls that prepare for drawing: [save()], attribute assignments,
    gradient construction, [beginPath()]. *)
Definition setup (c : Call) : bool :=
  match c with
  | Save | BeginPath | CreateLinearGradient _ _ _ _
  | CreateRadialGradient _ _ _ _ _ _ | SetStrokeStyle _ | SetFillStyle _
  | SetLineWidth _ | SetLineDash _ => true
  | _ => false
  end.

(** Calls other than [fill()] and [stroke()]. *)
Definition paintless (c : Call) : bool :=
  match c with
  | Fill | Stroke => false
  | _ => true
  end.

(** The block runs to its end and issues only calls that satisfy [P]. *)
Definition only {A} (P : Call -> bool) (m : Emit A) : Prop :=
  (exists a, m.2 = Continue a) /\ forallb P m.1 = true.

(** The block runs to its end, and its calls are [tail] after calls that
    all satisfy [P]. *)
Definition ends_with {A} (P : Call -> bool) (tail : list Call) (m : Emit A)
    : Prop :=
  exists prefix,
    forallb P prefix = true /\ m.1 = prefix ++ tail /\ exists a, m.2 = Continue a.

(** The block issues [c] after calls that all satisfy [P]. *)
Definition reaches {A} (P : Call -> bool) (c : Call) (m : Emit A) : Prop :=
  exists prefix rest, forallb P prefix = true /\ m.1 = prefix ++ c :: rest.

(** The number of states an emitter has pushed and not yet popped after
    [calls], having pushed [d] before them.  [None] when a call other than
    [save()] is made while none is pushed: such a call would change, or
    pop, a state that is not the emitter's own. *)
Fixpoint depth_after (d : nat) (calls : list Call) : option nat :=
  match calls with
  | [] => Some d
  | Save :: rest => depth_after (S d) rest
  | Restore :: rest =>
      match d with
      | O => None
      | S d' => depth_after d' rest
      end
  | _ :: rest =>
      match d with
      | O => None
      | S _ => depth_after d rest
      end
  end.

(** Calls made with one state pushed for them that end with one pushed
    again, and make none but [save()] while the stack is down to the
    caller's states.  Each [save()] is matched by a [restore()]; the
    state pushed for the calls may itself be popped, provided the next
    call pushes one back. *)
Definition bracketed (calls : list Call) : Prop :=
  depth_after 1 calls = Some 1%nat.

(** With [d] states pushed by the emitter, the entry state [s0] lies just
    below them on the stack [base] found at entry; with none pushed it is
    the current state again. *)
Definition kept (s0 : Canvas.state) (base : list Canvas.state) (d : nat)
    (ctx : Canvas.t) : Prop :=
  match d with
  | O => Canvas.current ctx = s0 /\ Canvas.saved ctx = base
  | S k =>
      exists front, Canvas.saved ctx = front ++ s0 :: base /\ length front = k
  end.

(** [arrow] reads the resolved stroke colour, line width and dash
    pattern, and of the resolved arrow its type and size after
    defaulting. *)
Definition arrowhead_of (actualStyle : StyleOptions.t)
    : option (float * ArrowType) :=
  match read (StyleOptions.arrow actualStyle) with
  | val actualArrow =>
      Some (nullish (read (arrow_size actualArrow)) 10%float,
            nullish (read (arrow_type actualArrow)) Caret)
  | _ => None
  end.

(** The block does not throw; it goes from [d] pushed states to [d'] when
    it runs to its end, and to none when it returns early. *)
Definition flows {A} (d d' : nat) (m : Emit A) : Prop :=
  match m.2 with
  | Continue _ => depth_after d m.1 = Some d'
  | Returned => depth_after d m.1 = Some 0%nat
  | Thrown => False
  end.

(** ** The bezier branch in closed form *)

(** The point the bezier branch of [path] computes from the points of one
    window at parameter [t], for the orders 1 to 3: the matrix-vector
    product, then the weighted sum of the points. *)
Definition bezier_point (order : Z) (segmentPoints : list vec2.t) (t : float)
    : vec2.t :=
  match BEZIER_MATRICES order, BEZIER_COEFFICIENTS t order with
  | Some matrix, Some coefficients =>
      match mat.mulv matrix coefficients with
      | Some q =>
          fold_left
            (fun p '(pj, qj) =>
               vec2.mk (vec2.x p + vec2.x pj * qj) (vec2.y p + vec2.y pj * qj))
            (zip segmentPoints q) vec2.zero
      | None => vec2.zero
      end
  | _, _ => vec2.zero
  end.

(** The window of [n + 1] vertices that starts at index [start]. *)
Definition window (n start : nat) (vertices : list vec2.t) : list vec2.t :=
  take (n + 1) (drop start vertices).

(** The start indices 0, n, 2n, ... of the windows that fit:
    [(len - 1) / n] of them. *)
Definition window_starts (n len : nat) : list nat :=
  map (fun k => k * n)%nat (seq 0 ((len - 1) / n)).

(** The calls for one window: a move-to its first point when it is the
    first window, then a line-to per curve parameter. *)
Definition window_calls (n start : nat) (vertices : list vec2.t) : list Call :=
  (if (start =? 0)%nat
   then match vertices with
        | v0 :: _ => [MoveTo (vec2.x v0) (vec2.y v0)]
        | [] => []
        end
   else [])
  ++ map (fun t =>
            let p := bezier_point (Z.of_nat n) (window n start vertices) t in
            LineTo (vec2.x p) (vec2.y p))
       curve_parameters.

Definition bezier_curve (n : nat) (vertices : list vec2.t) : list Call :=
  flat_map (fun start => window_calls n start vertices)
    (window_starts n (length vertices)).

(** ** The other branches of [path] in closed form *)

(** A move-to the first vertex, then a line-to each of the others. *)
Definition linear_curve (vertices : list vec2.t) : list Call :=
  match vertices with
  | [] => []
  | v0 :: rest =>
      MoveTo (vec2.x v0) (vec2.y v0)
      :: map (fun v => LineTo (vec2.x v) (vec2.y v)) rest
  end.

(** [stroke()] when the style asks for it and is not batched. *)
Definition stroke_calls (actualStyle : StyleOptions.t) : list Call :=
  if truthy (read (stroke actualStyle))
     && negb (truthy (read (batch actualStyle)))
  then [Stroke] else [].

(** [fill()] when the style asks for it and is not batched. *)
Definition fill_calls (actualStyle : StyleOptions.t) : list Call :=
  if truthy (read (fill actualStyle))
     && negb (truthy (read (batch actualStyle)))
  then [Fill] else [].

(** [path] reaches its end: in bezier mode the clamped order is 1, 2 or
    3, or the vertices are too few for the loop to run once.  With any
    other order and a first window that fits, the tables read
    [undefined] and [path] throws. *)
Definition path_completes (vertices : list vec2.t)
    (actualStyle : StyleOptions.t) : bool :=
  match nullish (read (pathType actualStyle)) Linear with
  | Bezier =>
      let order :=
        clamp (nullish (read (bezierOrder actualStyle)) 3%float) 1 3 in
      match table_key order with
      | Some _ => true
      | None =>
          match segment_starts_number (order + 1) order (length vertices) with
          | [] => true
          | _ => false
          end
      end
  | _ => true
  end.

(** What [path] adds to the current path before it throws: a move-to the
    first point of the first window, which [slice] cuts from the
    vertices. *)
Definition path_moved (vertices : list vec2.t)
    (actualStyle : StyleOptions.t) : list Call :=
  let order :=
    clamp (nullish (read (bezierOrder actualStyle)) 3%float) 1 3 in
  match slice 0 (0 + (order + 1))%float vertices with
  | p0 :: _ => [MoveTo (vec2.x p0) (vec2.y p0)]
  | [] => []
  end.

(** A call of one of the shape emitters, with its arguments. *)
Inductive EmitterCall : Type :=
| LineCall (start end_ : vec2.t) (style : option StyleOptions.t)
| CrossCall (position : vec2.t) (size : float) (style : option StyleOptions.t)
| ArrowCall (start end_ : vec2.t) (style : option StyleOptions.t)
| CircleCall (center : vec2.t) (radius : float)
    (style : option StyleOptions.t)
| RectangleCall (position size : vec2.t) (style : option StyleOptions.t)
| PolygonCall (vertices : list vec2.t) (style : option StyleOptions.t)
| PathCall (vertices : list vec2.t) (style : option StyleOptions.t).

(** A call of [path] reaches its end; the other emitters always do. *)
Definition completes (e : EmitterCall) : bool :=
  match e with
  | PathCall vertices style => path_completes vertices (getStyle style)
  | _ => true
  end.

(** The arrowhead function of an arrow call is [bracketed] at every
    size; the other emitters call no function of the caller's. *)
Definition arrowhead_bracketed (e : EmitterCall) : Prop :=
  match e with
  | ArrowCall _ _ style =>
      forall draw size,
        custom_arrowhead style = Some draw -> bracketed (draw size)
  | _ => True
  end.

(** ** What a call may touch *)

(** Calls that add to the current path. *)
Definition geometry (c : Call) : bool :=
  match c with
  | ClosePath | MoveTo _ _ | LineTo _ _ | Arc _ _ _ _ _ | Rect _ _ _ _
  | RoundRect _ _ _ _ _ => true
  | _ => false
  end.

(** Attribute assignments and gradient construction. *)
Definition styling (c : Call) : bool :=
  match c with
  | CreateLinearGradient _ _ _ _ | CreateRadialGradient _ _ _ _ _ _
  | SetStrokeStyle _ | SetFillStyle _ | SetLineWidth _ | SetLineDash _ => true
  | _ => false
  end.

(** Calls other than [beginPath()], [fill()] and [stroke()]. *)
Definition accumulating (c : Call) : bool :=
  match c with
  | BeginPath | Fill | Stroke => false
  | _ => true
  end.

(** Calls that neither start a path, nor paint, nor push, pop or
    transform. *)
Definition shaping (c : Call) : bool := geometry c || styling c.

(** Calls that neither read nor change the current path. *)
Definition pathless (c : Call) : bool :=
  match c with
  | Save | Restore | Translate _ _ | Rotate _ => true
  | _ => styling c
  end.

(** The calls a stroke-only emitter makes. *)
Definition stroking (c : Call) : bool :=
  match c with
  | Save | Restore | BeginPath | MoveTo _ _ | LineTo _ _ | Stroke
  | SetStrokeStyle _ | SetLineWidth _ | SetLineDash _ => true
  | _ => false
  end.

Definition keeps_strokeStyle (c : Call) : bool :=
  match c with
  | SetStrokeStyle _ => false
  | _ => true
  end.

Definition keeps_fillStyle (c : Call) : bool :=
  match c with
  | SetFillStyle _ => false
  | _ => true
  end.

Definition keeps_lineWidth (c : Call) : bool :=
  match c with
  | SetLineWidth _ => false
  | _ => true
  end.

Definition keeps_lineDash (c : Call) : bool :=
  match c with
  | SetLineDash _ => false
  | _ => true
  end.

(** Calls other than [stroke()]. *)
Definition strokeless (c : Call) : bool :=
  match c with
  | Stroke => false
  | _ => true
  end.

Definition is_lineTo (c : Call) : bool :=
  match c with
  | LineTo _ _ => true
  | _ => false
  end.

(** The number of [lineTo] calls among [calls]. *)
Definition line_tos (calls : list Call) : nat :=
  length (List.filter is_lineTo calls).

(** The block issues [c] after calls that all satisfy [Q], and after it
    only calls that satisfy [P]. *)
Definition settles {A} (Q P : Call -> bool) (c : Call) (m : Emit A) : Prop :=
  exists prefix rest,
    forallb Q prefix = true /\ m.1 = prefix ++ c :: rest /\
    forallb P rest = true.

(** The context with another path under construction. *)
Definition with_currentPath (ctx : Canvas.t)
    (p : list (Call * list Canvas.TransformStep)) : Canvas.t :=
  Canvas.mk (Canvas.current ctx) (Canvas.saved ctx) p (Canvas.painted ctx).

(** The path-building calls among [calls], as the context records them
    under the transform [transform]. *)
Definition recorded (transform : list Canvas.TransformStep)
    (calls : list Call) : list (Call * list Canvas.TransformStep) :=
  map (fun c => (c, transform)) (List.filter geometry calls).

(** The style argument of an emitter call. *)
Definition style_of (e : EmitterCall) : option StyleOptions.t :=
  match e with
  | LineCall _ _ style | CrossCall _ _ style | ArrowCall _ _ style
  | CircleCall _ _ style | RectangleCall _ _ style | PolygonCall _ style
  | PathCall _ style => style
  end.

(** The emitters that read the [batch] flag: all but [arrow]. *)
Definition batchable (e : EmitterCall) : bool :=
  match e with
  | ArrowCall _ _ _ => false
  | _ => true
  end.

(** The call has enough vertices to draw: three for [polygon], two for
    [path]. *)
Definition draws (e : EmitterCall) : bool :=
  match e with
  | PolygonCall vertices _ => (3 <=? length vertices)%nat
  | PathCall vertices _ => (2 <=? length vertices)%nat
  | _ => true
  end.

(** An arrow call draws one of the two built-in arrowheads, or none. *)
Definition builtin_arrowhead (e : EmitterCall) : Prop :=
  match e with
  | ArrowCall _ _ style => custom_arrowhead style = None
  | _ => True
  end.

(** ** Gradients in closed form *)

(** The geometry [prepareGradient] hands to the host: for a radial
    gradient both circles are centred on the start point, the inner one of
    radius 0, the outer one of half the distance from start to end. *)
Definition gradient_source_of (g : Gradient) : GradientSource :=
  match gradient_type g with
  | GradientLinear =>
      LinearGradient
        (vec2.x (gradient_start g)) (vec2.y (gradient_start g))
        (vec2.x (gradient_end g)) (vec2.y (gradient_end g))
  | GradientRadial =>
      RadialGradient
        (vec2.x (gradient_start g)) (vec2.y (gradient_start g)) 0
        (vec2.x (gradient_start g)) (vec2.y (gradient_start g))
        (vec2.len (vec2.sub (gradient_end g) (gradient_start g)) / 2)
  end.

(** The constructor call for that geometry. *)
Definition gradient_call (g : Gradient) : Call :=
  match gradient_source_of g with
  | LinearGradient x0 y0 x1 y1 => CreateLinearGradient x0 y0 x1 y1
  | RadialGradient x0 y0 r0 x1 y1 r1 => CreateRadialGradient x0 y0 r0 x1 y1 r1
  end.

(** ** [withContext] *)

(** What [withContext] returns: the one function, or an array. *)
Inductive Bound (F : Type) : Type :=
| BoundOne (f : F)
| BoundMany (fs : list F).
Arguments BoundOne {F} f.
Arguments BoundMany {F} fs.

(** Pass in a context and some number of functions that take a context as
    their first argument, and return an array of functions that don't
    require the context argument; a single function when only one is
    passed.  Each returned function calls its original and discards what
    it returns. *)
Definition withContext {Context Args R : Type} (context : Context)
    (functions : list (Context -> Args -> Emit R))
    : Bound (Args -> Emit unit) :=
  let result :=
    map (fun f => fun args => f context args ;; ret tt) functions in
  match result with
  | [g] => BoundOne g
  | _ => BoundMany result
  end.

(** The returned functions, in order. *)
Definition bound_functions {F} (b : Bound F) : list F :=
  match b with
  | BoundOne f => [f]
  | BoundMany fs => fs
  end.

(** ** Painting *)

(** [fill()] and [stroke()]. *)
Definition painting (c : Call) : bool :=
  match c with
  | Fill | Stroke => true
  | _ => false
  end.

(** The state after one call made in state [s]. *)
Definition restyle (s : Canvas.state) (c : Call) : Canvas.state :=
  Canvas.current (Canvas.exec (Canvas.mk s [] [] []) c).

(** The state [s] after the attribute assignments among [calls]. *)
Definition styled (s : Canvas.state) (calls : list Call) : Canvas.state :=
  fold_left restyle (List.filter styling calls) s.

(** The painting calls of an emitter that reads the [batch] flag, by its
    resolved style. *)
Definition paint_calls (e : EmitterCall) : list Call :=
  match e with
  | CircleCall _ _ style | RectangleCall _ _ style | PolygonCall _ style =>
      fill_calls (getStyle style) ++ stroke_calls (getStyle style)
  | LineCall _ _ style | CrossCall _ _ style | PathCall _ style =>
      stroke_calls (getStyle style)
  | ArrowCall _ _ _ => []
  end.

(** The block assigns attributes, begins a path, builds it, and ends with
    [paints] and [restore()]. *)
Definition drawn (paints : list Call) (m : Emit unit) : Prop :=
  exists attrs geo,
    forallb styling attrs = true /\ forallb geometry geo = true /\
    m.1 = attrs ++ BeginPath :: geo ++ paints ++ [Restore].

(** ** The shapes in closed form *)

(** The two segments of a cross, by the resolved cross style; none when
    it is neither ['+'] nor ['x']. *)
Definition cross_segments (position : vec2.t) (size : float)
    (actualStyle : StyleOptions.t) : list Call :=
  let halfSize := (size / 2)%float in
  match read (crossStyle actualStyle) with
  | val Plus =>
      [MoveTo (vec2.x position - halfSize) (vec2.y position);
       LineTo (vec2.x position + halfSize) (vec2.y position);
       MoveTo (vec2.x position) (vec2.y position - halfSize);
       LineTo (vec2.x position) (vec2.y position + halfSize)]
  | val Ex =>
      [MoveTo (vec2.x position - halfSize) (vec2.y position - halfSize);
       LineTo (vec2.x position + halfSize) (vec2.y position + halfSize);
       MoveTo (vec2.x position - halfSize) (vec2.y position + halfSize);
       LineTo (vec2.x position + halfSize) (vec2.y position - halfSize)]
  | _ => []
  end.

(** The outline of a rectangle: rounded, with radius 1 when none is
    given, or plain. *)
Definition rectangle_outline (position size : vec2.t)
    (actualStyle : StyleOptions.t) : Call :=
  if truthy (read (rounded actualStyle))
  then RoundRect (vec2.x position) (vec2.y position) (vec2.x size)
         (vec2.y size) (nullish (read (borderRadius actualStyle)) 1%float)
  else Rect (vec2.x position) (vec2.y position) (vec2.x size) (vec2.y size).

(** ** Members outside the declared ones *)

(** The style with other index-signature members. *)
Definition with_extensions (s : StyleOptions.t) (members : gmap string Value)
    : StyleOptions.t :=
  {| batch := batch s; fill := fill s; fillColor := fillColor s;
     gradient := gradient s; stroke := stroke s;
     strokeColor := strokeColor s; lineWidth := lineWidth s;
     lineStyle := lineStyle s; lineDash := lineDash s;
     crossStyle := crossStyle s; rounded := rounded s;
     borderRadius := borderRadius s; arrow := StyleOptions.arrow s;
     pathType := pathType s; bezierOrder := bezierOrder s;
     catmullRomTension := catmullRomTension s;
     extensions := members |}.

(** The emitter call with another style argument. *)
Definition with_style (e : EmitterCall) (style : option StyleOptions.t)
    : EmitterCall :=
  match e with
  | LineCall start end_ _ => LineCall start end_ style
  | CrossCall position size _ => CrossCall position size style
  | ArrowCall start end_ _ => ArrowCall start end_ style
  | CircleCall center radius _ => CircleCall center radius style
  | RectangleCall position size _ => RectangleCall position size style
  | PolygonCall vertices _ => PolygonCall vertices style
  | PathCall vertices _ => PathCall vertices style
  end.

(** The emitters that assign [fillStyle] from the style: [circle],
    [rectangle] and [polygon]. *)
Definition fillable (e : EmitterCall) : bool :=
  match e with
  | CircleCall _ _ _ | RectangleCall _ _ _ | PolygonCall _ _ => true
  | _ => false
  end.

Section Host.

(** The host's conversions and mathematics: how a number and how an
    object or function is converted to a string, [Math.pow] and
    [Math.atan2].  An object is converted by its own [toString] and
    [valueOf], which may throw; ECMAScript leaves the last bit of both
    [Math] functions to the implementation. *)
Variable NumberToString : float -> string.
Variable ObjectToString : Value -> Result string.
Variable Math_pow : float -> float -> float.
Variable Math_atan2 : float -> float -> float.

(** ** Colours *)

(** [ToString(v)], as a template literal applies it to a substitution: a
    Symbol throws. *)
Definition ToString (v : Value) : Result string :=
  match v with
  | VUndefined => Ok "undefined"
  | VNull => Ok "null"
  | VBoolean true => Ok "true"
  | VBoolean false => Ok "false"
  | VNumber x => Ok (NumberToString x)
  | VString s => Ok s
  | VSymbol => TypeError
  | VObject _ | VFunction => ObjectToString v
  end.

(** Type guard to check if a value is a Color object. *)
Definition isColorObject (color : Value) : Result bool :=
  Ok (String.eqb (typeof color) "object") &&&
  has_property "r" color &&&
  has_property "g" color &&&
  has_property "b" color &&&
  (result_map (fun a => String.eqb (typeof a) "number") (get_property "a" color)
   ||| result_map negb (has_property "a" color)).

(** [x ?? 1] on an untyped value. *)
Definition nullish_value (v d : Value) : Value :=
  match v with
  | VUndefined | VNull => d
  | _ => v
  end.

(** Convert a color object to a string in the format "rgba(r, g, b, a)":
    each member is read and converted in turn. *)
Definition colourToString (color : Value) : Result string :=
  let? r := get_property "r" color in
  let? r := ToString r in
  let? g := get_property "g" color in
  let? g := ToString g in
  let? b := get_property "b" color in
  let? b := ToString b in
  let? a := get_property "a" color in
  let? a := ToString (nullish_value a (VNumber 1)) in
  Ok ("rgba(" +:+ r +:+ ", " +:+ g +:+ ", " +:+ b +:+ ", " +:+ a +:+ ")").

(** Prepare a color value (string or Color object) for use in styles. *)
Definition prepareColor (color : Value) : Result string :=
  match color with
  | VString s => Ok s
  | _ =>
      match isColorObject color with
      | Ok true => colourToString color
      | Ok false => Ok "black"
      | TypeError => TypeError
      end
  end.

(** [context.createLinearGradient(x0, y0, x1, y1)] *)
Definition createLinearGradient (x0 y0 x1 y1 : float) : Emit CanvasGradient :=
  call (CreateLinearGradient x0 y0 x1 y1) ;;
  ret {| gradient_source := LinearGradient x0 y0 x1 y1;
         gradient_stops := [] |}.

(** [context.createRadialGradient(x0, y0, r0, x1, y1, r1)] *)
Definition createRadialGradient (x0 y0 r0 x1 y1 r1 : float)
    : Emit CanvasGradient :=
  call (CreateRadialGradient x0 y0 r0 x1 y1 r1) ;;
  ret {| gradient_source := RadialGradient x0 y0 r0 x1 y1 r1;
         gradient_stops := [] |}.

(** [gradient.addColorStop(position, color)] *)
Definition addColorStop (gr : CanvasGradient) (position : float)
    (color : string) : CanvasGradient :=
  {| gradient_source := gradient_source gr;
     gradient_stops := gradient_stops gr ++ [(position, color)] |}.

(** Prepare a gradient for use in styles: a [CanvasGradient], or [None]
    for [null] when no gradient is specified. *)
Definition prepareGradient (style : js Gradient)
    : Emit (option CanvasGradient) :=
  match style with
  | val style =>
      gradient <-
        match gradient_type style with
        | GradientLinear =>
            createLinearGradient
              (vec2.x (gradient_start style)) (vec2.y (gradient_start style))
              (vec2.x (gradient_end style)) (vec2.y (gradient_end style))
        | GradientRadial =>
            createRadialGradient
              (vec2.x (gradient_start style)) (vec2.y (gradient_start style))
              0
              (vec2.x (gradient_start style)) (vec2.y (gradient_start style))
              (vec2.len (vec2.sub (gradient_end style) (gradient_start style))
               / 2)
        end ;;
      gradient <- fold_each (colorStops style)
              (fun gradient stop =>
                 color <- lift (prepareColor
                                  (color_value (val (stop_color stop)))) ;;
                 ret (addColorStop gradient (stop_position stop) color))
              gradient ;;
      ret (Some gradient)
  | _ => ret None
  end.

(** Draw a straight line segment between two points. *)
Definition line (start end_ : vec2.t) (style : option StyleOptions.t)
    : Emit unit :=
  call Save ;;
  let actualStyle := getStyle style in
  when (not_null (read (strokeColor actualStyle)))
    (color <- lift (prepareColor (color_value (read (strokeColor actualStyle)))) ;;
     call (SetStrokeStyle color)) ;;
  when (not_null (read (lineWidth actualStyle)))
    (call (SetLineWidth (read (lineWidth actualStyle)))) ;;
  when (not_null (read (lineDash actualStyle)))
    (setLineDash (read (lineDash actualStyle))) ;;
  when (negb (truthy (read (batch actualStyle)))) (call BeginPath) ;;
  call (MoveTo (vec2.x start) (vec2.y start)) ;;
  call (LineTo (vec2.x end_) (vec2.y end_)) ;;
  when (truthy (read (stroke actualStyle))
        && negb (truthy (read (batch actualStyle))))
    (call Stroke) ;;
  call Restore.

(** Draw a cross at a given position with a specified size. *)
Definition cross (position : vec2.t) (size : float)
    (style : option StyleOptions.t) : Emit unit :=
  call Save ;;
  let actualStyle := getStyle style in
  when (not_null (read (strokeColor actualStyle)))
    (color <- lift (prepareColor (color_value (read (strokeColor actualStyle)))) ;;
     call (SetStrokeStyle color)) ;;
  when (not_null (read (lineWidth actualStyle)))
    (call (SetLineWidth (read (lineWidth actualStyle)))) ;;
  when (not_null (read (lineDash actualStyle)))
    (setLineDash (read (lineDash actualStyle))) ;;
  when (negb (truthy (read (batch actualStyle)))) (call BeginPath) ;;
  let halfSize := (size / 2)%float in
  match read (crossStyle actualStyle) with
  | val Plus =>
      call (MoveTo (vec2.x position - halfSize) (vec2.y position)) ;;
      call (LineTo (vec2.x position + halfSize) (vec2.y position)) ;;
      call (MoveTo (vec2.x position) (vec2.y position - halfSize)) ;;
      call (LineTo (vec2.x position) (vec2.y position + halfSize))
  | val Ex =>
      call (MoveTo (vec2.x position - halfSize) (vec2.y position - halfSize)) ;;
      call (LineTo (vec2.x position + halfSize) (vec2.y position + halfSize)) ;;
      call (MoveTo (vec2.x position - halfSize) (vec2.y position + halfSize)) ;;
      call (LineTo (vec2.x position + halfSize) (vec2.y position - halfSize))
  | _ => ret tt
  end ;;
  when (truthy (read (stroke actualStyle))
        && negb (truthy (read (batch actualStyle))))
    (call Stroke) ;;
  call Restore.

(** [vec2.rad(a)] *)
Definition vec2_rad (a : vec2.t) : float := Math_atan2 (vec2.y a) (vec2.x a).

(** Draw an arrow from a start point to an end point with an optional
    arrowhead at the end.  This function does not support batch drawing
    since it requires beginning a new path for the arrowhead. *)
Definition arrow (start end_ : vec2.t) (style : option StyleOptions.t)
    : Emit unit :=
  call Save ;;
  let actualStyle := getStyle style in
  when (not_null (read (strokeColor actualStyle)))
    (color <- lift (prepareColor (color_value (read (strokeColor actualStyle)))) ;;
     call (SetStrokeStyle color)) ;;
  when (not_null (read (lineWidth actualStyle)))
    (call (SetLineWidth (read (lineWidth actualStyle)))) ;;
  when (not_null (read (lineDash actualStyle)))
    (setLineDash (read (lineDash actualStyle))) ;;
  call BeginPath ;;
  call (MoveTo (vec2.x start) (vec2.y start)) ;;
  call (LineTo (vec2.x end_) (vec2.y end_)) ;;
  call Stroke ;;
  match read (StyleOptions.arrow actualStyle) with
  | val actualArrow =>
      let arrowSize := nullish (read (arrow_size actualArrow)) 10%float in
      let halfSize := (arrowSize / 2)%float in
      let angle := vec2_rad (vec2.sub end_ start) in
      let arrowType := nullish (read (arrow_type actualArrow)) Caret in
      call Save ;;
      call (Translate (vec2.x end_) (vec2.y end_)) ;;
      call (Rotate angle) ;;
      match arrowType with
      | ArrowFunction draw => calls_of (draw arrowSize)
      | Caret =>
          when (not_null (read (strokeColor actualStyle)))
            (color <- lift (prepareColor
                              (color_value (read (strokeColor actualStyle)))) ;;
             call (SetFillStyle (PaintColor color))) ;;
          call BeginPath ;;
          call (MoveTo 0 (- halfSize)) ;;
          call (LineTo arrowSize 0) ;;
          call (LineTo 0 halfSize) ;;
          call ClosePath ;;
          call Fill
      | Chevron =>
          call BeginPath ;;
          call (MoveTo (- halfSize) (- halfSize)) ;;
          call (LineTo 0 0) ;;
          call (LineTo (- halfSize) halfSize) ;;
          call Stroke
      end ;;
      call Restore
  | _ => ret tt
  end ;;
  call Restore.

(** [Math.PI] *)
Definition Math_PI : float := 3.141592653589793%float.

(** Draw a circle at a specified center point with a given radius. *)
Definition circle (center : vec2.t) (radius : float)
    (style : option StyleOptions.t) : Emit unit :=
  call Save ;;
  let actualStyle := getStyle style in
  when (not_null (read (fillColor actualStyle)))
    (color <- lift (prepareColor (color_value (read (fillColor actualStyle)))) ;;
     call (SetFillStyle (PaintColor color))) ;;
  when (present (read (gradient actualStyle)))
    (gr <- prepareGradient (read (gradient actualStyle)) ;;
     match gr with
     | Some gr => call (SetFillStyle (PaintGradient gr))
     | None => ret tt
     end) ;;
  when (not_null (read (strokeColor actualStyle)))
    (color <- lift (prepareColor (color_value (read (strokeColor actualStyle)))) ;;
     call (SetStrokeStyle color)) ;;
  when (not_null (read (lineWidth actualStyle)))
    (call (SetLineWidth (read (lineWidth actualStyle)))) ;;
  when (not_null (read (lineDash actualStyle)))
    (setLineDash (read (lineDash actualStyle))) ;;
  when (negb (truthy (read (batch actualStyle)))) (call BeginPath) ;;
  call (Arc (vec2.x center) (vec2.y center) radius 0 (Math_PI * 2)) ;;
  when (truthy (read (fill actualStyle))
        && negb (truthy (read (batch actualStyle))))
    (call Fill) ;;
  when (truthy (read (stroke actualStyle))
        && negb (truthy (read (batch actualStyle))))
    (call Stroke) ;;
  call Restore.

(** Draw a rectangle at a specified position with a given size. *)
Definition rectangle (position size : vec2.t)
    (style : option StyleOptions.t) : Emit unit :=
  call Save ;;
  let actualStyle := getStyle style in
  when (not_null (read (fillColor actualStyle)))
    (color <- lift (prepareColor (color_value (read (fillColor actualStyle)))) ;;
     call (SetFillStyle (PaintColor color))) ;;
  when (present (read (gradient actualStyle)))
    (gr <- prepareGradient (read (gradient actualStyle)) ;;
     match gr with
     | Some gr => call (SetFillStyle (PaintGradient gr))
     | None => ret tt
     end) ;;
  when (not_null (read (strokeColor actualStyle)))
    (color <- lift (prepareColor (color_value (read (strokeColor actualStyle)))) ;;
     call (SetStrokeStyle color)) ;;
  when (not_null (read (lineWidth actualStyle)))
    (call (SetLineWidth (read (lineWidth actualStyle)))) ;;
  when (not_null (read (lineDash actualStyle)))
    (setLineDash (read (lineDash actualStyle))) ;;
  when (negb (truthy (read (batch actualStyle)))) (call BeginPath) ;;
  (if truthy (read (rounded actualStyle))
   then call (RoundRect (vec2.x position) (vec2.y position)
                (vec2.x size) (vec2.y size)
                (nullish (read (borderRadius actualStyle)) 1%float))
   else call (Rect (vec2.x position) (vec2.y position)
                (vec2.x size) (vec2.y size))) ;;
  when (truthy (read (fill actualStyle))
        && negb (truthy (read (batch actualStyle))))
    (call Fill) ;;
  when (truthy (read (stroke actualStyle))
        && negb (truthy (read (batch actualStyle))))
    (call Stroke) ;;
  call Restore.

(** Draw a polygon defined by an array of vertices. *)
Definition polygon (vertices : list vec2.t) (style : option StyleOptions.t)
    : Emit unit :=
  when (length vertices <? 3)%nat return_ ;;
  call Save ;;
  let actualStyle := getStyle style in
  when (not_null (read (fillColor actualStyle)))
    (color <- lift (prepareColor (color_value (read (fillColor actualStyle)))) ;;
     call (SetFillStyle (PaintColor color))) ;;
  when (present (read (gradient actualStyle)))
    (gr <- prepareGradient (read (gradient actualStyle)) ;;
     match gr with
     | Some gr => call (SetFillStyle (PaintGradient gr))
     | None => ret tt
     end) ;;
  when (not_null (read (strokeColor actualStyle)))
    (color <- lift (prepareColor (color_value (read (strokeColor actualStyle)))) ;;
     call (SetStrokeStyle color)) ;;
  when (not_null (read (lineWidth actualStyle)))
    (call (SetLineWidth (read (lineWidth actualStyle)))) ;;
  when (not_null (read (lineDash actualStyle)))
    (setLineDash (read (lineDash actualStyle))) ;;
  when (negb (truthy (read (batch actualStyle)))) (call BeginPath) ;;
  v0 <- element vertices 0 ;;
  call (MoveTo (vec2.x v0) (vec2.y v0)) ;;
  for_range 1 (length vertices)
    (fun i => v <- element vertices i ;; call (LineTo (vec2.x v) (vec2.y v))) ;;
  call ClosePath ;;
  when (truthy (read (fill actualStyle))
        && negb (truthy (read (batch actualStyle))))
    (call Fill) ;;
  when (truthy (read (stroke actualStyle))
        && negb (truthy (read (batch actualStyle))))
    (call Stroke) ;;
  call Restore.

Definition CATMULL_ROM_BASIS_FUNCTIONS : list (float -> float -> float) :=
  [ (fun t tension =>
       - tension * Math_pow t 3 + 2 * tension * Math_pow t 2 - tension * t);
    (fun t tension =>
       (2 - tension) * Math_pow t 3 + (tension - 3) * Math_pow t 2 + 1);
    (fun t tension =>
       (tension - 2) * Math_pow t 3 + (3 - 2 * tension) * Math_pow t 2
       + tension * t);
    (fun t tension => tension * Math_pow t 3 - tension * Math_pow t 2)
  ]%float.

Definition CATMULL_ROM_BASIS_VECTOR (t tension : float) : list float :=
  map (fun f => f t tension) CATMULL_ROM_BASIS_FUNCTIONS.

(** Draw a path defined by an array of vertices. *)
Definition path (vertices : list vec2.t) (style : option StyleOptions.t)
    : Emit unit :=
  when (length vertices <? 2)%nat return_ ;;
  call Save ;;
  let actualStyle := getStyle style in
  when (not_null (read (strokeColor actualStyle)))
    (color <- lift (prepareColor (color_value (read (strokeColor actualStyle)))) ;;
     call (SetStrokeStyle color)) ;;
  when (not_null (read (lineWidth actualStyle)))
    (call (SetLineWidth (read (lineWidth actualStyle)))) ;;
  when (not_null (read (lineDash actualStyle)))
    (setLineDash (read (lineDash actualStyle))) ;;
  when (negb (truthy (read (batch actualStyle)))) (call BeginPath) ;;
  let pathType := nullish (read (pathType actualStyle)) Linear in
  match pathType with
  | Linear =>
      v0 <- element vertices 0 ;;
      call (MoveTo (vec2.x v0) (vec2.y v0)) ;;
      for_range 1 (length vertices)
        (fun i =>
           v <- element vertices i ;; call (LineTo (vec2.x v) (vec2.y v)))
  | Bezier =>
      let order :=
        clamp (nullish (read (bezierOrder actualStyle)) 3%float) 1 3 in
      match table_key order with
      | Some order =>
          (* the order is 1, 2 or 3: the loop indices are whole numbers *)
          let segmentSize := Z.to_nat (order + 1) in
          for_each
            (segment_starts segmentSize (Z.to_nat order) (length vertices))
            (fun i =>
               let segmentPoints := take segmentSize (drop i vertices) in
               when (i =? 0)%nat
                 (p0 <- element segmentPoints 0 ;;
                  call (MoveTo (vec2.x p0) (vec2.y p0))) ;;
               for_each curve_parameters
                 (fun t =>
                    match BEZIER_MATRICES order,
                          BEZIER_COEFFICIENTS t order with
                    | Some matrix, Some coefficients =>
                        match mat.mulv matrix coefficients with
                        | None => call Restore ;; return_
                        | Some q =>
                            p <- fold_each (seq 0 segmentSize)
                                   (fun p j =>
                                      pj <- element segmentPoints j ;;
                                      ret (vec2.mk
                                             (vec2.x p
                                              + vec2.x pj * nth j q nan)
                                             (vec2.y p
                                              + vec2.y pj * nth j q nan)))
                                   vec2.zero ;;
                            call (LineTo (vec2.x p) (vec2.y p))
                        end
                    | _, _ => throw
                    end))
      | None =>
          (* any other order: both tables read [undefined], and
             [mat.mulv] throws on reading a member of it *)
          let segmentSize := (order + 1)%float in
          for_each (segment_starts_number segmentSize order (length vertices))
            (fun i =>
               let segmentPoints :=
                 slice i (i + segmentSize)%float vertices in
               when (i =? 0)%float
                 (p0 <- element segmentPoints 0 ;;
                  call (MoveTo (vec2.x p0) (vec2.y p0))) ;;
               for_each curve_parameters (fun t => throw))
      end
  | CatmullRom =>
      let tension :=
        nullish (read (catmullRomTension actualStyle)) 0.5%float in
      if (4 <=? length vertices)%nat then
        v1 <- element vertices 1 ;;
        call (MoveTo (vec2.x v1) (vec2.y v1)) ;;
        for_range 1 (length vertices - 2)
          (fun i =>
             p0 <- element vertices (i - 1) ;;
             p1 <- element vertices i ;;
             p2 <- element vertices (i + 1) ;;
             p3 <- element vertices (i + 2) ;;
             let points := [p0; p1; p2; p3] in
             for_each curve_parameters
               (fun t =>
                  let x := dot (map vec2.x points)
                             (CATMULL_ROM_BASIS_VECTOR t tension) in
                  let y := dot (map vec2.y points)
                             (CATMULL_ROM_BASIS_VECTOR t tension) in
                  call (LineTo x y)))
      else
        v0 <- element vertices 0 ;;
        call (MoveTo (vec2.x v0) (vec2.y v0)) ;;
        for_range 1 (length vertices)
          (fun i =>
             v <- element vertices i ;; call (LineTo (vec2.x v) (vec2.y v)))
  end ;;
  when (truthy (read (stroke actualStyle))
        && negb (truthy (read (batch actualStyle))))
    (call Stroke) ;;
  call Restore.

(** Whether an object has members [r], [g] and [b] and an [a] that is a
    number or missing; reading [a] may throw. *)
Definition color_shaped (props : list (string * Result Value)) : Result bool :=
  if (if assoc "r" props is Some _ then true else false)
     && (if assoc "g" props is Some _ then true else false)
     && (if assoc "b" props is Some _ then true else false)
  then match assoc "a" props with
       | None | Some (Ok (VNumber _)) => Ok true
       | Some (Ok _) => Ok false
       | Some TypeError => TypeError
       end
  else Ok false.

(** ["rgba(r, g, b, a)"] with [a] defaulting to 1, for members that are
    numbers. *)
Definition rgba_string (r g b : float) (a : js float) : string :=
  "rgba(" +:+ NumberToString r +:+ ", " +:+ NumberToString g +:+ ", "
  +:+ NumberToString b +:+ ", " +:+ NumberToString (nullish a 1%float) +:+ ")".

(** The calls of the catmull-rom branch for four or more vertices: a
    move-to the second vertex, then for each [i] from 1 to [length - 3] a
    line-to per curve parameter, computed from the vertices at [i - 1],
    [i], [i + 1] and [i + 2]. *)
Definition catmull_rom_curve (tension : float) (vertices : list vec2.t)
    : list Call :=
  match vertices !! 1%nat with
  | Some v1 => [MoveTo (vec2.x v1) (vec2.y v1)]
  | None => []
  end
  ++ flat_map
       (fun i =>
          let points := take 4 (drop (i - 1) vertices) in
          map (fun t =>
                 LineTo
                   (dot (map vec2.x points) (CATMULL_ROM_BASIS_VECTOR t tension))
                   (dot (map vec2.y points) (CATMULL_ROM_BASIS_VECTOR t tension)))
            curve_parameters)
       (seq 1 (length vertices - 3)).

(** What [path] adds to the current path, by the resolved path type. *)
Definition path_curve (vertices : list vec2.t) (actualStyle : StyleOptions.t)
    : list Call :=
  match nullish (read (pathType actualStyle)) Linear with
  | Linear => linear_curve vertices
  | Bezier =>
      match table_key
              (clamp (nullish (read (bezierOrder actualStyle)) 3%float) 1 3)
      with
      | Some order => bezier_curve (Z.to_nat order) vertices
      | None => []
      end
  | CatmullRom =>
      if (4 <=? length vertices)%nat
      then catmull_rom_curve
             (nullish (read (catmullRomTension actualStyle)) 0.5%float)
             vertices
      else linear_curve vertices
  end.

Definition emit (e : EmitterCall) : Emit unit :=
  match e with
  | LineCall start end_ style => line start end_ style
  | CrossCall position size style => cross position size style
  | ArrowCall start end_ style => arrow start end_ style
  | CircleCall center radius style => circle center radius style
  | RectangleCall position size style => rectangle position size style
  | PolygonCall vertices style => polygon vertices style
  | PathCall vertices style => path vertices style
  end.

(** ** The emitters in closed form *)

(** The assignments of [strokeStyle], [lineWidth] and the dash pattern,
    each made unless the resolved member is [null]. *)
Definition stroke_attributes (actualStyle : StyleOptions.t) : list Call :=
  (if not_null (read (strokeColor actualStyle))
   then match prepareColor (color_value (read (strokeColor actualStyle))) with
        | Ok color => [SetStrokeStyle color]
        | TypeError => []
        end
   else [])
  ++ (if not_null (read (lineWidth actualStyle))
      then [SetLineWidth (read (lineWidth actualStyle))]
      else [])
  ++ match read (lineDash actualStyle) with
     | val segments => [SetLineDash segments]
     | _ => []
     end.

(** The assignments of [fillStyle]: the fill colour unless it is [null],
    then the gradient when there is one, after the call that builds it. *)
Definition fill_attributes (actualStyle : StyleOptions.t) : list Call :=
  (if not_null (read (fillColor actualStyle))
   then match prepareColor (color_value (read (fillColor actualStyle))) with
        | Ok color => [SetFillStyle (PaintColor color)]
        | TypeError => []
        end
   else [])
  ++ match read (gradient actualStyle) with
     | val g =>
         match prepareGradient (val g) with
         | (calls, Continue (Some gr)) =>
             calls ++ [SetFillStyle (PaintGradient gr)]
         | (calls, _) => calls
         end
     | _ => []
     end.

(** [beginPath()] unless the style is batched. *)
Definition begin_calls (actualStyle : StyleOptions.t) : list Call :=
  if truthy (read (batch actualStyle)) then [] else [BeginPath].

(** The calls that draw the arrowhead at [end_], turned by [angle]. *)
Definition arrowhead_calls (end_ : vec2.t) (angle : float)
    (actualStyle : StyleOptions.t) : list Call :=
  match arrowhead_of actualStyle with
  | None => []
  | Some (arrowSize, arrowType) =>
      let halfSize := (arrowSize / 2)%float in
      [Save; Translate (vec2.x end_) (vec2.y end_); Rotate angle]
      ++ match arrowType with
         | ArrowFunction draw => draw arrowSize
         | Caret =>
             (if not_null (read (strokeColor actualStyle))
              then match prepareColor
                           (color_value (read (strokeColor actualStyle))) with
                   | Ok color => [SetFillStyle (PaintColor color)]
                   | TypeError => []
                   end
              else [])
             ++ [BeginPath; MoveTo 0 (- halfSize); LineTo arrowSize 0;
                 LineTo 0 halfSize; ClosePath; Fill]
         | Chevron =>
             [BeginPath; MoveTo (- halfSize) (- halfSize); LineTo 0 0;
              LineTo (- halfSize) halfSize; Stroke]
         end
      ++ [Restore]
  end.

(** The calls that draw an arrowhead of the given type and size at
    [end_], turned by [angle]: a caret is a closed triangle of that
    length and width, filled with the stroke colour; a chevron is an open
    V of half that length and that width, stroked. *)
Definition sized_arrowhead (arrowType : ArrowType) (arrowSize : float)
    (end_ : vec2.t) (angle : float) (actualStyle : StyleOptions.t)
    : list Call :=
  let halfSize := (arrowSize / 2)%float in
  [Save; Translate (vec2.x end_) (vec2.y end_); Rotate angle]
  ++ match arrowType with
     | ArrowFunction draw => draw arrowSize
     | Caret =>
         (if not_null (read (strokeColor actualStyle))
          then match prepareColor
                       (color_value (read (strokeColor actualStyle))) with
               | Ok color => [SetFillStyle (PaintColor color)]
               | TypeError => []
               end
          else [])
         ++ [BeginPath; MoveTo 0 (- halfSize); LineTo arrowSize 0;
             LineTo 0 halfSize; ClosePath; Fill]
     | Chevron =>
         [BeginPath; MoveTo (- halfSize) (- halfSize); LineTo 0 0;
          LineTo (- halfSize) halfSize; Stroke]
     end
  ++ [Restore].

(** * Properties *)

(** ** Blocks and their calls *)

Lemma bind_continue {A B} (m : Emit A) (k : A -> Emit B) (a : A) :
  m.2 = Continue a ->
  (bind m k).1 = m.1 ++ (k a).1 /\ (bind m k).2 = (k a).2.
Proof.
  destruct m as [calls f]; cbn; intros ->.
  by destruct (k a).
Qed.

Lemma only_ret {A} P (a : A) : only P (ret a).
Proof. split; [by exists a | done]. Qed.

Lemma only_call P c : P c = true -> only P (call c).
Proof. intros H. split; [by exists tt | by cbn; rewrite H]. Qed.

Lemma only_calls_of P calls : forallb P calls = true -> only P (calls_of calls).
Proof. intros H. split; [by exists tt | done]. Qed.

Lemma only_bind {A B} P (m : Emit A) (k : A -> Emit B) :
  only P m -> (forall a, m.2 = Continue a -> only P (k a)) -> only P (bind m k).
Proof.
  intros [[a Ha] Hm] Hk.
  destruct (bind_continue m k a Ha) as [Hcalls Hflow].
  destruct (Hk a Ha) as [Hend Hka].
  split; [by rewrite Hflow |].
  by rewrite Hcalls, forallb_app, Hm, Hka.
Qed.

Lemma only_when P (b : bool) (m : Emit unit) :
  (b = true -> only P m) -> only P (when b m).
Proof. destruct b; cbn; [auto | intros _; apply only_ret]. Qed.

Lemma only_for_each {A} P (l : list A) (body : A -> Emit unit) :
  (forall v, v ∈ l -> only P (body v)) -> only P (for_each l body).
Proof.
  induction l as [|v l IH]; intros H; cbn; [apply only_ret |].
  apply only_bind; [apply H; left |].
  intros _ _. apply IH. intros w Hw. apply H. by right.
Qed.

Lemma only_fold_each {A S} P (l : list A) (body : S -> A -> Emit S) (s : S) :
  (forall s v, v ∈ l -> only P (body s v)) -> only P (fold_each l body s).
Proof.
  revert s. induction l as [|v l IH]; intros s H; cbn; [apply only_ret |].
  apply only_bind; [apply H; left |].
  intros s' _. apply IH. intros s'' w Hw. apply H. by right.
Qed.

Lemma only_element P (vertices : list vec2.t) (i : nat) :
  (i < length vertices)%nat -> only P (element vertices i).
Proof.
  intros Hi. unfold element.
  destruct (lookup_lt_is_Some_2 vertices i Hi) as [v ->]. apply only_ret.
Qed.

Lemma only_setLineDash P (v : js (list float)) :
  (forall segments, P (SetLineDash segments) = true) ->
  is_defined v = true -> not_null v = true -> only P (setLineDash v).
Proof. intros HP. destruct v; try done. intros _ _. by apply only_call. Qed.

Lemma only_value {A} P (m : Emit A) :
  only P m -> exists calls a, m = (calls, Continue a) /\ forallb P calls = true.
Proof.
  destruct m as [calls f]. intros [[a Ha] H]. cbn in *. subst. eauto.
Qed.

Lemma ends_with_bind {A B} P tail (m : Emit A) (k : A -> Emit B) :
  only P m -> (forall a, ends_with P tail (k a)) -> ends_with P tail (bind m k).
Proof.
  intros [[a Ha] Hm] Hk.
  destruct (bind_continue m k a Ha) as [Hcalls Hflow].
  destruct (Hk a) as (prefix & Hprefix & Htail & Hend).
  exists (m.1 ++ prefix). rewrite forallb_app, Hm, Hprefix, Hcalls, Htail, Hflow.
  by rewrite (assoc_L (++)).
Qed.

Lemma ends_with_here {A} P calls (a : A) :
  ends_with P calls (calls, Continue a).
Proof. exists []. cbn. eauto. Qed.

Lemma reaches_bind {A B} P c (m : Emit A) (k : A -> Emit B) :
  only P m -> (forall a, reaches P c (k a)) -> reaches P c (bind m k).
Proof.
  intros [[a Ha] Hm] Hk.
  destruct (bind_continue m k a Ha) as [Hcalls _].
  destruct (Hk a) as (prefix & rest & Hprefix & Htail).
  exists (m.1 ++ prefix), rest.
  rewrite forallb_app, Hm, Hprefix, Hcalls, Htail.
  by rewrite (assoc_L (++)).
Qed.

Lemma reaches_here {B} P c (k : unit -> Emit B) : reaches P c (bind (call c) k).
Proof. exists [], (k tt).1. cbn. by destruct (k tt). Qed.

Lemma ends_with_mono {A} (P Q : Call -> bool) tail (m : Emit A) :
  (forall c, P c = true -> Q c = true) -> ends_with P tail m -> ends_with Q tail m.
Proof.
  intros HPQ (prefix & Hprefix & Htail & Hend). exists prefix.
  split; [|done]. rewrite forallb_forall in *. auto.
Qed.

(** Calls that satisfy [P] at the head of the tail belong to the prefix. *)
Lemma ends_with_shift {A} P calls tail (m : Emit A) :
  forallb P calls = true -> ends_with P (calls ++ tail) m -> ends_with P tail m.
Proof.
  intros Hcalls (prefix & Hprefix & Htail & Hend). exists (prefix ++ calls).
  by rewrite forallb_app, Hprefix, Hcalls, Htail, (assoc_L (++)).
Qed.

(** ** Pushed states *)

Lemma depth_after_app d calls calls' :
  depth_after d (calls ++ calls') =
    match depth_after d calls with
    | Some d' => depth_after d' calls'
    | None => None
    end.
Proof.
  revert d. induction calls as [|c calls IH]; intros d; [done |].
  destruct c, d; cbn; auto.
Qed.

Lemma depth_after_plain d calls :
  forallb plain calls = true -> depth_after (S d) calls = Some (S d).
Proof.
  induction calls as [|c calls IH]; [done |].
  cbn. intros [Hc H]%andb_true_iff. destruct c; cbn; auto; done.
Qed.

Lemma depth_after_deeper d d' calls :
  depth_after d calls = Some d' -> depth_after (S d) calls = Some (S d').
Proof.
  revert d. induction calls as [|c calls IH]; intros d; cbn.
  - congruence.
  - destruct c, d; cbn; try done; auto.
Qed.

Lemma flows_only {A} d (m : Emit A) : only plain m -> flows (S d) (S d) m.
Proof.
  intros (calls & a & -> & H)%only_value. by apply depth_after_plain.
Qed.

Lemma flows_bind {A B} d d1 d2 (m : Emit A) (k : A -> Emit B) :
  flows d d1 m -> (forall a, m.2 = Continue a -> flows d1 d2 (k a)) ->
  flows d d2 (bind m k).
Proof.
  destruct m as [calls [a| |]]; unfold flows; cbn; try done.
  intros Hm Hk. specialize (Hk a eq_refl).
  destruct (k a) as [calls' f]; cbn in *.
  rewrite depth_after_app, Hm. by destruct f.
Qed.

Lemma flows_save d : flows d (S d) (call Save).
Proof. done. Qed.

Lemma flows_restore d : flows (S d) d (call Restore).
Proof. done. Qed.

Lemma flows_return {A} d : flows 0 d (@return_ A).
Proof. done. Qed.

Lemma flows_ret {A} d (a : A) : flows d d (ret a).
Proof. done. Qed.

Lemma flows_when d (b : bool) (m : Emit unit) :
  (b = true -> flows d d m) -> flows d d (when b m).
Proof. destruct b; cbn; auto. Qed.

Lemma flows_for_each {A} d (l : list A) (body : A -> Emit unit) :
  (forall v, v ∈ l -> flows d d (body v)) -> flows d d (for_each l body).
Proof.
  induction l as [|v l IH]; intros H; cbn; [done |].
  eapply flows_bind; [apply H; left |].
  intros _ _. apply IH. intros w Hw. apply H. by right.
Qed.

Lemma flows_bracketed d calls :
  bracketed calls -> flows (S (S d)) (S (S d)) (calls_of calls).
Proof.
  unfold bracketed, flows; cbn. intros H.
  induction d as [|d IH]; by apply depth_after_deeper.
Qed.

(** ** The state stack under a run *)

Lemma saved_exec_plain ctx c :
  plain c = true -> Canvas.saved (Canvas.exec ctx c) = Canvas.saved ctx.
Proof.
  destruct c; cbn; try done.
  - destruct v as [| |w]; [done | done |]. by destruct (Canvas.valid_width w).
  - by destruct (forallb Canvas.valid_dash segments).
Qed.

Lemma run_kept s0 base calls :
  forall d d' ctx,
    kept s0 base d ctx -> depth_after d calls = Some d' ->
    kept s0 base d' (Canvas.run calls ctx).
Proof.
  induction calls as [|c calls IH]; intros d d' ctx Hkept Hdepth.
  { cbn in *. by injection Hdepth as <-. }
  assert (Hplain : plain c = true ->
            forall k, d = S k -> depth_after d calls = Some d' ->
            kept s0 base d' (Canvas.run (c :: calls) ctx)).
  { intros Hc k -> Hrest. apply (IH (S k)); [|done].
    destruct Hkept as (front & Hsaved & Hlen).
    exists front. by rewrite saved_exec_plain. }
  destruct c; try (destruct d as [|k]; [done | by apply (Hplain eq_refl k)]).
  - (* save() *)
    apply (IH (S d)); [|done].
    destruct d as [|k]; cbn in *.
    + destruct Hkept as [-> ->]. by exists [].
    + destruct Hkept as (front & -> & <-).
      by exists (Canvas.current ctx :: front).
  - (* restore() *)
    destruct d as [|k]; [done |]. cbn in Hdepth.
    apply (IH k); [|done].
    destruct Hkept as (front & Hsaved & Hlen). cbn. rewrite Hsaved.
    destruct front as [|top front]; cbn in *; subst k; [done |].
    by exists front.
Qed.

(** A run that ends with nothing pushed leaves the state and the stack as
    it found them. *)
Lemma run_restores calls ctx :
  depth_after 0 calls = Some 0%nat ->
  Canvas.current (Canvas.run calls ctx) = Canvas.current ctx /\
  Canvas.saved (Canvas.run calls ctx) = Canvas.saved ctx.
Proof.
  intros H.
  by apply (run_kept (Canvas.current ctx) (Canvas.saved ctx) calls 0 0 ctx).
Qed.

(** ** Colours *)

Lemma prepareColor_string (s : string) : prepareColor (VString s) = Ok s.
Proof. done. Qed.

(** A colour member of a declared type, [undefined] included, never makes
    [prepareColor] throw; only [null] does. *)
Lemma prepareColor_typed (c : js ColorValue) :
  not_null c = true -> exists css, prepareColor (color_value c) = Ok css.
Proof.
  destruct c as [| |[s|[r g b [[| |a]|]]]]; intros H; try done;
    cbn; eauto.
Qed.

(** C9 (the code differs): [prepareColor] throws on [null], and on an
    object with [r], [g] and [b] whose [r] is a Symbol.  On every value: a string is
    returned unchanged; [null] throws; an object with [r], [g], [b] and an
    [a] that reads as a number or is missing is converted by
    [colourToString], which gives "rgba(r, g, b, a)" with [a] defaulting
    to 1 when the members are numbers and throws when reading or
    converting a member throws; an object whose [a] cannot be read throws;
    every other value gives "black". *)
Theorem prepareColor_throws :
  prepareColor VNull = TypeError
  /\ (forall g b,
        prepareColor (VObject [("r", Ok VSymbol); ("g", g); ("b", b)])
        = TypeError)
  /\ (forall r g b,
        prepareColor
          (VObject [("r", Ok (VNumber r)); ("g", Ok (VNumber g));
                    ("b", Ok (VNumber b))])
        = Ok (rgba_string r g b undefined))
  /\ (forall r g b a,
        prepareColor
          (VObject [("r", Ok (VNumber r)); ("g", Ok (VNumber g));
                    ("b", Ok (VNumber b)); ("a", Ok (VNumber a))])
        = Ok (rgba_string r g b (val a)))
  /\ forall color,
       prepareColor color =
         match color with
         | VString s => Ok s
         | VNull => TypeError
         | VObject props =>
             match color_shaped props with
             | Ok true => colourToString color
             | Ok false => Ok "black"
             | TypeError => TypeError
             end
         | _ => Ok "black"
         end.
Proof.
  repeat split; try done.
  intros [| |b|x|s| |props|]; try done.
  unfold prepareColor, isColorObject, color_shaped. cbn.
  destruct (assoc "r" props) as [r|]; [|done].
  destruct (assoc "g" props) as [g|]; [|done].
  destruct (assoc "b" props) as [b|]; [|done].
  by destruct (assoc "a" props) as [[[]|]|].
Qed.

Lemma only_prepareColor P (c : js ColorValue) :
  not_null c = true -> only P (lift (prepareColor (color_value c))).
Proof. intros [css ->]%prepareColor_typed. apply only_ret. Qed.

Lemma only_prepareGradient P (style : js Gradient) :
  (forall x0 y0 x1 y1, P (CreateLinearGradient x0 y0 x1 y1) = true) ->
  (forall x0 y0 r0 x1 y1 r1,
     P (CreateRadialGradient x0 y0 r0 x1 y1 r1) = true) ->
  only P (prepareGradient style).
Proof.
  intros Hlinear Hradial. destruct style as [| |style]; try apply only_ret.
  cbn [prepareGradient]. apply only_bind.
  - destruct (gradient_type style);
      (apply only_bind; [by apply only_call | intros; apply only_ret]).
  - intros gradient _. apply only_bind; [|intros; apply only_ret].
    apply only_fold_each. intros gr stop _.
    apply only_bind; [by apply only_prepareColor | intros; apply only_ret].
Qed.

(** ** Style resolution *)

Lemma getStyle_omitted : getStyle None = getStyle (Some StyleOptions.empty).
Proof. reflexivity. Qed.

Lemma getStyle_lineDash_defined (style : option StyleOptions.t) :
  is_defined (read (lineDash (getStyle style))) = true.
Proof.
  destruct style as [[]|]; cbn; [|done].
  destruct lineDash0 as [[]|], lineStyle0 as [[]|]; done.
Qed.

(** C7: when [lineDash] is not supplied the resolved dash pattern is [[]]
    if [lineStyle] is not supplied either, and otherwise comes from the
    table solid -> [], dashed -> [5,5], dotted -> [1,3]; a supplied
    [lineDash], [null] included, is kept as it is. *)
Theorem getStyle_derives_lineDash (style : option StyleOptions.t) :
  read (lineDash (getStyle style)) =
    match member style lineDash with
    | undefined =>
        match member style lineStyle with
        | undefined => val []
        | null | val Solid => val []
        | val Dashed => val [5; 5]%float
        | val Dotted => val [1; 3]%float
        end
    | supplied => supplied
    end.
Proof.
  destruct style as [[]|]; cbn; [|done].
  destruct lineDash0 as [[]|]; cbn; try done;
    destruct lineStyle0 as [[| |[]]|]; done.
Qed.

Lemma overlay_overlay {A} (x d : slot A) :
  overlay (overlay x d) d = overlay x d.
Proof. by destruct x, d. Qed.

(** C8: resolving a resolved style changes nothing, in any member, the
    derived [lineDash] and the index-signature members included. *)
Theorem getStyle_idempotent (style : option StyleOptions.t) :
  getStyle (Some (getStyle style)) = getStyle style.
Proof.
  destruct style as [[]|]; [|reflexivity].
  unfold getStyle, assign, with_lineDash; cbn.
  f_equal;
    try (by match goal with |- overlay (overlay ?x _) _ = _ => destruct x end).
  - destruct lineDash0 as [[]|], lineStyle0 as [[]|]; done.
  - by rewrite !(right_id_L ∅ (∪)).
Qed.

(** ** Loops *)

Lemma loop_values_cond {A} fuel (cond : A -> bool) next (init v : A) :
  v ∈ loop_values fuel cond next init -> cond v = true.
Proof.
  revert init. induction fuel as [|fuel IH]; intros init; cbn.
  - by intros ?%elem_of_nil.
  - destruct (cond init) eqn:Hcond; [|by intros ?%elem_of_nil].
    intros [->|H]%elem_of_cons; eauto.
Qed.

Lemma segment_starts_fit segmentSize order len i :
  i ∈ segment_starts segmentSize order len -> (i + segmentSize <= len)%nat.
Proof. intros H%loop_values_cond. by apply Nat.leb_le. Qed.

Lemma table_key_cases (order : float) (n : Z) :
  table_key order = Some n -> n = 1%Z \/ n = 2%Z \/ n = 3%Z.
Proof.
  unfold table_key.
  destruct (order =? 1)%float; [intros [= <-]; auto |].
  destruct (order =? 2)%float; [intros [= <-]; auto |].
  destruct (order =? 3)%float; [intros [= <-]; auto | done].
Qed.

(** The loop over numbers runs at least once when its first test
    succeeds, and its first index is 0. *)
Lemma segment_starts_number_cases segmentSize order len :
  segment_starts_number segmentSize order len = []
  \/ exists rest,
       segment_starts_number segmentSize order len = 0%float :: rest.
Proof.
  unfold segment_starts_number. cbn [loop_values].
  destruct (_ <=? _)%float; eauto.
Qed.

Lemma for_each_calls {A} (l : list A) (body : A -> Emit unit)
    (g : A -> list Call) :
  (forall v, v ∈ l -> body v = (g v, Continue tt)) ->
  for_each l body = (flat_map g l, Continue tt).
Proof.
  induction l as [|v l IH]; intros H; [done |].
  cbn. rewrite (H v), IH by (try left; intros; apply H; by right). done.
Qed.

(** [for (let i = lo; i < vertices.length; i++) f(vertices[i])] *)
Lemma for_range_elements (vertices : list vec2.t) (f : vec2.t -> Call) :
  forall lo,
    for_range lo (length vertices)
      (fun i => v <- element vertices i ;; call (f v)) =
    (map f (drop lo vertices), Continue tt).
Proof.
  unfold for_range. intros lo.
  remember (length vertices - lo)%nat as n eqn:Hn.
  revert lo Hn. induction n as [|n IH]; intros lo Hn.
  - by rewrite drop_ge by lia.
  - destruct (lookup_lt_is_Some_2 vertices lo ltac:(lia)) as [v Hv].
    cbn. unfold element at 1. rewrite Hv. cbn.
    rewrite (IH (S lo)) by lia. by rewrite (drop_S _ _ _ Hv).
Qed.

(** The loop over window starts, given enough iterations: [count] windows
    fit from [i] on, one every [n] vertices. *)
Lemma loop_values_starts n seg len count :
  forall fuel i,
    (count <= fuel)%nat ->
    (forall j, j < count -> i + j * n + seg <= len)%nat ->
    ~ (i + count * n + seg <= len)%nat ->
    loop_values fuel (fun i => i + seg <=? len)%nat (fun i => i + n)%nat i =
      map (fun j => i + j * n)%nat (seq 0 count).
Proof.
  induction count as [|count IH]; intros fuel i Hfuel Hfit Hlast.
  - destruct fuel; [done |]. cbn.
    destruct (Nat.leb_spec (i + seg) len); [lia | done].
  - destruct fuel as [|fuel]; [lia |]. cbn.
    destruct (Nat.leb_spec (i + seg) len) as [_|Hno];
      [|specialize (Hfit 0%nat); lia].
    f_equal; [lia |].
    rewrite (IH fuel (i + n)%nat).
    + rewrite <- seq_shift, map_map. apply map_ext. intros; lia.
    + lia.
    + intros j Hj. specialize (Hfit (S j)). lia.
    + lia.
Qed.

(** The loop over window starts ends by its condition, and the windows
    start at 0, n, 2n, ... *)
Lemma segment_starts_closed n len :
  (1 <= n)%nat -> segment_starts (n + 1) n len = window_starts n len.
Proof.
  intros Hn. unfold segment_starts, window_starts.
  pose proof (Nat.div_mod (len - 1) n ltac:(lia)) as Hdiv.
  pose proof (Nat.mod_upper_bound (len - 1) n ltac:(lia)) as Hmod.
  rewrite (loop_values_starts n (n + 1) len ((len - 1) / n)).
  - apply map_ext. intros; lia.
  - nia.
  - intros j Hj. nia.
  - nia.
Qed.

Lemma window_starts_spec n len start :
  (1 <= n)%nat ->
  start ∈ window_starts n len <->
  exists k, start = (k * n)%nat /\ (start + n + 1 <= len)%nat.
Proof.
  intros Hn. unfold window_starts.
  pose proof (Nat.div_mod (len - 1) n ltac:(lia)) as Hdiv.
  pose proof (Nat.mod_upper_bound (len - 1) n ltac:(lia)) as Hmod.
  rewrite list_elem_of_fmap. setoid_rewrite elem_of_seq. split.
  - intros (k & -> & Hk). exists k. split; [done | nia].
  - intros (k & -> & Hk). exists k. split; [done | nia].
Qed.

(** ** Every emitter pops what it pushes *)

Ltac only_step :=
  match goal with
  | |- only _ (ret _) => apply only_ret
  | |- only _ (call _) => apply only_call; reflexivity
  | |- only _ (bind _ _) => apply only_bind; [| intros ? _]
  | |- only _ (when _ _) => apply only_when; intros ?
  | |- only _ (lift (prepareColor _)) => apply only_prepareColor; done
  | |- only _ (setLineDash _) => apply only_setLineDash; done
  | |- only _ (prepareGradient _) => apply only_prepareGradient; done
  | |- only _ (element _ _) =>
      apply only_element; rewrite ?length_take, ?length_drop; lia
  | |- only _ (for_range _ _ _) =>
      unfold for_range; apply only_for_each; intros ? [? ?]%elem_of_seq
  | |- only _ (for_each _ _) => apply only_for_each; intros ? ?
  | |- only _ (fold_each _ _ _) =>
      apply only_fold_each; intros ? ? [? ?]%elem_of_seq
  | |- only _ (match ?x with _ => _ end) => destruct x
  end.

Ltac flows_step :=
  match goal with
  | |- flows _ _ (call Save) => apply flows_save
  | |- flows _ _ (call Restore) => apply flows_restore
  | |- flows _ _ (ret _) => apply flows_ret
  | |- flows (S _) _ _ => apply flows_only; solve [repeat only_step]
  | |- flows _ _ (bind _ _) => eapply flows_bind; [| intros ? _]
  | |- flows _ _ (calls_of _) => apply flows_bracketed; eauto
  | |- flows _ _ (match ?x with _ => _ end) => destruct x
  end.

Ltac resolve_style style actualStyle Hdash :=
  pose proof (getStyle_lineDash_defined style) as Hdash;
  cbv zeta; set (actualStyle := getStyle style) in *; clearbody actualStyle.

Lemma line_flows start end_ style : flows 0 0 (line start end_ style).
Proof.
  unfold line. resolve_style style actualStyle Hdash. repeat flows_step.
Qed.

Lemma cross_flows position size style : flows 0 0 (cross position size style).
Proof.
  unfold cross. resolve_style style actualStyle Hdash. repeat flows_step.
Qed.

Lemma circle_flows center radius style : flows 0 0 (circle center radius style).
Proof.
  unfold circle. resolve_style style actualStyle Hdash. repeat flows_step.
Qed.

Lemma rectangle_flows position size style :
  flows 0 0 (rectangle position size style).
Proof.
  unfold rectangle. resolve_style style actualStyle Hdash. repeat flows_step.
Qed.

Lemma polygon_flows vertices style : flows 0 0 (polygon vertices style).
Proof.
  unfold polygon. destruct (Nat.ltb_spec (length vertices) 3); [done |].
  eapply flows_bind; [apply flows_ret | intros _ _].
  resolve_style style actualStyle Hdash. repeat flows_step.
Qed.

Lemma arrow_flows start end_ style :
  (forall draw size, custom_arrowhead style = Some draw ->
                     bracketed (draw size)) ->
  flows 0 0 (arrow start end_ style).
Proof.
  unfold arrow, custom_arrowhead. intros Hcustom.
  pose proof (getStyle_lineDash_defined style) as Hdash.
  cbv zeta. set (actualStyle := getStyle style) in *.
  destruct (read (StyleOptions.arrow actualStyle)) as [| |actualArrow];
    [clearbody actualStyle; repeat flows_step .. |].
  destruct (nullish (read (arrow_type actualArrow)) Caret) as [| |draw];
    clearbody actualStyle; repeat flows_step.
Qed.

Lemma path_flows vertices style :
  path_completes vertices (getStyle style) = true ->
  flows 0 0 (path vertices style).
Proof.
  unfold path, path_completes.
  destruct (Nat.ltb_spec (length vertices) 2); [done |]. intros Hcompletes.
  eapply flows_bind; [apply flows_ret | intros _ _].
  resolve_style style actualStyle Hdash.
  destruct (table_key _) as [order|] eqn:Hkey; cycle 1.
  { (* no table entry: the loop does not run *)
    repeat flows_step. cbv beta iota zeta in Hcompletes.
    destruct (segment_starts_number _ _ _); [|done].
    apply flows_only, only_ret. }
  (* the bezier branch, where the inner loop may return *)
  destruct (table_key_cases _ _ Hkey) as [-> | [-> | ->]];
    repeat flows_step;
    (apply flows_for_each; intros i Hi%segment_starts_fit;
     eapply flows_bind;
       [apply flows_only; repeat only_step; cbn; lia | intros _ _];
     apply flows_for_each; intros t _;
     cbn [BEZIER_MATRICES BEZIER_COEFFICIENTS];
     match goal with
     | |- flows _ _ (match ?q with _ => _ end) => destruct q
     end;
     [apply flows_only; repeat only_step; cbn; lia |];
     eapply flows_bind; [apply flows_restore | intros _ _]; apply flows_return).
Qed.

(** ** [path] in closed form *)

Lemma flat_map_singleton {A B} (f : A -> B) (l : list A) :
  flat_map (fun v => [f v]) l = map f l.
Proof. induction l; cbn; congruence. Qed.

(** The bezier branch of [path] issues the calls of [bezier_curve] and
    neither throws nor returns. *)
Lemma bezier_branch_closed (order : Z) (vertices : list vec2.t) :
  order = 1%Z \/ order = 2%Z \/ order = 3%Z ->
  vertices <> [] ->
  for_each
    (segment_starts (Z.to_nat (order + 1)) (Z.to_nat order) (length vertices))
    (fun i =>
       when (i =? 0)%nat
         (p0 <- element (take (Z.to_nat (order + 1)) (drop i vertices)) 0 ;;
          call (MoveTo (vec2.x p0) (vec2.y p0))) ;;
       for_each curve_parameters
         (fun t =>
            match BEZIER_MATRICES order, BEZIER_COEFFICIENTS t order with
            | Some matrix, Some coefficients =>
                match mat.mulv matrix coefficients with
                | None => call Restore ;; return_
                | Some q =>
                    p <- fold_each (seq 0 (Z.to_nat (order + 1)))
                           (fun p j =>
                              pj <- element
                                      (take (Z.to_nat (order + 1))
                                         (drop i vertices)) j ;;
                              ret (vec2.mk
                                     (vec2.x p + vec2.x pj * nth j q nan)
                                     (vec2.y p + vec2.y pj * nth j q nan)))
                           vec2.zero ;;
                    call (LineTo (vec2.x p) (vec2.y p))
                end
            | _, _ => throw
            end)) =
  (bezier_curve (Z.to_nat order) vertices, Continue tt).
Proof.
  intros Horder Hvertices.
  assert (Hn : (1 <= Z.to_nat order)%nat) by lia.
  replace (Z.to_nat (order + 1)) with (Z.to_nat order + 1)%nat by lia.
  rewrite (for_each_calls _ _
             (fun start => window_calls (Z.to_nat order) start vertices)).
  { by rewrite segment_starts_closed. }
  intros i Hi%segment_starts_fit. unfold window_calls, window.
  rewrite Z2Nat.id by lia.
  assert (Hfirst :
    when (i =? 0)%nat
      (p0 <- element (take (Z.to_nat order + 1) (drop i vertices)) 0 ;;
       call (MoveTo (vec2.x p0) (vec2.y p0))) =
    (if (i =? 0)%nat
     then match vertices with
          | [] => []
          | v0 :: _ => [MoveTo (vec2.x v0) (vec2.y v0)]
          end
     else [], Continue tt)).
  { destruct (Nat.eqb_spec i 0) as [->|_]; [|done].
    destruct vertices as [|v0 rest]; [done |].
    by rewrite drop_0, Nat.add_1_r. }
  rewrite Hfirst. clear Hfirst.
  remember (take (Z.to_nat order + 1) (drop i vertices)) as segmentPoints
    eqn:Hpoints.
  assert (Hsize : length segmentPoints = (Z.to_nat order + 1)%nat)
    by (subst segmentPoints; rewrite length_take, length_drop; lia).
  clear Hpoints.
  rewrite (for_each_calls _ _
             (fun t =>
                [LineTo (vec2.x (bezier_point order segmentPoints t))
                   (vec2.y (bezier_point order segmentPoints t))])).
  { by rewrite flat_map_singleton. }
  intros t _.
  destruct Horder as [-> | [-> | ->]]; cbn in Hsize;
    destruct segmentPoints as [|p0 [|p1 [|p2 [|p3 [|p4 ?]]]]];
    try discriminate Hsize; reflexivity.
Qed.

(** The linear branch of [path] moves to the first vertex and draws a
    line to each of the others. *)
Lemma linear_branch_closed (vertices : list vec2.t) :
  vertices <> [] ->
  (v0 <- element vertices 0 ;;
   call (MoveTo (vec2.x v0) (vec2.y v0)) ;;
   for_range 1 (length vertices)
     (fun i => v <- element vertices i ;; call (LineTo (vec2.x v) (vec2.y v))))
  = (linear_curve vertices, Continue tt).
Proof.
  intros Hvertices. rewrite for_range_elements.
  destruct vertices as [|v0 rest]; [done |]. cbn. by rewrite drop_0.
Qed.

(** The catmull-rom branch of [path], for four or more vertices, issues
    the calls of [catmull_rom_curve] and does not throw. *)
Lemma catmull_rom_branch_closed (tension : float) (vertices : list vec2.t) :
  (4 <= length vertices)%nat ->
  (v1 <- element vertices 1 ;;
   call (MoveTo (vec2.x v1) (vec2.y v1)) ;;
   for_range 1 (length vertices - 2)
     (fun i =>
        p0 <- element vertices (i - 1) ;;
        p1 <- element vertices i ;;
        p2 <- element vertices (i + 1) ;;
        p3 <- element vertices (i + 2) ;;
        let points := [p0; p1; p2; p3] in
        for_each curve_parameters
          (fun t =>
             let x := dot (map vec2.x points)
                        (CATMULL_ROM_BASIS_VECTOR t tension) in
             let y := dot (map vec2.y points)
                        (CATMULL_ROM_BASIS_VECTOR t tension) in
             call (LineTo x y))))
  = (catmull_rom_curve tension vertices, Continue tt).
Proof.
  intros H4. unfold catmull_rom_curve, for_range.
  destruct (lookup_lt_is_Some_2 vertices 1 ltac:(lia)) as [v1 Hv1].
  unfold element at 1. rewrite Hv1.
  replace (length vertices - 2 - 1)%nat with (length vertices - 3)%nat
    by lia.
  rewrite (for_each_calls _ _
             (fun i =>
                let points := take 4 (drop (i - 1) vertices) in
                map (fun t =>
                       LineTo
                         (dot (map vec2.x points)
                            (CATMULL_ROM_BASIS_VECTOR t tension))
                         (dot (map vec2.y points)
                            (CATMULL_ROM_BASIS_VECTOR t tension)))
                  curve_parameters)).
  { done. }
  intros i [Hlo Hhi]%elem_of_seq. cbv zeta.
  remember (take 4 (drop (i - 1) vertices)) as points eqn:Hpoints.
  assert (Hlook : forall j, (j < 4)%nat ->
            vertices !! (i - 1 + j)%nat = points !! j).
  { intros j Hj. subst points. by rewrite lookup_take_lt, lookup_drop. }
  assert (Hsize : length points = 4%nat)
    by (subst points; rewrite length_take, length_drop; lia).
  destruct points as [|p0 [|p1 [|p2 [|p3 [|p4 ?]]]]];
    try discriminate Hsize.
  pose proof (Hlook 0%nat ltac:(lia)) as H0.
  pose proof (Hlook 1%nat ltac:(lia)) as H1.
  pose proof (Hlook 2%nat ltac:(lia)) as H2.
  pose proof (Hlook 3%nat ltac:(lia)) as H3.
  replace (i - 1 + 0)%nat with (i - 1)%nat in H0 by lia.
  replace (i - 1 + 1)%nat with i in H1 by lia.
  replace (i - 1 + 2)%nat with (i + 1)%nat in H2 by lia.
  replace (i - 1 + 3)%nat with (i + 2)%nat in H3 by lia.
  unfold element. rewrite H0, H1, H2, H3. cbn [lookup list_lookup bind ret].
  rewrite (for_each_calls _ _
             (fun t =>
                [LineTo
                   (dot (map vec2.x [p0; p1; p2; p3])
                      (CATMULL_ROM_BASIS_VECTOR t tension))
                   (dot (map vec2.y [p0; p1; p2; p3])
                      (CATMULL_ROM_BASIS_VECTOR t tension))]))
    by done.
  by rewrite flat_map_singleton.
Qed.

Lemma curve_parameters_first :
  exists t rest, curve_parameters = t :: rest.
Proof. vm_compute. eauto. Qed.

(** With an order that has no table entry, the bezier branch of [path]
    does nothing when no window fits; otherwise, after the move-to of the
    first window, it throws at the first curve parameter. *)
Lemma unlisted_branch_closed (order : float) (vertices : list vec2.t) :
  for_each (segment_starts_number (order + 1) order (length vertices))
    (fun i =>
       when (i =? 0)%float
         (p0 <- element (slice i (i + (order + 1))%float vertices) 0 ;;
          call (MoveTo (vec2.x p0) (vec2.y p0))) ;;
       for_each curve_parameters (fun t => throw))
  = match segment_starts_number (order + 1) order (length vertices) with
    | [] => ([], Continue tt)
    | _ :: _ =>
        (match slice 0 (0 + (order + 1))%float vertices with
         | p0 :: _ => [MoveTo (vec2.x p0) (vec2.y p0)]
         | [] => []
         end,
         Thrown)
    end.
Proof.
  destruct (segment_starts_number_cases (order + 1) order (length vertices))
    as [-> | [rest ->]]; [done |].
  destruct curve_parameters_first as (t & parameters & ->).
  cbn [for_each]. change (0 =? 0)%float with true. cbn [when].
  by destruct (slice 0 (0 + (order + 1))%float vertices).
Qed.

Lemma path_closed vertices style :
  (2 <= length vertices)%nat ->
  path_completes vertices (getStyle style) = true ->
  ends_with setup
    (path_curve vertices (getStyle style) ++ stroke_calls (getStyle style)
     ++ [Restore])
    (path vertices style).
Proof.
  intros Hlen Hcompletes. unfold path. unfold path_completes in Hcompletes.
  destruct (Nat.ltb_spec (length vertices) 2) as [|_]; [lia |].
  apply ends_with_bind; [apply only_ret | intros _].
  resolve_style style actualStyle Hdash.
  repeat (apply ends_with_bind; [solve [repeat only_step] | intros _]).
  assert (Hvertices : vertices <> []) by (intros ->; cbn in Hlen; lia).
  unfold path_curve, stroke_calls.
  destruct (nullish (read (pathType actualStyle)) Linear).
  - (* linear *)
    rewrite linear_branch_closed by done. cbn.
    destruct (truthy (read (stroke actualStyle)) && _); apply ends_with_here.
  - (* bezier *)
    cbv zeta in Hcompletes.
    destruct (table_key _) as [order|] eqn:Hkey.
    + rewrite bezier_branch_closed by (by eapply table_key_cases || done).
      cbn.
      destruct (truthy (read (stroke actualStyle)) && _); cbn;
        apply ends_with_here.
    + destruct (segment_starts_number _ _ _); [|done]. cbn.
      destruct (truthy (read (stroke actualStyle)) && _); cbn;
        apply ends_with_here.
  - (* catmull-rom *)
    destruct (Nat.leb_spec 4 (length vertices)) as [H4|H4].
    + rewrite catmull_rom_branch_closed by done. cbn.
      destruct (truthy (read (stroke actualStyle)) && _); cbn;
        apply ends_with_here.
    + rewrite linear_branch_closed by done. cbn.
      destruct (truthy (read (stroke actualStyle)) && _); apply ends_with_here.
Qed.

(** Members the defaults do not have resolve to what the caller gave. *)
Lemma resolved_pathType style :
  read (pathType (getStyle style)) = member style pathType.
Proof. destruct style as [[]|]; [|done]. by destruct pathType0. Qed.

Lemma resolved_bezierOrder style :
  read (bezierOrder (getStyle style)) = member style bezierOrder.
Proof. destruct style as [[]|]; [|done]. by destruct bezierOrder0. Qed.

Lemma bind_ext {A B} (m : Emit A) (k k' : A -> Emit B) :
  (forall a, k a = k' a) -> bind m k = bind m k'.
Proof. intros H. destruct m as [calls [a| |]]; cbn; by rewrite ?H. Qed.

Lemma bind_same {A B} (m m' : Emit A) (k : A -> Emit B) :
  m = m' -> bind m k = bind m' k.
Proof. by intros ->. Qed.

Lemma flat_map_ext_elem {A B} (f g : A -> list B) (l : list A) :
  (forall v, v ∈ l -> f v = g v) -> flat_map f l = flat_map g l.
Proof.
  induction l as [|v l IH]; intros H; [done |].
  cbn. rewrite (H v), IH by (try left; intros; apply H; by right). done.
Qed.

(** Vertices after the last complete window change no call. *)
Lemma bezier_curve_trailing n k (body trailing : list vec2.t) :
  (1 <= n)%nat -> (1 <= k)%nat -> length body = (k * n + 1)%nat ->
  (length trailing < n)%nat ->
  bezier_curve n (body ++ trailing) = bezier_curve n body.
Proof.
  intros Hn Hk Hbody Htrailing. unfold bezier_curve.
  assert (Hstarts : window_starts n (length (body ++ trailing)) =
                    window_starts n (length body)).
  { unfold window_starts. rewrite length_app, Hbody. do 2 f_equal.
    replace (k * n + 1 + length trailing - 1)%nat
      with (k * n + length trailing)%nat by lia.
    replace (k * n + 1 - 1)%nat with (k * n + 0)%nat by lia.
    rewrite !Nat.div_add_l by lia.
    by rewrite !Nat.div_small by lia. }
  rewrite Hstarts. apply flat_map_ext_elem.
  intros start (j & -> & Hfit)%window_starts_spec; [|done].
  unfold window_calls, window.
  rewrite drop_app_le, take_app_le by (rewrite ?length_drop; lia).
  destruct body; [cbn in Hbody; lia | done].
Qed.

Lemma keyed_path_completes vertices style order :
  table_key (clamp (nullish (member style bezierOrder) 3%float) 1 3)
  = Some order ->
  path_completes vertices (getStyle style) = true.
Proof.
  unfold path_completes. rewrite resolved_bezierOrder. intros ->.
  by destruct (nullish _ Linear).
Qed.

Lemma unbent_path_completes vertices style :
  nullish (member style pathType) Linear <> Bezier ->
  path_completes vertices (getStyle style) = true.
Proof.
  unfold path_completes. rewrite resolved_pathType.
  by destruct (nullish _ Linear).
Qed.

(** X21: in bezier mode with a clamped order [n] of 1, 2 or 3
    ([bezierOrder] is taken as 3 when not given) [path] takes the vertices
    in windows of [n + 1] that start at 0, n, 2n, ... as long as
    [start + n + 1 <= length]; vertices after the last complete window add
    no call, fewer than [n + 1] vertices give no curve call at all, and
    nothing is thrown. *)
Theorem path_bezier_windows (vertices : list vec2.t)
    (style : option StyleOptions.t) (order : Z) :
  member style pathType = val Bezier ->
  (2 <= length vertices)%nat ->
  table_key (clamp (nullish (member style bezierOrder) 3%float) 1 3)
  = Some order ->
  let n := Z.to_nat order in
  (forall start,
     start ∈ window_starts n (length vertices) <->
     exists k, start = (k * n)%nat /\ (start + n + 1 <= length vertices)%nat) /\
  ends_with setup
    (bezier_curve n vertices ++ stroke_calls (getStyle style) ++ [Restore])
    (path vertices style) /\
  (forall body trailing k,
     vertices = body ++ trailing ->
     (1 <= k)%nat -> length body = (k * n + 1)%nat ->
     (length trailing < n)%nat ->
     path vertices style = path body style) /\
  ((length vertices < n + 1)%nat -> bezier_curve n vertices = []).
Proof.
  intros Htype Hlen Hkey n.
  pose proof (table_key_cases _ _ Hkey) as Horder.
  assert (Hn : (1 <= n)%nat) by (subst n; lia).
  split; [intros; by apply window_starts_spec |].
  split; [|split].
  - pose proof (path_closed vertices style Hlen
                  (keyed_path_completes _ _ _ Hkey)) as H.
    unfold path_curve in H.
    by rewrite resolved_pathType, Htype, resolved_bezierOrder, Hkey in H.
  - intros body trailing k -> Hk Hbody Htrailing. unfold path.
    destruct (Nat.ltb_spec (length (body ++ trailing)) 2); [lia |].
    destruct (Nat.ltb_spec (length body) 2); [nia |].
    apply bind_ext; intros _. cbv zeta.
    rewrite resolved_pathType, Htype, resolved_bezierOrder, Hkey.
    cbn [nullish].
    do 5 (apply bind_ext; intros _). apply bind_same.
    assert (Hbody' : body <> []) by (intros ->; cbn in Hbody; lia).
    rewrite !bezier_branch_closed
      by (done || by intros [? _]%app_eq_nil).
    by rewrite (bezier_curve_trailing _ k).
  - intros Hshort. unfold bezier_curve, window_starts.
    by rewrite Nat.div_small by lia.
Qed.

Lemma getStyle_with_pathType s p :
  getStyle (Some (with_pathType s p)) = with_pathType (getStyle (Some s)) p.
Proof. by destruct s. Qed.

(** C6: with two or three vertices [path] issues the same calls for
    catmull-rom as for linear, whatever else the style holds: a move-to the
    first vertex, then a line-to each of the others. *)
Theorem path_catmull_rom_fallback (vertices : list vec2.t)
    (s : StyleOptions.t) :
  length vertices = 2%nat \/ length vertices = 3%nat ->
  path vertices (Some (with_pathType s (val CatmullRom))) =
    path vertices (Some (with_pathType s (val Linear))) /\
  ends_with setup
    (linear_curve vertices
     ++ stroke_calls (getStyle (Some (with_pathType s (val CatmullRom))))
     ++ [Restore])
    (path vertices (Some (with_pathType s (val CatmullRom)))).
Proof.
  intros Hlen. split.
  - unfold path. rewrite !getStyle_with_pathType.
    cbn [with_pathType strokeColor lineWidth lineDash batch stroke pathType
         bezierOrder catmullRomTension read nullish].
    by destruct (Nat.leb_spec 4 (length vertices)); [lia |].
  - assert (Hcompletes :
      path_completes vertices
        (getStyle (Some (with_pathType s (val CatmullRom)))) = true)
      by by apply unbent_path_completes.
    pose proof (path_closed vertices
                  (Some (with_pathType s (val CatmullRom))) ltac:(lia)
                  Hcompletes) as H.
    unfold path_curve in H. rewrite resolved_pathType in H.
    cbn [member with_pathType pathType read nullish] in H. revert H.
    by destruct (Nat.leb_spec 4 (length vertices)); [lia |].
Qed.

(** ** Filling and stroking *)

Lemma forallb_map_all {A} (P : Call -> bool) (f : A -> Call) (l : list A) :
  (forall v, P (f v) = true) -> forallb P (map f l) = true.
Proof. intros H. induction l; cbn; [done |]. by rewrite H. Qed.

Lemma forallb_mono {A} (P Q : A -> bool) (l : list A) :
  (forall v, P v = true -> Q v = true) ->
  forallb P l = true -> forallb Q l = true.
Proof. rewrite !forallb_forall. auto. Qed.

Lemma forallb_flat_map_all {A} (P : Call -> bool) (f : A -> list Call)
    (l : list A) :
  (forall v, forallb P (f v) = true) -> forallb P (flat_map f l) = true.
Proof. intros H. induction l; cbn; [done |]. by rewrite forallb_app, H. Qed.

Lemma path_curve_paintless vertices actualStyle :
  forallb paintless (path_curve vertices actualStyle) = true.
Proof.
  unfold path_curve.
  assert (Hlinear : forallb paintless (linear_curve vertices) = true)
    by (destruct vertices; [done |]; by apply forallb_map_all).
  destruct (nullish (read (pathType actualStyle)) Linear); [done | |].
  - destruct (table_key _); [|done].
    apply forallb_flat_map_all. intros start. unfold window_calls.
    rewrite forallb_app, forallb_map_all by done.
    destruct (start =? 0)%nat; [by destruct vertices | done].
  - destruct (4 <=? length vertices)%nat; [|done].
    unfold catmull_rom_curve. rewrite forallb_app.
    rewrite forallb_flat_map_all by (intros; by apply forallb_map_all).
    by destruct (vertices !! 1%nat).
Qed.

Ltac paint_tail actualStyle :=
  repeat (apply ends_with_bind; [solve [repeat only_step] | intros ?]);
  unfold fill_calls, stroke_calls;
  repeat match goal with
         | |- context [truthy (read (?f actualStyle)) && ?b] =>
             destruct (truthy (read (f actualStyle)) && b)
         end;
  apply ends_with_here.

(** C2 (amended): [circle], [rectangle] and [polygon] (three or more
    vertices) end with [fill()] if the resolved fill flag is set, then
    [stroke()] if the resolved stroke flag is set, then [restore()], and
    with neither [fill()] nor [stroke()] when the style is batched; [line]
    and [cross] end the same way with [stroke()] alone and never fill, and
    so does [path] (two or more vertices) when it is not in bezier mode
    with a clamped order other than 1, 2 and 3 and enough vertices for a
    first window; no [fill()] or [stroke()] comes earlier.  [arrow] strokes
    its shaft whatever the flags. *)
Theorem emitters_fill_then_stroke (style : option StyleOptions.t) :
  let actualStyle := getStyle style in
  (forall center radius,
     ends_with paintless
       (fill_calls actualStyle ++ stroke_calls actualStyle ++ [Restore])
       (circle center radius style)) /\
  (forall position size,
     ends_with paintless
       (fill_calls actualStyle ++ stroke_calls actualStyle ++ [Restore])
       (rectangle position size style)) /\
  (forall vertices,
     (3 <= length vertices)%nat ->
     ends_with paintless
       (fill_calls actualStyle ++ stroke_calls actualStyle ++ [Restore])
       (polygon vertices style)) /\
  (forall start end_,
     ends_with paintless (stroke_calls actualStyle ++ [Restore])
       (line start end_ style)) /\
  (forall position size,
     ends_with paintless (stroke_calls actualStyle ++ [Restore])
       (cross position size style)) /\
  (forall vertices,
     (2 <= length vertices)%nat ->
     path_completes vertices actualStyle = true ->
     ends_with paintless (stroke_calls actualStyle ++ [Restore])
       (path vertices style)) /\
  (forall start end_, reaches paintless Stroke (arrow start end_ style)).
Proof.
  repeat split.
  - intros. unfold circle.
    resolve_style style actualStyle Hdash. paint_tail actualStyle.
  - intros. unfold rectangle.
    resolve_style style actualStyle Hdash. paint_tail actualStyle.
  - intros vertices Hlen. unfold polygon.
    destruct (Nat.ltb_spec (length vertices) 3); [lia |].
    apply ends_with_bind; [apply only_ret | intros _].
    resolve_style style actualStyle Hdash. paint_tail actualStyle.
  - intros. unfold line.
    resolve_style style actualStyle Hdash. paint_tail actualStyle.
  - intros. unfold cross.
    resolve_style style actualStyle Hdash. paint_tail actualStyle.
  - intros vertices Hlen Hcompletes.
    apply (ends_with_shift _ (path_curve vertices (getStyle style)));
      [apply path_curve_paintless |].
    eapply ends_with_mono; [|by apply path_closed]. by intros [].
  - intros. unfold arrow. resolve_style style actualStyle Hdash.
    repeat (apply reaches_bind; [solve [repeat only_step] | intros _]).
    apply reaches_here.
Qed.

(** ** The curve parameters *)

(** With 101 iterations or more the parameter loop ends by its condition,
    with the same values: 0, 0.01, ..., 100 of them.  The hundredth sum of
    0.01 is 1.0000000000000007, so the loop stops before [t = 1]. *)
Lemma curve_parameters_fuel (k : nat) :
  loop_values (101 + k) (fun t => t <=? 1)%float (fun t => t + 0.01)%float
    0%float = curve_parameters.
Proof. vm_compute. reflexivity. Qed.

Lemma curve_parameters_last :
  length curve_parameters = 100%nat /\
  last curve_parameters = Some 0.9900000000000007%float /\
  (0.9900000000000007 + 0.01 <=? 1)%float = false.
Proof. vm_compute. done. Qed.

(** With order 3 and four vertices, whatever they are, [path] moves to
    the first and issues one line-to per curve parameter. *)
Lemma path_cubic_bezier_calls (v0 v1 v2 v3 : vec2.t)
    (style : option StyleOptions.t) :
  member style pathType = val Bezier ->
  table_key (clamp (nullish (member style bezierOrder) 3%float) 1 3)
  = Some 3%Z ->
  ends_with setup
    (MoveTo (vec2.x v0) (vec2.y v0)
     :: map (fun t =>
               LineTo (vec2.x (bezier_point 3 [v0; v1; v2; v3] t))
                 (vec2.y (bezier_point 3 [v0; v1; v2; v3] t)))
          curve_parameters
     ++ stroke_calls (getStyle style) ++ [Restore])
    (path [v0; v1; v2; v3] style).
Proof.
  intros Htype Horder.
  pose proof (path_closed [v0; v1; v2; v3] style ltac:(cbn; lia)
                (keyed_path_completes _ _ _ Horder)) as H.
  unfold path_curve in H.
  rewrite resolved_pathType, Htype, resolved_bezierOrder, Horder in H.
  cbn [nullish] in H.
  change (bezier_curve (Z.to_nat 3) [v0; v1; v2; v3])
    with (window_calls 3 0 [v0; v1; v2; v3] ++ []) in H.
  by rewrite app_nil_r in H.
Qed.

(** C3 (the code differs): with bezier order 3 and the four vertices
    (0,0), (0,10), (10,10), (10,0), [path] moves to the first vertex and
    issues one line-to per curve parameter: 100 of them, not 101, the last
    at t = 0.9900000000000007.  The last point, about (9.997, 0.297), is
    short of the fourth vertex, which is the point at t = 1. *)
Theorem path_cubic_bezier_stops_short :
  let vertices :=
    [vec2.mk 0 0; vec2.mk 0 10; vec2.mk 10 10; vec2.mk 10 0]%float in
  let last_point := bezier_point 3 vertices 0.9900000000000007 in
  path vertices
    (Some (StyleOptions.mk None None None None None None None None None None
             None None None (Some (val Bezier)) (Some (val 3%float)) None ∅)) =
    ([Save; SetLineWidth (val 1%float); SetLineDash []; BeginPath;
      MoveTo 0 0]
     ++ map (fun t =>
               LineTo (vec2.x (bezier_point 3 vertices t))
                 (vec2.y (bezier_point 3 vertices t)))
          curve_parameters
     ++ [Stroke; Restore],
     Continue tt) /\
  length curve_parameters = 100%nat /\
  last curve_parameters = Some 0.9900000000000007%float /\
  ((vec2.x last_point <? 9.998) && (0.29 <? vec2.y last_point))%float = true /\
  bezier_point 3 vertices 1 = vec2.mk 10 0.
Proof. vm_compute. done. Qed.

Lemma emit_flows (e : EmitterCall) :
  arrowhead_bracketed e -> completes e = true -> flows 0 0 (emit e).
Proof.
  destruct e; cbn [emit arrowhead_bracketed completes]; intros H Hcompletes.
  - apply line_flows.
  - apply cross_flows.
  - by apply arrow_flows.
  - apply circle_flows.
  - apply rectangle_flows.
  - apply polygon_flows.
  - by apply path_flows.
Qed.

(** C1 (amended): after an emitter call, on every way out of it by
    running to the end or by [return] (the abort inside the bezier loop
    included), the context's current state (transform and style
    attributes) and its state stack are what they were before the call,
    and the emitter throws nothing of its own; for [arrow] with a function
    as arrowhead type this holds when the function's own calls are
    bracketed.  A [path] in bezier mode whose clamped order is not 1, 2 or
    3 is set aside when it has enough vertices for a first window. *)
Theorem emitters_restore_state (e : EmitterCall) (ctx : Canvas.t) :
  arrowhead_bracketed e ->
  completes e = true ->
  (emit e).2 <> Thrown /\
  Canvas.current (Canvas.run (emit e).1 ctx) = Canvas.current ctx /\
  Canvas.saved (Canvas.run (emit e).1 ctx) = Canvas.saved ctx.
Proof.
  intros H Hcompletes. apply emit_flows in H; [|done]. unfold flows in H.
  destruct (emit e) as [calls [[]| |]]; [| |done];
    (split; [done | by apply run_restores]).
Qed.

(** ** Blocks whose calls are known *)

Lemma bind_value {A B} calls (a : A) (k : A -> Emit B) :
  bind (calls, Continue a) k = (calls ++ (k a).1, (k a).2).
Proof. cbn. by destruct (k a). Qed.

Lemma when_true (m : Emit unit) : when true m = m.
Proof. done. Qed.

Lemma when_false (m : Emit unit) : when false m = ret tt.
Proof. done. Qed.

Lemma only_calls {A} P (m : Emit A) : only P m -> forallb P m.1 = true.
Proof. by intros [_ H]. Qed.

(** The resolved style, named in the goal. *)
Ltac resolved :=
  match goal with
  | |- context [getStyle ?style] =>
      let actualStyle := fresh "actualStyle" in
      let Hdash := fresh "Hdash" in
      resolve_style style actualStyle Hdash
  end.

(** A guard that is known to fail closes the goal; otherwise one step. *)
Ltac only_guarded :=
  match goal with
  | H : false = true |- _ => discriminate H
  | |- _ => only_step
  end.

(** The statements of an emitter up to its last, one by one. *)
Ltac peel :=
  repeat (apply ends_with_bind; [solve [repeat only_guarded] | intros ?]).

(** ** Gradients *)

(** The colour stops are added in the order given, each at its position
    as given and with its colour prepared. *)
Lemma fold_colorStops (stops : list ColorStop) :
  forall gr,
    exists added,
      fold_each stops
        (fun gradient stop =>
           color <- lift (prepareColor (color_value (val (stop_color stop)))) ;;
           ret (addColorStop gradient (stop_position stop) color))
        gr =
      ([], Continue {| gradient_source := gradient_source gr;
                       gradient_stops := gradient_stops gr ++ added |}) /\
      Forall2
        (fun stop entry =>
           entry.1 = stop_position stop /\
           prepareColor (color_value (val (stop_color stop))) = Ok entry.2)
        stops added.
Proof.
  induction stops as [|stop stops IH]; intros gr.
  { exists []. split; [|constructor]. destruct gr. cbn. by rewrite app_nil_r. }
  destruct (prepareColor_typed (val (stop_color stop)) eq_refl) as [css Hcss].
  destruct (IH (addColorStop gr (stop_position stop) css)) as (added & Hfold & Hadded).
  exists ((stop_position stop, css) :: added). split.
  - cbn [fold_each]. rewrite Hcss. cbn [lift]. unfold ret at 1 2.
    rewrite bind_value. cbn [fst snd app]. rewrite bind_value. cbv beta.
    rewrite Hfold. cbn. by rewrite <- (assoc_L (++)).
  - by constructor.
Qed.

Lemma prepareGradient_value (g : Gradient) :
  exists stops,
    prepareGradient (val g) =
      ([gradient_call g],
       Continue (Some {| gradient_source := gradient_source_of g;
                         gradient_stops := stops |})) /\
    Forall2
      (fun stop entry =>
         entry.1 = stop_position stop /\
         prepareColor (color_value (val (stop_color stop))) = Ok entry.2)
      (colorStops g) stops.
Proof.
  unfold prepareGradient, gradient_call, gradient_source_of,
    createLinearGradient, createRadialGradient.
  destruct (gradient_type g);
    (unfold call; rewrite bind_value; cbn [ret fst snd app];
     rewrite bind_value; cbv beta;
     match goal with
     | |- context [fold_each _ _ ?gr] =>
         destruct (fold_colorStops (colorStops g) gr) as (added & -> & Hadded)
     end;
     exists added; split; [|done]; rewrite bind_value; by cbn).
Qed.

(** X6: [prepareGradient] returns [null] and calls nothing when no
    gradient is given.  For a gradient it makes one call, the constructor:
    a linear gradient from start to end, or a radial one with both circles
    centred on the start point, radii 0 and half the distance from start to
    end.  The gradient returned has one colour stop per stop given, in the
    order given, each at its position unchanged and with its colour
    prepared by [prepareColor]; nothing is thrown. *)
Theorem prepareGradient_builds (style : js Gradient) :
  match style with
  | val g =>
      exists gr,
        prepareGradient style = ([gradient_call g], Continue (Some gr)) /\
        gradient_source gr = gradient_source_of g /\
        Forall2
          (fun stop entry =>
             entry.1 = stop_position stop /\
             prepareColor (color_value (val (stop_color stop))) = Ok entry.2)
          (colorStops g) (gradient_stops gr)
  | _ => prepareGradient style = ([], Continue None)
  end.
Proof.
  destruct style as [| |g]; [done | done |].
  destruct (prepareGradient_value g) as (stops & Hvalue & Hstops). eauto.
Qed.

Lemma settles_bind {A B} Q P c (m : Emit A) (k : A -> Emit B) :
  only Q m -> (forall a, settles Q P c (k a)) -> settles Q P c (bind m k).
Proof.
  intros [[a Ha] Hm] Hk.
  destruct (bind_continue m k a Ha) as [Hcalls _].
  destruct (Hk a) as (prefix & rest & Hprefix & Htail & Hrest).
  exists (m.1 ++ prefix), rest.
  rewrite forallb_app, Hm, Hprefix, Hcalls, Htail.
  by rewrite (assoc_L (++)).
Qed.

Lemma settles_last {A B} Q P c prefix (a : A) (k : A -> Emit B) :
  forallb Q prefix = true -> only P (k a) ->
  settles Q P c (bind (prefix ++ [c], Continue a) k).
Proof.
  intros Hprefix [_ Hk]. exists prefix, (k a).1.
  rewrite bind_value. cbn [fst]. by rewrite <- (assoc_L (++)).
Qed.

(** X7: when the resolved style has a gradient, [circle], [rectangle] and
    [polygon] assign it to [fillStyle] after the fill colour, if any, and
    assign nothing to [fillStyle] after it: the gradient, not [fillColor],
    is what a later [fill()] paints with.  No [fill()] or [stroke()] comes
    before the assignment. *)
Theorem gradient_overrides_fillColor (style : option StyleOptions.t)
    (g : Gradient) :
  read (gradient (getStyle style)) = val g ->
  exists gr,
    prepareGradient (val g) = ([gradient_call g], Continue (Some gr)) /\
    gradient_source gr = gradient_source_of g /\
    (forall center radius,
       settles paintless keeps_fillStyle (SetFillStyle (PaintGradient gr))
         (circle center radius style)) /\
    (forall position size,
       settles paintless keeps_fillStyle (SetFillStyle (PaintGradient gr))
         (rectangle position size style)) /\
    (forall vertices,
       (3 <= length vertices)%nat ->
       settles paintless keeps_fillStyle (SetFillStyle (PaintGradient gr))
         (polygon vertices style)).
Proof.
  intros Hgradient.
  destruct (prepareGradient_value g) as (stops & Hvalue & Hstops).
  eexists. split; [exact Hvalue |]. split; [done |].
  split; [|split].
  - intros. unfold circle.
    resolve_style style actualStyle Hdash.
    do 2 (apply settles_bind; [solve [repeat only_step] | intros _]).
    rewrite Hgradient. cbn [present]. rewrite when_true, Hvalue.
    rewrite (bind_value [gradient_call g]). cbn [fst snd].
    apply (settles_last paintless keeps_fillStyle _ [gradient_call g]);
      [by unfold gradient_call; destruct (gradient_source_of g)
      | repeat only_step].
  - intros. unfold rectangle.
    resolve_style style actualStyle Hdash.
    do 2 (apply settles_bind; [solve [repeat only_step] | intros _]).
    rewrite Hgradient. cbn [present]. rewrite when_true, Hvalue.
    rewrite (bind_value [gradient_call g]). cbn [fst snd].
    apply (settles_last paintless keeps_fillStyle _ [gradient_call g]);
      [by unfold gradient_call; destruct (gradient_source_of g)
      | repeat only_step].
  - intros vertices Hlen. unfold polygon.
    destruct (Nat.ltb_spec (length vertices) 3); [lia |].
    apply settles_bind; [apply only_ret | intros _].
    resolve_style style actualStyle Hdash.
    do 2 (apply settles_bind; [solve [repeat only_step] | intros _]).
    rewrite Hgradient. cbn [present]. rewrite when_true, Hvalue.
    rewrite (bind_value [gradient_call g]). cbn [fst snd].
    apply (settles_last paintless keeps_fillStyle _ [gradient_call g]);
      [by unfold gradient_call; destruct (gradient_source_of g)
      | repeat only_step].
Qed.

(** ** The emitters in closed form *)

Lemma color_block (c : js ColorValue) (f : string -> Call) :
  when (not_null c) (color <- lift (prepareColor (color_value c)) ;; call (f color)) =
    (if not_null c
     then match prepareColor (color_value c) with
          | Ok color => [f color]
          | TypeError => []
          end
     else [],
     Continue tt).
Proof.
  destruct c as [| |c]; [|done |]; cbn [not_null when].
  - by destruct (prepareColor_typed undefined eq_refl) as [css ->].
  - by destruct (prepareColor_typed (val c) eq_refl) as [css ->].
Qed.

Lemma lineWidth_block (w : js float) :
  when (not_null w) (call (SetLineWidth w)) =
    (if not_null w then [SetLineWidth w] else [], Continue tt).
Proof. by destruct w. Qed.

Lemma lineDash_block (d : js (list float)) :
  is_defined d = true ->
  when (not_null d) (setLineDash d) =
    (match d with
     | val segments => [SetLineDash segments]
     | _ => []
     end,
     Continue tt).
Proof. by destruct d. Qed.

Lemma gradient_block (g : js Gradient) :
  when (present g)
    (gr <- prepareGradient g ;;
     match gr with
     | Some gr => call (SetFillStyle (PaintGradient gr))
     | None => ret tt
     end) =
    (match g with
     | val g =>
         match prepareGradient (val g) with
         | (calls, Continue (Some gr)) =>
             calls ++ [SetFillStyle (PaintGradient gr)]
         | (calls, _) => calls
         end
     | _ => []
     end,
     Continue tt).
Proof.
  destruct g as [| |g]; [done | done |]. cbn [present when].
  destruct (prepareGradient_value g) as (stops & -> & _).
  by rewrite bind_value.
Qed.

Lemma begin_block (b : js bool) :
  when (negb (truthy b)) (call BeginPath) =
    (if truthy b then [] else [BeginPath], Continue tt).
Proof. by destruct (truthy b). Qed.

Lemma paint_block (b : bool) (c : Call) :
  when b (call c) = (if b then [c] else [], Continue tt).
Proof. by destruct b. Qed.

(** The statements that assign attributes and begin the path, as the
    calls they make. *)
Ltac blocks Hdash :=
  rewrite ?(color_block _ SetStrokeStyle),
    ?(color_block _ (fun color => SetFillStyle (PaintColor color))),
    ?gradient_block, ?lineWidth_block, ?(lineDash_block _ Hdash),
    ?begin_block, ?paint_block.

Ltac values := repeat (rewrite bind_value; cbn [fst snd]).

Ltac lists :=
  unfold stroke_attributes, fill_attributes, begin_calls, fill_calls,
    stroke_calls;
  cbn [app]; rewrite <- ?app_assoc; cbn [app]; try reflexivity.

Lemma path_curve_all (P : Call -> bool) vertices actualStyle :
  (forall x y, P (MoveTo x y) = true) -> (forall x y, P (LineTo x y) = true) ->
  forallb P (path_curve vertices actualStyle) = true.
Proof.
  intros Hmove Hline. unfold path_curve.
  assert (Hlinear : forallb P (linear_curve vertices) = true).
  { destruct vertices; [done |]. cbn. by rewrite Hmove, forallb_map_all. }
  destruct (nullish (read (pathType actualStyle)) Linear); [done | |].
  - destruct (table_key _); [|done].
    apply forallb_flat_map_all. intros start. unfold window_calls.
    rewrite forallb_app, forallb_map_all by done.
    destruct (start =? 0)%nat; [|done]. destruct vertices; [done |].
    cbn. by rewrite Hmove.
  - destruct (4 <=? length vertices)%nat; [|done].
    unfold catmull_rom_curve. rewrite forallb_app.
    rewrite forallb_flat_map_all by (intros; by apply forallb_map_all).
    destruct (vertices !! 1%nat); [|done]. cbn. by rewrite Hmove.
Qed.

Lemma line_exact start end_ style :
  line start end_ style =
    (Save :: stroke_attributes (getStyle style) ++ begin_calls (getStyle style)
     ++ [MoveTo (vec2.x start) (vec2.y start);
         LineTo (vec2.x end_) (vec2.y end_)]
     ++ stroke_calls (getStyle style) ++ [Restore],
     Continue tt).
Proof.
  unfold line. resolve_style style actualStyle Hdash. blocks Hdash.
  unfold call. values. lists.
Qed.

Lemma cross_exact position size style :
  cross position size style =
    (Save :: stroke_attributes (getStyle style) ++ begin_calls (getStyle style)
     ++ cross_segments position size (getStyle style)
     ++ stroke_calls (getStyle style) ++ [Restore],
     Continue tt).
Proof.
  unfold cross, cross_segments. resolve_style style actualStyle Hdash.
  blocks Hdash.
  destruct (read (crossStyle actualStyle)) as [| |[]]; unfold call, ret;
    values; lists.
Qed.

Lemma circle_exact center radius style :
  circle center radius style =
    (Save :: fill_attributes (getStyle style)
     ++ stroke_attributes (getStyle style) ++ begin_calls (getStyle style)
     ++ [Arc (vec2.x center) (vec2.y center) radius 0 (Math_PI * 2)]
     ++ fill_calls (getStyle style) ++ stroke_calls (getStyle style)
     ++ [Restore],
     Continue tt).
Proof.
  unfold circle. resolve_style style actualStyle Hdash. blocks Hdash.
  unfold call. values. lists.
Qed.

Lemma rectangle_exact position size style :
  rectangle position size style =
    (Save :: fill_attributes (getStyle style)
     ++ stroke_attributes (getStyle style) ++ begin_calls (getStyle style)
     ++ [rectangle_outline position size (getStyle style)]
     ++ fill_calls (getStyle style) ++ stroke_calls (getStyle style)
     ++ [Restore],
     Continue tt).
Proof.
  unfold rectangle, rectangle_outline.
  resolve_style style actualStyle Hdash. blocks Hdash.
  destruct (truthy (read (rounded actualStyle))); unfold call; values; lists.
Qed.

Lemma polygon_exact vertices style :
  (3 <= length vertices)%nat ->
  polygon vertices style =
    (Save :: fill_attributes (getStyle style)
     ++ stroke_attributes (getStyle style) ++ begin_calls (getStyle style)
     ++ linear_curve vertices ++ [ClosePath]
     ++ fill_calls (getStyle style) ++ stroke_calls (getStyle style)
     ++ [Restore],
     Continue tt).
Proof.
  intros Hlen. unfold polygon.
  destruct (Nat.ltb_spec (length vertices) 3); [lia |].
  rewrite when_false. resolve_style style actualStyle Hdash. blocks Hdash.
  rewrite for_range_elements.
  destruct vertices as [|v0 rest]; [cbn in Hlen; lia |].
  unfold element. cbn [lookup list_lookup linear_curve drop].
  rewrite ?drop_0. unfold call, ret. values. lists.
Qed.

Lemma arrow_exact start end_ style :
  arrow start end_ style =
    (Save :: stroke_attributes (getStyle style)
     ++ [BeginPath; MoveTo (vec2.x start) (vec2.y start);
         LineTo (vec2.x end_) (vec2.y end_); Stroke]
     ++ arrowhead_calls end_ (vec2_rad (vec2.sub end_ start)) (getStyle style)
     ++ [Restore],
     Continue tt).
Proof.
  unfold arrow, arrowhead_calls, arrowhead_of.
  resolve_style style actualStyle Hdash. blocks Hdash.
  destruct (read (StyleOptions.arrow actualStyle)) as [| |actualArrow];
    [unfold call, ret; values; lists .. |].
  destruct (nullish (read (arrow_type actualArrow)) Caret);
    unfold call, calls_of, ret; values; lists.
Qed.

Lemma path_short vertices style :
  (length vertices < 2)%nat -> path vertices style = ([], Returned).
Proof.
  intros Hlen. unfold path.
  by destruct (Nat.ltb_spec (length vertices) 2); [|lia].
Qed.

(** [path] with two or more vertices, whether it reaches its end or
    throws. *)
Lemma path_value vertices style :
  (2 <= length vertices)%nat ->
  path vertices style =
    if path_completes vertices (getStyle style)
    then (Save :: stroke_attributes (getStyle style)
          ++ begin_calls (getStyle style)
          ++ path_curve vertices (getStyle style)
          ++ stroke_calls (getStyle style) ++ [Restore],
          Continue tt)
    else (Save :: stroke_attributes (getStyle style)
          ++ begin_calls (getStyle style)
          ++ path_moved vertices (getStyle style),
          Thrown).
Proof.
  intros Hlen. unfold path, path_completes, path_curve, path_moved.
  destruct (Nat.ltb_spec (length vertices) 2); [lia |].
  rewrite when_false. resolve_style style actualStyle Hdash. blocks Hdash.
  assert (Hvertices : vertices <> []) by (intros ->; cbn in Hlen; lia).
  destruct (nullish (read (pathType actualStyle)) Linear).
  - rewrite linear_branch_closed by done. unfold ret, call. values. lists.
  - destruct (table_key _) as [order|] eqn:Hkey.
    + rewrite bezier_branch_closed by (by eapply table_key_cases || done).
      unfold ret, call. values. lists.
    + rewrite unlisted_branch_closed.
      destruct (segment_starts_number _ _ _);
        unfold ret, call; values; cbn [bind]; lists.
  - destruct (Nat.leb_spec 4 (length vertices)).
    + rewrite catmull_rom_branch_closed by done. unfold ret, call. values.
      lists.
    + rewrite linear_branch_closed by done. unfold ret, call. values. lists.
Qed.

Lemma path_exact vertices style :
  (2 <= length vertices)%nat ->
  path_completes vertices (getStyle style) = true ->
  path vertices style =
    (Save :: stroke_attributes (getStyle style) ++ begin_calls (getStyle style)
     ++ path_curve vertices (getStyle style)
     ++ stroke_calls (getStyle style) ++ [Restore],
     Continue tt).
Proof. intros Hlen Hcompletes. by rewrite path_value, Hcompletes. Qed.

Lemma path_thrown vertices style :
  (2 <= length vertices)%nat ->
  path_completes vertices (getStyle style) = false ->
  path vertices style =
    (Save :: stroke_attributes (getStyle style) ++ begin_calls (getStyle style)
     ++ path_moved vertices (getStyle style),
     Thrown).
Proof. intros Hlen Hcompletes. by rewrite path_value, Hcompletes. Qed.

Lemma stroke_attributes_all (P : Call -> bool) actualStyle :
  (forall v, P (SetStrokeStyle v) = true) ->
  (forall v, P (SetLineWidth v) = true) ->
  (forall v, P (SetLineDash v) = true) ->
  forallb P (stroke_attributes actualStyle) = true.
Proof.
  intros Hcolor Hwidth Hdash. unfold stroke_attributes.
  rewrite !forallb_app.
  repeat case_match; cbn; by rewrite ?Hcolor, ?Hwidth, ?Hdash.
Qed.

Lemma path_moved_all (P : Call -> bool) vertices actualStyle :
  (forall x y, P (MoveTo x y) = true) ->
  forallb P (path_moved vertices actualStyle) = true.
Proof.
  intros Hmove. unfold path_moved. cbv zeta.
  destruct (slice _ _ _); [done |]. cbn. by rewrite Hmove.
Qed.

(** X8: [line], [cross] and [path] in closed form: the calls each makes,
    in order, and how it ends.  Each saves; assigns [strokeStyle],
    [lineWidth] and the dash pattern, each unless the resolved member is
    [null]; begins a path unless batched; builds its shape; strokes if the
    flag is set and the style is not batched; and restores.  The shapes:
    [line], a move-to [start] and a line-to [end]; [cross], the two
    segments of the resolved cross style, with arms of half the size, or
    nothing when that is neither ['+'] nor ['x']; [path] (two or more
    vertices), the curve of the resolved path type.  [line] and [cross]
    always run to their end.  [path] does unless it is in bezier mode
    with a clamped order that is not 1, 2 or 3 and vertices enough for a
    first window: then it throws after the move-to of that window, with
    no line drawn, nothing stroked and the saved state not restored. *)
Theorem stroke_emitters_closed_form (style : option StyleOptions.t) :
  let actualStyle := getStyle style in
  (forall start end_,
     line start end_ style =
       (Save :: stroke_attributes actualStyle ++ begin_calls actualStyle
        ++ [MoveTo (vec2.x start) (vec2.y start);
            LineTo (vec2.x end_) (vec2.y end_)]
        ++ stroke_calls actualStyle ++ [Restore],
        Continue tt)) /\
  (forall position size,
     cross position size style =
       (Save :: stroke_attributes actualStyle ++ begin_calls actualStyle
        ++ cross_segments position size actualStyle
        ++ stroke_calls actualStyle ++ [Restore],
        Continue tt)) /\
  (forall vertices,
     (2 <= length vertices)%nat ->
     path vertices style =
       if path_completes vertices actualStyle
       then (Save :: stroke_attributes actualStyle ++ begin_calls actualStyle
             ++ path_curve vertices actualStyle
             ++ stroke_calls actualStyle ++ [Restore],
             Continue tt)
       else (Save :: stroke_attributes actualStyle ++ begin_calls actualStyle
             ++ path_moved vertices actualStyle,
             Thrown)).
Proof.
  cbv zeta. repeat split; intros.
  - apply line_exact.
  - apply cross_exact.
  - by apply path_value.
Qed.

(** X9: [circle], [rectangle] and [polygon] in closed form.  Each saves;
    assigns [fillStyle] the prepared fill colour unless it is [null], then
    the gradient when there is one, after the call that builds it; assigns
    [strokeStyle], [lineWidth] and the dash pattern, each unless the
    resolved member is [null]; begins a path unless batched; builds its
    shape; fills, then strokes, as the flags ask and unless batched; and
    restores.  The shapes: [circle], one arc from 0 to twice [Math.PI];
    [rectangle], one [rect], or when [rounded] is set one [roundRect]
    whose radius is 1 when none is given; [polygon] (three or more
    vertices), a move-to the first vertex, a line-to each of the others in
    order, and [closePath()]. *)
Theorem fill_emitters_closed_form (style : option StyleOptions.t) :
  let actualStyle := getStyle style in
  (forall center radius,
     circle center radius style =
       (Save :: fill_attributes actualStyle ++ stroke_attributes actualStyle
        ++ begin_calls actualStyle
        ++ [Arc (vec2.x center) (vec2.y center) radius 0 (Math_PI * 2)]
        ++ fill_calls actualStyle ++ stroke_calls actualStyle ++ [Restore],
        Continue tt)) /\
  (forall position size,
     rectangle position size style =
       (Save :: fill_attributes actualStyle ++ stroke_attributes actualStyle
        ++ begin_calls actualStyle
        ++ [rectangle_outline position size actualStyle]
        ++ fill_calls actualStyle ++ stroke_calls actualStyle ++ [Restore],
        Continue tt)) /\
  (forall vertices,
     (3 <= length vertices)%nat ->
     polygon vertices style =
       (Save :: fill_attributes actualStyle ++ stroke_attributes actualStyle
        ++ begin_calls actualStyle
        ++ linear_curve vertices ++ [ClosePath]
        ++ fill_calls actualStyle ++ stroke_calls actualStyle ++ [Restore],
        Continue tt)).
Proof.
  cbv zeta. repeat split; intros.
  - apply circle_exact.
  - apply rectangle_exact.
  - by apply polygon_exact.
Qed.

Lemma resolved_arrow s v :
  StyleOptions.arrow s = Some v ->
  read (StyleOptions.arrow (getStyle (Some s))) = v.
Proof. destruct s; cbn. by intros ->. Qed.

Lemma omitted_arrow style :
  (forall s, style = Some s -> StyleOptions.arrow s = None) ->
  read (StyleOptions.arrow (getStyle style)) =
    val {| arrow_type := Some (val Caret); arrow_size := Some (val 5%float) |}.
Proof.
  destruct style as [[]|]; [|done]. intros H.
  specialize (H _ eq_refl). cbn in H. by subst.
Qed.

(** C10: when the style gives an arrow object without a size (absent, or
    [undefined] or [null]), [arrow] draws the arrowhead of the given type
    (a caret when none is given) with size 10; when the object has a size,
    with that size; when the style has no [arrow] member at all it draws a
    caret of size 5; and when the member is given as [null] or [undefined]
    it draws no arrowhead.  With no style at all the caret runs from
    (0, -2.5) over (5, 0) to (0, 2.5); with only the type chevron given,
    the chevron runs from (-5, -5) over (0, 0) to (-5, 5). *)
Theorem arrow_size_default (start end_ : vec2.t) :
  let shaft :=
    [BeginPath; MoveTo (vec2.x start) (vec2.y start);
     LineTo (vec2.x end_) (vec2.y end_); Stroke] in
  let angle := vec2_rad (vec2.sub end_ start) in
  (forall s a,
     StyleOptions.arrow s = Some (val a) ->
     present (read (arrow_size a)) = false ->
     arrow start end_ (Some s) =
       (Save :: stroke_attributes (getStyle (Some s)) ++ shaft
        ++ sized_arrowhead (nullish (read (arrow_type a)) Caret) 10 end_ angle
             (getStyle (Some s))
        ++ [Restore],
        Continue tt)) /\
  (forall s a size,
     StyleOptions.arrow s = Some (val a) ->
     read (arrow_size a) = val size ->
     arrow start end_ (Some s) =
       (Save :: stroke_attributes (getStyle (Some s)) ++ shaft
        ++ sized_arrowhead (nullish (read (arrow_type a)) Caret) size end_
             angle (getStyle (Some s))
        ++ [Restore],
        Continue tt)) /\
  (forall style,
     (forall s, style = Some s -> StyleOptions.arrow s = None) ->
     arrow start end_ style =
       (Save :: stroke_attributes (getStyle style) ++ shaft
        ++ sized_arrowhead Caret 5 end_ angle (getStyle style)
        ++ [Restore],
        Continue tt)) /\
  (forall s v,
     StyleOptions.arrow s = Some v ->
     present v = false ->
     arrow start end_ (Some s) =
       (Save :: stroke_attributes (getStyle (Some s)) ++ shaft ++ [Restore],
        Continue tt)) /\
  arrow start end_ None =
    ([Save; SetLineWidth (val 1%float); SetLineDash []]
     ++ shaft
     ++ [Save; Translate (vec2.x end_) (vec2.y end_); Rotate angle;
         BeginPath; MoveTo 0 (-2.5); LineTo 5 0; LineTo 0 2.5; ClosePath;
         Fill; Restore; Restore],
     Continue tt) /\
  arrow start end_
    (Some (with_arrow StyleOptions.empty
             (val {| arrow_type := Some (val Chevron);
                     arrow_size := None |}))) =
    ([Save; SetLineWidth (val 1%float); SetLineDash []]
     ++ shaft
     ++ [Save; Translate (vec2.x end_) (vec2.y end_); Rotate angle;
         BeginPath; MoveTo (-5) (-5); LineTo 0 0; LineTo (-5) 5; Stroke;
         Restore; Restore],
     Continue tt).
Proof.
  intros shaft angle. subst shaft angle.
  split; [|split; [|split; [|split; [|split; reflexivity]]]].
  - intros s a Harrow%resolved_arrow Hsize. rewrite arrow_exact.
    unfold arrowhead_calls, arrowhead_of, sized_arrowhead. rewrite Harrow.
    by destruct a as [type [[| |size]|]].
  - intros s a size Harrow%resolved_arrow Hsize. rewrite arrow_exact.
    unfold arrowhead_calls, arrowhead_of, sized_arrowhead.
    by rewrite Harrow, Hsize.
  - intros style Harrow%omitted_arrow. rewrite arrow_exact.
    unfold arrowhead_calls, arrowhead_of, sized_arrowhead.
    by rewrite Harrow.
  - intros s v Harrow%resolved_arrow Hv. rewrite arrow_exact.
    unfold arrowhead_calls, arrowhead_of. rewrite Harrow.
    by destruct v.
Qed.

(** X10: [arrow] in closed form.  It saves; assigns [strokeStyle],
    [lineWidth] and the dash pattern, each unless the resolved member is
    [null]; begins a path, whatever the [batch] flag; draws the shaft from
    [start] to [end] and strokes it, whatever the [stroke] flag.  Then,
    when the resolved style has an arrow, it saves, translates to [end],
    rotates by the angle of [end - start], draws the arrowhead with the
    size after defaulting (a caret: [fillStyle] set to the prepared stroke
    colour unless [null], then a closed triangle, filled; a chevron: an
    open V, stroked; a function: the calls of the function), and restores.
    Last it restores; it runs to its end. *)
Theorem arrow_closed_form (start end_ : vec2.t)
    (style : option StyleOptions.t) :
  arrow start end_ style =
    (Save :: stroke_attributes (getStyle style)
     ++ [BeginPath; MoveTo (vec2.x start) (vec2.y start);
         LineTo (vec2.x end_) (vec2.y end_); Stroke]
     ++ arrowhead_calls end_ (vec2_rad (vec2.sub end_ start)) (getStyle style)
     ++ [Restore],
     Continue tt).
Proof.
  unfold arrow, arrowhead_calls, arrowhead_of.
  resolve_style style actualStyle Hdash. blocks Hdash.
  destruct (read (StyleOptions.arrow actualStyle)) as [| |actualArrow];
    [unfold call, ret; values; lists .. |].
  destruct (nullish (read (arrow_type actualArrow)) Caret);
    unfold call, calls_of, ret; values; lists.
Qed.

(** ** Too few vertices *)

(** X1: [polygon] with fewer than three vertices and [path] with fewer
    than two return before any call on the context; with enough vertices
    the first call is [save()]. *)
Theorem polygon_path_short_input (vertices : list vec2.t)
    (style : option StyleOptions.t) :
  ((length vertices < 3)%nat -> polygon vertices style = ([], Returned)) /\
  ((3 <= length vertices)%nat ->
   exists rest, (polygon vertices style).1 = Save :: rest) /\
  ((length vertices < 2)%nat -> path vertices style = ([], Returned)) /\
  ((2 <= length vertices)%nat ->
   exists rest, (path vertices style).1 = Save :: rest).
Proof.
  unfold polygon, path. repeat split; intros Hlen.
  - by destruct (Nat.ltb_spec (length vertices) 3); [|lia].
  - destruct (Nat.ltb_spec (length vertices) 3); [lia |].
    rewrite when_false. unfold ret, call. rewrite !bind_value. cbn [fst app].
    eauto.
  - by destruct (Nat.ltb_spec (length vertices) 2); [|lia].
  - destruct (Nat.ltb_spec (length vertices) 2); [lia |].
    rewrite when_false. unfold ret, call. rewrite !bind_value. cbn [fst app].
    eauto.
Qed.

(** ** Batching *)

Lemma exec_shaping ctx c :
  shaping c = true ->
  Canvas.saved (Canvas.exec ctx c) = Canvas.saved ctx /\
  Canvas.painted (Canvas.exec ctx c) = Canvas.painted ctx /\
  Canvas.transform (Canvas.current (Canvas.exec ctx c)) =
    Canvas.transform (Canvas.current ctx) /\
  Canvas.currentPath (Canvas.exec ctx c) =
    Canvas.currentPath ctx
    ++ (if geometry c then [(c, Canvas.transform (Canvas.current ctx))]
        else []).
Proof.
  destruct c; try done; cbn; intros _; rewrite ?app_nil_r; try done.
  - destruct v as [| |w]; [done .. |]. by destruct (Canvas.valid_width w).
  - by destruct (forallb Canvas.valid_dash segments).
Qed.

Lemma run_shaping middle :
  forallb shaping middle = true ->
  forall ctx,
    Canvas.saved (Canvas.run middle ctx) = Canvas.saved ctx /\
    Canvas.painted (Canvas.run middle ctx) = Canvas.painted ctx /\
    Canvas.currentPath (Canvas.run middle ctx) =
      Canvas.currentPath ctx
      ++ recorded (Canvas.transform (Canvas.current ctx)) middle.
Proof.
  unfold recorded.
  induction middle as [|c middle IH]; intros H ctx.
  { cbn. by rewrite app_nil_r. }
  cbn in H. apply andb_true_iff in H as [Hc H].
  destruct (IH H (Canvas.exec ctx c)) as (Hsaved & Hpainted & Hpath).
  destruct (exec_shaping ctx c Hc) as (Hs & Hp & Ht & Hc').
  change (Canvas.run (c :: middle) ctx)
    with (Canvas.run middle (Canvas.exec ctx c)).
  rewrite Hsaved, Hpainted, Hpath, Hs, Hp, Ht, Hc'. cbn [List.filter].
  destruct (geometry c); cbn; by rewrite <- ?(assoc_L (++)), ?app_nil_r.
Qed.

Lemma exec_restore ctx :
  Canvas.painted (Canvas.exec ctx Restore) = Canvas.painted ctx /\
  Canvas.currentPath (Canvas.exec ctx Restore) = Canvas.currentPath ctx.
Proof. cbn. by destruct (Canvas.saved ctx). Qed.

(** Between a [save()] and a [restore()], calls that only shape and
    style paint nothing and add their path-building calls to the path. *)
Lemma run_batched middle ctx :
  forallb shaping middle = true ->
  Canvas.painted (Canvas.run (Save :: middle ++ [Restore]) ctx) =
    Canvas.painted ctx /\
  Canvas.currentPath (Canvas.run (Save :: middle ++ [Restore]) ctx) =
    Canvas.currentPath ctx
    ++ recorded (Canvas.transform (Canvas.current ctx))
         (Save :: middle ++ [Restore]).
Proof.
  intros H.
  pose proof (run_shaping middle H (Canvas.exec ctx Save))
    as (_ & Hpainted & Hpath).
  assert (Hrun : Canvas.run (Save :: middle ++ [Restore]) ctx =
                 Canvas.exec (Canvas.run middle (Canvas.exec ctx Save)) Restore).
  { unfold Canvas.run. cbn [fold_left]. by rewrite fold_left_app. }
  rewrite Hrun.
  destruct (exec_restore (Canvas.run middle (Canvas.exec ctx Save)))
    as [-> ->].
  rewrite Hpainted, Hpath. unfold recorded. cbn [List.filter geometry].
  rewrite List.filter_app. cbn [List.filter geometry]. by rewrite app_nil_r.
Qed.

(** After a [save()], calls that only shape and style paint nothing and
    add their path-building calls to the path, whether or not a
    [restore()] follows them. *)
Lemma run_batched_open middle ctx :
  forallb shaping middle = true ->
  Canvas.painted (Canvas.run (Save :: middle) ctx) = Canvas.painted ctx /\
  Canvas.currentPath (Canvas.run (Save :: middle) ctx) =
    Canvas.currentPath ctx
    ++ recorded (Canvas.transform (Canvas.current ctx)) (Save :: middle).
Proof.
  intros H.
  by pose proof (run_shaping middle H (Canvas.exec ctx Save))
    as (_ & Hpainted & Hpath).
Qed.

Lemma shape_of_save (k : unit -> Emit unit) :
  ends_with shaping [Restore] (k tt) ->
  exists middle,
    forallb shaping middle = true /\
    (bind (call Save) k).1 = Save :: middle ++ [Restore].
Proof.
  intros (middle & Hmiddle & Hcalls & _). exists middle. split; [done |].
  unfold call. by rewrite bind_value, Hcalls.
Qed.

Ltac batched Hbatch :=
  apply shape_of_save; cbv beta; resolved;
  rewrite Hbatch; cbn [negb]; rewrite ?andb_false_r;
  peel; try apply ends_with_here.

Lemma batched_shape (e : EmitterCall) :
  batchable e = true -> draws e = true -> completes e = true ->
  truthy (read (batch (getStyle (style_of e)))) = true ->
  exists middle,
    forallb shaping middle = true /\ (emit e).1 = Save :: middle ++ [Restore].
Proof.
  destruct e; cbn [batchable draws completes style_of emit];
    intros He Hlen Hcompletes Hbatch; try discriminate He.
  - unfold line. batched Hbatch.
  - unfold cross. batched Hbatch.
  - unfold circle. batched Hbatch.
  - unfold rectangle. batched Hbatch.
  - apply Nat.leb_le in Hlen. unfold polygon.
    destruct (Nat.ltb_spec (length vertices) 3); [lia |].
    rewrite when_false. unfold ret at 1. rewrite bind_value. cbn [fst app].
    batched Hbatch.
  - apply Nat.leb_le in Hlen. rewrite path_exact by done. cbn [fst].
    unfold begin_calls, stroke_calls. rewrite Hbatch, andb_false_r.
    exists (stroke_attributes (getStyle style)
            ++ path_curve vertices (getStyle style)).
    split; [|cbn [app]; by rewrite <- !app_assoc].
    rewrite forallb_app, (path_curve_all shaping) by done.
    rewrite andb_true_r. by apply stroke_attributes_all.
Qed.

(** X2: with the [batch] flag set, [line], [cross], [circle], [rectangle],
    [polygon] and [path] issue no [beginPath()], [fill()] or [stroke()];
    on the context they paint nothing, and the path under construction
    keeps what it held and gains the emitter's path-building calls, each
    recorded under the transform in force at the call of the emitter. *)
Theorem batched_emitters_extend_path (e : EmitterCall) (ctx : Canvas.t) :
  batchable e = true ->
  truthy (read (batch (getStyle (style_of e)))) = true ->
  forallb accumulating (emit e).1 = true /\
  Canvas.painted (Canvas.run (emit e).1 ctx) = Canvas.painted ctx /\
  Canvas.currentPath (Canvas.run (emit e).1 ctx) =
    Canvas.currentPath ctx
    ++ recorded (Canvas.transform (Canvas.current ctx)) (emit e).1.
Proof.
  intros He Hbatch. destruct (draws e) eqn:Hdraws.
  - assert (Hshape : exists middle tail,
              forallb shaping middle = true /\
              (tail = [Restore] \/ tail = []) /\
              (emit e).1 = Save :: middle ++ tail).
    { destruct (completes e) eqn:Hcompletes.
      - destruct (batched_shape e He Hdraws Hcompletes Hbatch)
          as (middle & Hmiddle & Hcalls). eauto 6.
      - destruct e; try discriminate Hcompletes.
        cbn [draws completes style_of emit] in *. apply Nat.leb_le in Hdraws.
        rewrite path_thrown by done. cbn [fst].
        unfold begin_calls. rewrite Hbatch.
        exists (stroke_attributes (getStyle style)
                ++ path_moved vertices (getStyle style)), [].
        split; [|split; [by right | cbn [app]; by rewrite app_nil_r]].
        rewrite forallb_app, (path_moved_all shaping) by done.
        rewrite andb_true_r. by apply stroke_attributes_all. }
    destruct Hshape as (middle & tail & Hmiddle & Htail & ->).
    split.
    { cbn [forallb accumulating]. rewrite forallb_app.
      assert (Haccumulating : forallb accumulating middle = true).
      { rewrite forallb_forall in *.
        intros c Hc. specialize (Hmiddle c Hc). by destruct c. }
      rewrite Haccumulating. by destruct Htail as [-> | ->]. }
    destruct Htail as [-> | ->]; [by apply run_batched |].
    rewrite app_nil_r. by apply run_batched_open.
  - assert (Hnone : (emit e).1 = []).
    { destruct e; try discriminate Hdraws; cbn [draws emit] in *;
        apply Nat.leb_gt in Hdraws.
      - unfold polygon. by destruct (Nat.ltb_spec (length vertices) 3); [|lia].
      - by rewrite path_short. }
    rewrite Hnone. cbn. by rewrite app_nil_r.
Qed.

(** ** Starting a path afresh *)

Lemma exec_pathless ctx p c :
  pathless c = true ->
  Canvas.exec (with_currentPath ctx p) c =
    with_currentPath (Canvas.exec ctx c) p.
Proof.
  destruct c; try done; cbn; intros _.
  - by destruct (Canvas.saved ctx).
  - destruct v as [| |w]; [done .. |]. by destruct (Canvas.valid_width w).
  - by destruct (forallb Canvas.valid_dash segments).
Qed.

(** Once [beginPath()] is called, what the path held before is gone. *)
Lemma run_fresh_path prefix rest :
  forallb pathless prefix = true ->
  forall ctx p,
    Canvas.run (prefix ++ BeginPath :: rest) (with_currentPath ctx p) =
      Canvas.run (prefix ++ BeginPath :: rest) ctx.
Proof.
  induction prefix as [|c prefix IH]; intros H ctx p; [done |].
  cbn in H. apply andb_true_iff in H as [Hc H].
  change (Canvas.run ((c :: prefix) ++ BeginPath :: rest) ?x)
    with (Canvas.run (prefix ++ BeginPath :: rest) (Canvas.exec x c)).
  rewrite exec_pathless by done. by apply IH.
Qed.

Ltac fresh_path :=
  resolved;
  repeat (apply reaches_bind; [solve [repeat only_step] | intros _]);
  rewrite ?when_true; apply reaches_here.

Lemma unbatched_reaches_beginPath (e : EmitterCall) :
  draws e = true ->
  (batchable e = true ->
   truthy (read (batch (getStyle (style_of e)))) = false) ->
  reaches pathless BeginPath (emit e).
Proof.
  destruct e; cbn [batchable draws style_of emit]; intros Hlen Hbatch;
    try specialize (Hbatch eq_refl).
  - unfold line. rewrite Hbatch. fresh_path.
  - unfold cross. rewrite Hbatch. fresh_path.
  - unfold arrow. fresh_path.
  - unfold circle. rewrite Hbatch. fresh_path.
  - unfold rectangle. rewrite Hbatch. fresh_path.
  - apply Nat.leb_le in Hlen. unfold polygon.
    destruct (Nat.ltb_spec (length vertices) 3); [lia |].
    apply reaches_bind; [apply only_ret | intros _].
    rewrite Hbatch. fresh_path.
  - apply Nat.leb_le in Hlen. unfold path.
    destruct (Nat.ltb_spec (length vertices) 2); [lia |].
    apply reaches_bind; [apply only_ret | intros _].
    rewrite Hbatch. fresh_path.
Qed.

(** X3: an emitter that is not batched, and [arrow] always, calls
    [beginPath()] before any call that builds a path or paints: whatever
    path the caller had under construction is discarded, and the context
    the emitter leaves does not depend on it.  [polygon] and [path] do so
    when they have enough vertices to draw. *)
Theorem unbatched_emitters_discard_path (e : EmitterCall) (ctx : Canvas.t)
    (p : list (Call * list Canvas.TransformStep)) :
  draws e = true ->
  (batchable e = true ->
   truthy (read (batch (getStyle (style_of e)))) = false) ->
  reaches pathless BeginPath (emit e) /\
  Canvas.run (emit e).1 (with_currentPath ctx p) = Canvas.run (emit e).1 ctx.
Proof.
  intros Hdraws Hbatch.
  pose proof (unbatched_reaches_beginPath e Hdraws Hbatch) as Hreaches.
  split; [done |].
  destruct Hreaches as (prefix & rest & Hprefix & ->).
  by apply run_fresh_path.
Qed.

(** ** The calls of the stroke-only emitters *)

Ltac stroke_only := resolved; repeat only_step.

(** X4: [line], [cross] and [path] call nothing but [save()],
    [restore()], [beginPath()], [moveTo()], [lineTo()], [stroke()] and the
    assignments of [strokeStyle], [lineWidth] and the dash pattern: they
    never close the path, never fill, never assign [fillStyle] or build a
    gradient, whatever [fill], [fillColor] and [gradient] the style
    holds. *)
Theorem stroke_emitters_footprint (style : option StyleOptions.t) :
  (forall start end_, forallb stroking (line start end_ style).1 = true) /\
  (forall position size,
     forallb stroking (cross position size style).1 = true) /\
  (forall vertices, forallb stroking (path vertices style).1 = true).
Proof.
  repeat split; intros.
  - apply only_calls. unfold line. stroke_only.
  - apply only_calls. unfold cross. stroke_only.
  - destruct (Nat.ltb_spec (length vertices) 2) as [|Hlen];
      [by rewrite path_short |].
    rewrite path_value by done.
    assert (Hattributes :
      forallb stroking (stroke_attributes (getStyle style)) = true)
      by by apply stroke_attributes_all.
    unfold begin_calls, stroke_calls.
    destruct (path_completes vertices (getStyle style)); cbn [fst forallb];
      rewrite !forallb_app, Hattributes,
        ?(path_curve_all stroking), ?(path_moved_all stroking) by done;
      by repeat case_match.
Qed.

(** ** The bezier tables *)

Lemma bezier_weights (order : Z) (t : float) :
  order = 1%Z \/ order = 2%Z \/ order = 3%Z ->
  exists matrix coefficients q,
    BEZIER_MATRICES order = Some matrix /\
    BEZIER_COEFFICIENTS t order = Some coefficients /\
    mat.n matrix = length coefficients /\
    mat.mulv matrix coefficients = Some q /\
    length q = Z.to_nat (order + 1).
Proof.
  intros [-> | [-> | ->]]; do 3 eexists; repeat split; reflexivity.
Qed.

(** X5: whenever the clamped order has an entry in the tables, the basis
    matrix and the coefficient vector it selects agree in size, so
    [mat.mulv] never returns [false], at any parameter: the abort inside
    the bezier loop is never taken, and [path] never ends by that
    [return].  With two or more vertices it either runs to its end, its
    last call being [restore()], or throws; it throws exactly when it is
    in bezier mode with a clamped order that has no table entry and the
    vertices are enough for a first window, and then it makes no
    [restore()] call at all. *)
Theorem path_never_aborts (vertices : list vec2.t)
    (style : option StyleOptions.t) :
  (forall (bezierOrder : float) (order : Z) (t : float),
     table_key (clamp bezierOrder 1 3) = Some order ->
     exists matrix coefficients q,
       BEZIER_MATRICES order = Some matrix /\
       BEZIER_COEFFICIENTS t order = Some coefficients /\
       mat.n matrix = length coefficients /\
       mat.mulv matrix coefficients = Some q /\
       length q = Z.to_nat (order + 1)) /\
  ((2 <= length vertices)%nat ->
   (path vertices style).2 <> Returned /\
   (path_completes vertices (getStyle style) = true ->
    (path vertices style).2 = Continue tt /\
    last (path vertices style).1 = Some Restore) /\
   (path_completes vertices (getStyle style) = false ->
    (path vertices style).2 = Thrown /\
    Restore ∉ (path vertices style).1)).
Proof.
  split; [intros; by eapply bezier_weights, table_key_cases |].
  intros Hlen. rewrite path_value by done.
  destruct (path_completes vertices (getStyle style)); cbn [fst snd].
  - split; [done |]. split; [|done]. intros _. split; [done |].
    by rewrite !app_comm_cons, !(assoc_L (++)), last_snoc.
  - split; [done |]. split; [done |]. intros _. split; [done |].
    assert (Hplain : forallb plain
              (stroke_attributes (getStyle style)
               ++ begin_calls (getStyle style)
               ++ path_moved vertices (getStyle style)) = true).
    { rewrite !forallb_app, (path_moved_all plain) by done.
      rewrite (stroke_attributes_all plain) by done.
      unfold begin_calls. by case_match. }
    rewrite forallb_forall in Hplain.
    intros [[=] | Hin%list_elem_of_In%Hplain]%elem_of_cons. done.
Qed.

(** ** An order without a table entry *)

Lemma run_plain_saved calls :
  forallb plain calls = true ->
  forall ctx, Canvas.saved (Canvas.run calls ctx) = Canvas.saved ctx.
Proof.
  induction calls as [|c calls IH]; intros H ctx; [done |].
  cbn in H. apply andb_true_iff in H as [Hc H].
  change (Canvas.run (c :: calls) ctx)
    with (Canvas.run calls (Canvas.exec ctx c)).
  rewrite IH by done. by apply saved_exec_plain.
Qed.

(** X22: when [path] does not reach its end (two or more vertices, bezier
    mode, a clamped order without a table entry, such as 2.5, and a first
    window that fits), it has saved, assigned the attributes, begun a path
    unless batched and moved to the first point of the window; then it
    throws.  The state it saved is left on the context's stack, on top of
    what the stack held. *)
Theorem path_unlisted_order_throws (vertices : list vec2.t)
    (style : option StyleOptions.t) (ctx : Canvas.t) :
  (2 <= length vertices)%nat ->
  path_completes vertices (getStyle style) = false ->
  nullish (member style pathType) Linear = Bezier /\
  table_key (clamp (nullish (member style bezierOrder) 3%float) 1 3) = None /\
  path vertices style =
    (Save :: stroke_attributes (getStyle style)
     ++ begin_calls (getStyle style)
     ++ path_moved vertices (getStyle style),
     Thrown) /\
  Canvas.saved (Canvas.run (path vertices style).1 ctx) =
    Canvas.current ctx :: Canvas.saved ctx.
Proof.
  intros Hlen Hcompletes.
  rewrite <- resolved_pathType, <- resolved_bezierOrder.
  split; [|split].
  - unfold path_completes in Hcompletes.
    by destruct (nullish (read (pathType (getStyle style))) Linear).
  - unfold path_completes in Hcompletes.
    destruct (nullish (read (pathType (getStyle style))) Linear); try done.
    by destruct (table_key _).
  - rewrite path_thrown by done. split; [done |]. cbn [fst].
    change (Canvas.run (Save :: ?calls) ctx)
      with (Canvas.run calls (Canvas.exec ctx Save)).
    rewrite run_plain_saved; [done |].
    rewrite !forallb_app, (path_moved_all plain) by done.
    rewrite (stroke_attributes_all plain) by done.
    unfold begin_calls. by case_match.
Qed.

(** ** Colours of the declared type *)

(** X11: on a colour member of the declared type [prepareColor] returns a
    string unchanged, and renders a colour object as "rgba(r, g, b, a)"
    with [a] taken as 1 when the object has no [a]; an object whose [a] is
    present but [undefined] or [null] does not pass the type guard and is
    rendered "black", as is a member that holds [undefined]; only [null]
    throws. *)
Theorem prepareColor_declared (color : js ColorValue) :
  prepareColor (color_value color) =
    match color with
    | null => TypeError
    | undefined => Ok "black"
    | val (CssString s) => Ok s
    | val (ColorObject c) =>
        let rgba (alpha : float) :=
          "rgba(" +:+ NumberToString (Color.r c) +:+ ", "
          +:+ NumberToString (Color.g c) +:+ ", "
          +:+ NumberToString (Color.b c) +:+ ", "
          +:+ NumberToString alpha +:+ ")" in
        match Color.a c with
        | None => Ok (rgba 1%float)
        | Some (val alpha) => Ok (rgba alpha)
        | Some _ => Ok "black"
        end
    end.
Proof.
  destruct color as [| |[s|[r g b [[| |alpha]|]]]]; reflexivity.
Qed.

(** ** Members that are [null] *)

Ltac unset H H' :=
  rewrite ?H, ?H'; cbn [not_null present andb]; repeat only_guarded.

(** The calls of an emitter satisfy [P] when those it makes with the
    guards rewritten by [H] and [H'] do. *)
Ltac calls_unset H H' :=
  match goal with
  | |- forallb _ (line _ _ _).1 = true =>
      apply only_calls; unfold line; resolved; unset H H'
  | |- forallb _ (cross _ _ _).1 = true =>
      apply only_calls; unfold cross; resolved; unset H H'
  | |- forallb _ (circle _ _ _).1 = true =>
      apply only_calls; unfold circle; resolved; unset H H'
  | |- forallb _ (rectangle _ _ _).1 = true =>
      apply only_calls; unfold rectangle; resolved; unset H H'
  | |- forallb _ (polygon ?vertices _).1 = true =>
      unfold polygon;
      destruct (Nat.ltb_spec (length vertices) 3); [done |];
      apply only_calls; apply only_bind; [apply only_ret | intros _ _];
      resolved; unset H H'
  | |- forallb ?P (path ?vertices ?style).1 = true =>
      let Hlen := fresh "Hlen" in
      destruct (Nat.ltb_spec (length vertices) 2) as [|Hlen];
      [by rewrite path_short |];
      rewrite path_value by done;
      destruct (path_completes vertices (getStyle style)); cbn [fst forallb];
      rewrite !forallb_app, ?(path_curve_all P), ?(path_moved_all P) by done;
      unfold stroke_attributes, begin_calls, stroke_calls;
      rewrite ?H, ?H'; cbn [not_null present andb];
      by repeat case_match
  end.

(** X12: a resolved member that is [null] leaves the context's attribute
    alone: with [strokeColor] [null] no emitter assigns [strokeStyle], with
    [lineWidth] [null] none assigns [lineWidth], with [lineDash] [null]
    none sets the dash pattern; and with [fillColor] [null] and no
    gradient, none of the emitters other than [arrow] assigns [fillStyle].
    For [arrow] this is about its two built-in arrowheads. *)
Theorem null_members_keep_attributes (e : EmitterCall) :
  builtin_arrowhead e ->
  let actualStyle := getStyle (style_of e) in
  (read (strokeColor actualStyle) = null ->
   forallb keeps_strokeStyle (emit e).1 = true) /\
  (read (lineWidth actualStyle) = null ->
   forallb keeps_lineWidth (emit e).1 = true) /\
  (read (lineDash actualStyle) = null ->
   forallb keeps_lineDash (emit e).1 = true) /\
  (batchable e = true ->
   read (fillColor actualStyle) = null ->
   present (read (gradient actualStyle)) = false ->
   forallb keeps_fillStyle (emit e).1 = true).
Proof.
  intros Hhead actualStyle. subst actualStyle.
  destruct e; cbn [builtin_arrowhead style_of emit batchable] in *;
    try (repeat split;
         [intros H; calls_unset H H .. | intros _ H H'; calls_unset H H']).
  (* arrow *)
  repeat split; try discriminate; intros H; apply only_calls;
    unfold arrow, custom_arrowhead in *;
    pose proof (getStyle_lineDash_defined style) as Hdash;
    cbv zeta; set (actualStyle := getStyle style) in *;
    rewrite ?H; cbn [not_null];
    (destruct (read (StyleOptions.arrow actualStyle)) as [| |actualArrow];
     [clearbody actualStyle; repeat only_guarded .. |]);
    (destruct (nullish (read (arrow_type actualArrow)) Caret) as [| |draw];
     [clearbody actualStyle; repeat only_guarded ..
     | discriminate Hhead]).
Qed.

(** ** What [arrow] reads *)

(** X13: [arrow] reads of its style only the resolved stroke colour, line
    width and dash pattern, and of the resolved arrow the type and the
    size after defaulting: two styles that agree on these give the same
    calls and the same outcome, whatever they hold for [batch], [fill],
    [stroke], [fillColor], [gradient] and the rest. *)
Theorem arrow_reads_stroke_members (start end_ : vec2.t)
    (style style' : option StyleOptions.t) :
  strokeColor (getStyle style) = strokeColor (getStyle style') ->
  lineWidth (getStyle style) = lineWidth (getStyle style') ->
  lineDash (getStyle style) = lineDash (getStyle style') ->
  arrowhead_of (getStyle style) = arrowhead_of (getStyle style') ->
  arrow start end_ style = arrow start end_ style'.
Proof.
  intros Hcolor Hwidth Hdash Hhead. rewrite !arrow_exact.
  unfold stroke_attributes, arrowhead_calls.
  by rewrite Hcolor, Hwidth, Hdash, Hhead.
Qed.

(** ** A stroke flag that is given *)

Lemma resolved_stroke s v :
  stroke s = Some v -> read (stroke (getStyle (Some s))) = v.
Proof. destruct s; cbn. by intros ->. Qed.

(** X14: a [stroke] member that the caller supplies wins over the default
    [true], also when what is supplied is [undefined] or [null]: if it is
    not truthy, [line], [cross], [circle], [rectangle], [polygon] and
    [path] make no [stroke()] call. *)
Theorem supplied_stroke_suppresses (e : EmitterCall) (s : StyleOptions.t)
    (v : js bool) :
  batchable e = true ->
  style_of e = Some s ->
  stroke s = Some v ->
  truthy v = false ->
  forallb strokeless (emit e).1 = true.
Proof.
  intros He Hstyle Hstroke%resolved_stroke Hv. rewrite <- Hstroke in Hv.
  clear Hstroke.
  destruct e; cbn [batchable style_of emit] in *; try discriminate He;
    subst style; calls_unset Hv Hv.
Qed.

(** ** How many segments [path] draws *)

Lemma line_tos_app calls calls' :
  line_tos (calls ++ calls') = (line_tos calls + line_tos calls')%nat.
Proof. unfold line_tos. by rewrite List.filter_app, length_app. Qed.

Lemma line_tos_setup calls : forallb setup calls = true -> line_tos calls = 0%nat.
Proof.
  unfold line_tos. induction calls as [|c calls IH]; [done |].
  cbn. intros [Hc H]%andb_true_iff. destruct c; try done; by apply IH.
Qed.

Lemma line_tos_map {A} (fx fy : A -> float) (l : list A) :
  line_tos (map (fun v => LineTo (fx v) (fy v)) l) = length l.
Proof. unfold line_tos. induction l; cbn; [done | by f_equal]. Qed.

Lemma line_tos_flat_map {A} (f : A -> list Call) (l : list A) (k : nat) :
  (forall v, line_tos (f v) = k) -> line_tos (flat_map f l) = (k * length l)%nat.
Proof.
  intros H. induction l as [|v l IH]; [cbn; lia |].
  cbn [flat_map length]. rewrite line_tos_app, H, IH. lia.
Qed.

Lemma line_tos_other c calls :
  is_lineTo c = false -> line_tos (c :: calls) = line_tos calls.
Proof. unfold line_tos. cbn. by intros ->. Qed.

Lemma line_tos_linear_curve vertices :
  line_tos (linear_curve vertices) = (length vertices - 1)%nat.
Proof.
  destruct vertices as [|v0 rest]; [done |].
  unfold linear_curve. rewrite line_tos_other, line_tos_map by done. cbn. lia.
Qed.

Lemma line_tos_path_curve vertices actualStyle :
  line_tos (path_curve vertices actualStyle) =
    match nullish (read (pathType actualStyle)) Linear with
    | Linear => (length vertices - 1)%nat
    | Bezier =>
        match table_key
                (clamp (nullish (read (bezierOrder actualStyle)) 3%float) 1 3)
        with
        | Some order => (100 * ((length vertices - 1) / Z.to_nat order))%nat
        | None => 0%nat
        end
    | CatmullRom =>
        if (4 <=? length vertices)%nat
        then (100 * (length vertices - 3))%nat
        else (length vertices - 1)%nat
    end.
Proof.
  assert (Hparameters : length curve_parameters = 100%nat)
    by (vm_compute; reflexivity).
  unfold path_curve.
  destruct (nullish (read (pathType actualStyle)) Linear).
  - apply line_tos_linear_curve.
  - destruct (table_key _); [|done].
    unfold bezier_curve, window_starts.
    rewrite (line_tos_flat_map _ _ 100).
    { by rewrite length_map, length_seq. }
    intros start. unfold window_calls.
    rewrite line_tos_app, line_tos_map, Hparameters.
    destruct (start =? 0)%nat; [by destruct vertices | done].
  - destruct (4 <=? length vertices)%nat; [|apply line_tos_linear_curve].
    unfold catmull_rom_curve.
    rewrite line_tos_app, (line_tos_flat_map _ _ 100).
    { rewrite length_seq. by destruct (vertices !! 1%nat). }
    intros i. cbv zeta. by rewrite line_tos_map.
Qed.

Lemma line_tos_none calls :
  forallb (fun c => negb (is_lineTo c)) calls = true ->
  line_tos calls = 0%nat.
Proof.
  unfold line_tos. induction calls as [|c calls IH]; [done |].
  cbn. intros [Hc H]%andb_true_iff. destruct c; try done; by apply IH.
Qed.

Lemma path_line_tos (vertices : list vec2.t) (style : option StyleOptions.t) :
  (2 <= length vertices)%nat ->
  line_tos (path vertices style).1 =
    match nullish (member style pathType) Linear with
    | Linear => (length vertices - 1)%nat
    | Bezier =>
        match table_key
                (clamp (nullish (member style bezierOrder) 3%float) 1 3)
        with
        | Some order => (100 * ((length vertices - 1) / Z.to_nat order))%nat
        | None => 0%nat
        end
    | CatmullRom =>
        if (4 <=? length vertices)%nat
        then (100 * (length vertices - 3))%nat
        else (length vertices - 1)%nat
    end.
Proof.
  intros Hlen. rewrite path_value by done.
  rewrite <- resolved_pathType, <- resolved_bezierOrder.
  rewrite <- line_tos_path_curve.
  assert (Hattributes :
    line_tos (stroke_attributes (getStyle style)) = 0%nat)
    by (apply line_tos_none; by apply stroke_attributes_all).
  assert (Hbegin : line_tos (begin_calls (getStyle style)) = 0%nat)
    by (unfold begin_calls; by case_match).
  assert (Hstroke : line_tos (stroke_calls (getStyle style)) = 0%nat)
    by (unfold stroke_calls; by case_match).
  assert (Hmoved : line_tos (path_moved vertices (getStyle style)) = 0%nat)
    by (apply line_tos_none; by apply path_moved_all).
  change (Save :: ?l) with ([Save] ++ l).
  destruct (path_completes vertices (getStyle style)) eqn:Hcompletes;
    cbn [fst]; rewrite !line_tos_app, Hattributes, Hbegin, ?Hstroke, ?Hmoved.
  - cbn. lia.
  - unfold path_completes in Hcompletes. unfold path_curve.
    destruct (nullish (read (pathType (getStyle style))) Linear); try done.
    by destruct (table_key _).
Qed.

(** X15: the number of [lineTo()] calls [path] makes for two or more
    vertices: one per vertex after the first in linear mode; in bezier
    mode, for a clamped order [n] of 1, 2 or 3, 100 per window, of which
    there are [(length - 1) / n], and none for any other order; in
    catmull-rom mode 100 per vertex from the second to the last but two
    when there are four or more vertices, and as in linear mode when there
    are fewer. *)
Theorem path_line_to_count (vertices : list vec2.t)
    (style : option StyleOptions.t) :
  (2 <= length vertices)%nat ->
  line_tos (path vertices style).1 =
    match nullish (member style pathType) Linear with
    | Linear => (length vertices - 1)%nat
    | Bezier =>
        match table_key
                (clamp (nullish (member style bezierOrder) 3%float) 1 3)
        with
        | Some n => (100 * ((length vertices - 1) / Z.to_nat n))%nat
        | None => 0%nat
        end
    | CatmullRom =>
        if (4 <=? length vertices)%nat
        then (100 * (length vertices - 3))%nat
        else (length vertices - 1)%nat
    end.
Proof.
  intros Hlen.
  pose proof (path_line_tos vertices style Hlen) as Hcount.
  destruct (nullish (member style pathType) Linear); [done | | done].
  by destruct (table_key _).
Qed.

(** X16: a bezier path of order 1 is not the linear path through the same
    vertices: it makes 100 [lineTo()] calls for each segment where the
    linear path makes one, so for two or more vertices the two never make
    the same calls. *)
Theorem bezier_order_one_is_not_linear (vertices : list vec2.t)
    (style style' : option StyleOptions.t) :
  (2 <= length vertices)%nat ->
  member style pathType = val Bezier ->
  clamp (nullish (member style bezierOrder) 3%float) 1 3 = 1%float ->
  nullish (member style' pathType) Linear = Linear ->
  line_tos (path vertices style).1 = (100 * (length vertices - 1))%nat /\
  line_tos (path vertices style').1 = (length vertices - 1)%nat /\
  path vertices style <> path vertices style'.
Proof.
  intros Hlen Htype Horder Hlinear.
  pose proof (path_line_tos vertices style Hlen) as Hbezier.
  pose proof (path_line_tos vertices style' Hlen) as Hstraight.
  rewrite Htype, Horder in Hbezier. cbn [nullish] in Hbezier.
  rewrite Hlinear in Hstraight.
  change (table_key 1) with (Some 1%Z) in Hbezier. cbv beta iota in Hbezier.
  change (Z.to_nat 1) with 1%nat in Hbezier. rewrite Nat.div_1_r in Hbezier.
  split; [done |]. split; [done |].
  intros Hsame. rewrite Hsame, Hstraight in Hbezier. lia.
Qed.

(** ** [withContext] *)

Lemma bind_discard {A} (m : Emit A) :
  (m ;; ret tt).1 = m.1 /\
  (m ;; ret tt).2 =
    match m.2 with
    | Continue _ => Continue tt
    | Returned => Returned
    | Thrown => Thrown
    end.
Proof. destruct m as [calls [a| |]]; cbn; by rewrite ?app_nil_r. Qed.

(** X17: [withContext] returns one function per function passed, in the
    order passed; each makes the calls of its original applied to the
    context and the arguments, throws when it throws, and returns nothing.
    What is returned is the function itself, not an array, exactly when
    one function was passed; no function gives an empty array. *)
Theorem withContext_binds {Context Args R : Type} (context : Context)
    (functions : list (Context -> Args -> Emit R)) :
  length (bound_functions (withContext context functions)) = length functions /\
  (forall i (f : Context -> Args -> Emit R),
     functions !! i = Some f ->
     exists g,
       bound_functions (withContext context functions) !! i = Some g /\
       forall args,
         (g args).1 = (f context args).1 /\
         ((g args).2 = Thrown <-> (f context args).2 = Thrown)) /\
  ((exists g, withContext context functions = BoundOne g) <->
   length functions = 1%nat).
Proof.
  assert (Hbound :
    bound_functions (withContext context functions) =
      map (fun f => fun args => f context args ;; ret tt) functions)
    by (by destruct functions as [|f [|f' rest]]).
  rewrite Hbound. split; [by rewrite length_map |]. split.
  - intros i f Hf. eexists. rewrite list_lookup_fmap, Hf. split; [done |].
    intros args. destruct (bind_discard (f context args)) as [-> ->].
    split; [done |]. by destruct (f context args).2.
  - destruct functions as [|f [|f' rest]]; cbn; split; try done;
      try (by intros [g Hg]); eauto.
Qed.

(** ** What an emitter paints *)

Lemma run_styling attrs :
  forallb styling attrs = true ->
  forall s saved path painted,
    Canvas.run attrs (Canvas.mk s saved path painted) =
      Canvas.mk (fold_left restyle attrs s) saved path painted /\
    Canvas.transform (fold_left restyle attrs s) = Canvas.transform s.
Proof.
  induction attrs as [|c attrs IH]; intros H s saved path painted; [done |].
  cbn in H. apply andb_true_iff in H as [Hc H].
  assert (Hexec :
    Canvas.exec (Canvas.mk s saved path painted) c =
      Canvas.mk (restyle s c) saved path painted /\
    Canvas.transform (restyle s c) = Canvas.transform s).
  { unfold restyle. destruct c; try done; cbn.
    - destruct v as [| |w]; [done .. |]. by destruct (Canvas.valid_width w).
    - by destruct (forallb Canvas.valid_dash segments). }
  destruct Hexec as [Hexec Htransform].
  change (Canvas.run (c :: attrs) ?x) with (Canvas.run attrs (Canvas.exec x c)).
  rewrite Hexec. cbn [fold_left].
  destruct (IH H (restyle s c) saved path painted) as [-> ->]. done.
Qed.

Lemma run_geometry geo :
  forallb geometry geo = true ->
  forall s saved path painted,
    Canvas.run geo (Canvas.mk s saved path painted) =
      Canvas.mk s saved (path ++ recorded (Canvas.transform s) geo) painted.
Proof.
  unfold recorded.
  induction geo as [|c geo IH]; intros H s saved path painted.
  { cbn. by rewrite app_nil_r. }
  cbn in H. apply andb_true_iff in H as [Hc H].
  change (Canvas.run (c :: geo) ?x) with (Canvas.run geo (Canvas.exec x c)).
  cbn [List.filter]. rewrite Hc. cbn [map].
  replace (Canvas.exec (Canvas.mk s saved path painted) c)
    with (Canvas.mk s saved (path ++ [(c, Canvas.transform s)]) painted)
    by (by destruct c).
  rewrite IH by done. by rewrite <- (assoc_L (++)).
Qed.

Lemma run_painting paints :
  forallb painting paints = true ->
  forall s saved path painted,
    Canvas.run paints (Canvas.mk s saved path painted) =
      Canvas.mk s saved path
        (painted ++ map (fun c => (c, s, path)) paints).
Proof.
  induction paints as [|c paints IH]; intros H s saved path painted.
  { cbn. by rewrite app_nil_r. }
  cbn in H. apply andb_true_iff in H as [Hc H].
  change (Canvas.run (c :: paints) ?x) with (Canvas.run paints (Canvas.exec x c)).
  replace (Canvas.exec (Canvas.mk s saved path painted) c)
    with (Canvas.mk s saved path (painted ++ [(c, s, path)]))
    by (by destruct c).
  rewrite IH by done. cbn [map]. by rewrite <- (assoc_L (++)).
Qed.

Lemma filter_all {A} (P : A -> bool) (l : list A) :
  forallb P l = true -> List.filter P l = l.
Proof.
  induction l as [|v l IH]; [done |].
  cbn. intros [-> H]%andb_true_iff. by rewrite IH.
Qed.

Lemma filter_none {A} (P Q : A -> bool) (l : list A) :
  (forall v, Q v = true -> P v = false) -> forallb Q l = true ->
  List.filter P l = [].
Proof.
  intros HQP. induction l as [|v l IH]; [done |].
  cbn. intros [Hv H]%andb_true_iff. by rewrite (HQP v Hv), IH.
Qed.

(** The context after an emitter that saves, assigns attributes, begins a
    path, builds it, paints and restores. *)
Lemma run_drawn attrs geo paints ctx :
  forallb styling attrs = true -> forallb geometry geo = true ->
  forallb painting paints = true ->
  let calls := Save :: attrs ++ BeginPath :: geo ++ paints ++ [Restore] in
  let shape := recorded (Canvas.transform (Canvas.current ctx)) calls in
  Canvas.currentPath (Canvas.run calls ctx) = shape /\
  Canvas.painted (Canvas.run calls ctx) =
    Canvas.painted ctx
    ++ map (fun c => (c, styled (Canvas.current ctx) calls, shape)) paints.
Proof.
  intros Hattrs Hgeo Hpaints calls shape.
  assert (Hshape : shape = recorded (Canvas.transform (Canvas.current ctx)) geo).
  { unfold shape, calls, recorded.
    repeat first [rewrite List.filter_app | progress cbn [List.filter geometry]].
    rewrite (filter_none geometry styling attrs) by (done || by intros []).
    rewrite (filter_none geometry painting paints) by (done || by intros []).
    by rewrite (filter_all _ geo), app_nil_r. }
  assert (Hstyled :
    styled (Canvas.current ctx) calls =
      fold_left restyle attrs (Canvas.current ctx)).
  { unfold styled, calls.
    repeat first [rewrite List.filter_app | progress cbn [List.filter styling]].
    rewrite (filter_none styling geometry geo) by (done || by intros []).
    rewrite (filter_none styling painting paints) by (done || by intros []).
    by rewrite (filter_all _ attrs), !app_nil_r. }
  rewrite Hshape, Hstyled. clear Hshape Hstyled. unfold calls.
  destruct ctx as [s saved path painted]. cbn [Canvas.current Canvas.painted].
  unfold Canvas.run. cbn [fold_left Canvas.exec Canvas.current Canvas.saved
                            Canvas.currentPath Canvas.painted].
  rewrite fold_left_app.
  destruct (run_styling attrs Hattrs s (s :: saved) path painted)
    as [Hrun Htransform].
  unfold Canvas.run in Hrun. rewrite Hrun.
  cbn [fold_left Canvas.exec Canvas.current Canvas.saved
         Canvas.currentPath Canvas.painted].
  rewrite !fold_left_app.
  pose proof (run_geometry geo Hgeo) as Hgeometry.
  unfold Canvas.run in Hgeometry. rewrite Hgeometry.
  pose proof (run_painting paints Hpaints) as Hpainting.
  unfold Canvas.run in Hpainting. rewrite Hpainting.
  cbn. by rewrite Htransform.
Qed.

Lemma drawn_bind {A} paints (m : Emit A) (k : A -> Emit unit) :
  only styling m -> (forall a, drawn paints (k a)) -> drawn paints (bind m k).
Proof.
  intros [[a Ha] Hm] Hk.
  destruct (bind_continue m k a Ha) as [Hcalls _].
  destruct (Hk a) as (attrs & geo & Hattrs & Hgeo & Hdrawn).
  exists (m.1 ++ attrs), geo.
  rewrite forallb_app, Hm, Hattrs, Hcalls, Hdrawn.
  by rewrite (assoc_L (++)).
Qed.

Lemma drawn_begin paints (k : unit -> Emit unit) :
  ends_with geometry (paints ++ [Restore]) (k tt) ->
  drawn paints (bind (call BeginPath) k).
Proof.
  intros (geo & Hgeo & Hcalls & _). exists [], geo.
  unfold call. by rewrite bind_value, Hcalls.
Qed.

Lemma drawn_of_save paints (k : unit -> Emit unit) :
  drawn paints (k tt) ->
  exists attrs geo,
    forallb styling attrs = true /\ forallb geometry geo = true /\
    (bind (call Save) k).1 =
      Save :: attrs ++ BeginPath :: geo ++ paints ++ [Restore].
Proof.
  intros (attrs & geo & Hattrs & Hgeo & Hcalls). exists attrs, geo.
  unfold call. by rewrite bind_value, Hcalls.
Qed.

Ltac own_shape Hbatch :=
  apply drawn_of_save; cbv beta; resolved;
  rewrite ?Hbatch; cbn [negb]; rewrite ?andb_true_r, ?when_true;
  repeat (apply drawn_bind; [solve [repeat only_step] | intros _]);
  apply drawn_begin.

Ltac paints_here Hbatch :=
  unfold fill_calls, stroke_calls;
  rewrite ?Hbatch; cbn [negb]; rewrite ?andb_true_r;
  repeat match goal with
         | |- context [truthy ?flag] => destruct (truthy flag)
         end;
  apply ends_with_here.

Lemma unbatched_shape (e : EmitterCall) :
  batchable e = true -> draws e = true -> completes e = true ->
  truthy (read (batch (getStyle (style_of e)))) = false ->
  exists attrs geo,
    forallb styling attrs = true /\ forallb geometry geo = true /\
    (emit e).1 = Save :: attrs ++ BeginPath :: geo ++ paint_calls e ++ [Restore].
Proof.
  destruct e; cbn [batchable draws completes style_of emit paint_calls];
    intros He Hlen Hcompletes Hbatch; try discriminate He.
  - unfold line. own_shape Hbatch. peel. paints_here Hbatch.
  - unfold cross. own_shape Hbatch. peel. paints_here Hbatch.
  - unfold circle. own_shape Hbatch. peel. paints_here Hbatch.
  - unfold rectangle. own_shape Hbatch. peel. paints_here Hbatch.
  - apply Nat.leb_le in Hlen. unfold polygon.
    destruct (Nat.ltb_spec (length vertices) 3); [lia |].
    rewrite when_false. unfold ret at 1. rewrite bind_value. cbn [fst app].
    own_shape Hbatch. peel. paints_here Hbatch.
  - apply Nat.leb_le in Hlen. rewrite path_exact by done. cbn [fst].
    exists (stroke_attributes (getStyle style)),
      (path_curve vertices (getStyle style)).
    split; [by apply stroke_attributes_all |].
    split; [by apply path_curve_all |].
    unfold begin_calls. by rewrite Hbatch.
Qed.

Lemma paint_calls_painting (e : EmitterCall) :
  forallb painting (paint_calls e) = true.
Proof.
  destruct e; cbn [paint_calls]; unfold fill_calls, stroke_calls;
    repeat match goal with
           | |- context [if ?b then _ else _] => destruct b
           end; done.
Qed.

(** X18: an emitter other than [arrow] that is not batched, has enough
    vertices to draw and reaches its end (as all do but a [path] in
    bezier mode with a clamped order other than 1, 2 and 3 and a first
    window that fits) leaves as the current path its own
    path-building calls and nothing else, recorded under the transform in
    force at its call; and it adds to what is painted one entry per
    painting call ([fill()] then [stroke()] as the flags ask; [stroke()]
    alone for [line], [cross] and [path]), each painting that path in
    the entry state with the emitter's attribute assignments applied. *)
Theorem unbatched_emitters_paint_own_shape (e : EmitterCall)
    (ctx : Canvas.t) :
  batchable e = true -> draws e = true -> completes e = true ->
  truthy (read (batch (getStyle (style_of e)))) = false ->
  let shape := recorded (Canvas.transform (Canvas.current ctx)) (emit e).1 in
  Canvas.currentPath (Canvas.run (emit e).1 ctx) = shape /\
  Canvas.painted (Canvas.run (emit e).1 ctx) =
    Canvas.painted ctx
    ++ map (fun c => (c, styled (Canvas.current ctx) (emit e).1, shape))
         (paint_calls e).
Proof.
  intros He Hdraws Hcompletes Hbatch.
  destruct (unbatched_shape e He Hdraws Hcompletes Hbatch)
    as (attrs & geo & Hattrs & Hgeo & ->).
  apply run_drawn; [done | done | apply paint_calls_painting].
Qed.

(** ** Members outside the declared ones *)

(** X19: the members a style holds besides the declared ones change
    nothing: every emitter makes the same calls, with the same outcome,
    whatever they are. *)
Theorem emitters_ignore_extensions (e : EmitterCall) (s : StyleOptions.t)
    (members : gmap string Value) :
  emit (with_style e (Some (with_extensions s members))) =
    emit (with_style e (Some s)).
Proof.
  destruct s, e; reflexivity.
Qed.

(** ** Members that are not [null] *)

Lemma emit_exact (e : EmitterCall) :
  draws e = true ->
  exists shape,
    (emit e).1 =
      Save :: (if fillable e then fill_attributes (getStyle (style_of e)) else [])
      ++ stroke_attributes (getStyle (style_of e)) ++ shape.
Proof.
  destruct e; cbn [draws emit fillable style_of]; intros Hlen.
  - rewrite line_exact. cbn [fst app]. eauto.
  - rewrite cross_exact. cbn [fst app]. eauto.
  - rewrite arrow_exact. cbn [fst app]. eauto.
  - rewrite circle_exact. cbn [fst]. eauto.
  - rewrite rectangle_exact. cbn [fst]. eauto.
  - rewrite polygon_exact by by apply Nat.leb_le. cbn [fst]. eauto.
  - rewrite path_value by by apply Nat.leb_le.
    destruct (path_completes _ _); cbn [fst app]; eauto.
Qed.

(** X20: a resolved member that is not [null] is assigned, by every
    emitter that draws: the dash pattern is set to the resolved [lineDash],
    [lineWidth] is assigned the resolved [lineWidth], [strokeStyle] the
    prepared [strokeColor], and by [circle], [rectangle] and [polygon]
    [fillStyle] the prepared [fillColor].  A colour member that holds
    [undefined] is not [null]: it is prepared to "black" and assigned. *)
Theorem resolved_members_are_assigned (e : EmitterCall) :
  draws e = true ->
  let actualStyle := getStyle (style_of e) in
  (forall segments,
     read (lineDash actualStyle) = val segments ->
     SetLineDash segments ∈ (emit e).1) /\
  (not_null (read (lineWidth actualStyle)) = true ->
   SetLineWidth (read (lineWidth actualStyle)) ∈ (emit e).1) /\
  (forall color,
     not_null (read (strokeColor actualStyle)) = true ->
     prepareColor (color_value (read (strokeColor actualStyle))) = Ok color ->
     SetStrokeStyle color ∈ (emit e).1) /\
  (read (strokeColor actualStyle) = undefined ->
   SetStrokeStyle "black" ∈ (emit e).1) /\
  (forall color,
     fillable e = true ->
     not_null (read (fillColor actualStyle)) = true ->
     prepareColor (color_value (read (fillColor actualStyle))) = Ok color ->
     SetFillStyle (PaintColor color) ∈ (emit e).1).
Proof.
  intros (shape & ->)%emit_exact actualStyle.
  unfold stroke_attributes, fill_attributes. fold actualStyle.
  repeat split.
  - intros segments ->. set_solver.
  - intros ->. set_solver.
  - intros color -> ->. set_solver.
  - intros ->. cbn. set_solver.
  - intros color -> -> ->. set_solver.
Qed.

End Host.

(** * Evaluations on concrete inputs *)

(** C5 (the code differs): with catmull-rom and the four vertices (0,0),
    (1,2), (3,3), (4,0), [path] moves to the second vertex and issues 100
    line-to calls, the first at the second vertex (t = 0), the last at
    about (2.985, 3.010) (t = 0.9900000000000007); no call is at the third
    vertex (3,3), the point at t = 1, nor at the first or the last.
    [Math.pow] is taken as repeated multiplication. *)
Theorem path_catmull_rom_stops_short :
  let vertices :=
    [vec2.mk 0 0; vec2.mk 1 2; vec2.mk 3 3; vec2.mk 4 0]%float in
  let calls :=
    (path any_number any_object pow_by_multiplication vertices
       (Some (with_pathType StyleOptions.empty (val CatmullRom)))).1 in
  let away_from (v : vec2.t) (c : Call) :=
    match c with
    | MoveTo x y | LineTo x y =>
        negb ((x =? vec2.x v) && (y =? vec2.y v))%float
    | _ => true
    end in
  take 6 calls =
    [Save; SetLineWidth (val 1%float); SetLineDash []; BeginPath;
     MoveTo 1 2; LineTo 1 2] /\
  length calls = 107%nat /\
  drop 105 calls = [Stroke; Restore] /\
  forallb (away_from (vec2.mk 3 3)) calls = true /\
  forallb (away_from (vec2.mk 0 0)) calls = true /\
  forallb (away_from (vec2.mk 4 0)) calls = true.
Proof. vm_compute. done. Qed.

(** C1, as stated, fails: an arrowhead function that calls [save()] and
    not [restore()] leaves the context with the width and the dash pattern
    [arrow] set, not those found. *)
Lemma arrow_unbracketed_arrowhead :
  let ctx :=
    Canvas.mk (Canvas.mkState [] "#000" (PaintColor "#000") 3 [4; 2]%float)
      [] [] [] in
  let style :=
    Some (with_arrow StyleOptions.empty
            (val {| arrow_type := Some (val (ArrowFunction (fun _ => [Save])));
                    arrow_size := None |})) in
  ~ (Canvas.current
       (Canvas.run
          (emit any_number any_object pow_by_multiplication (fun _ _ => 0%float)
             (ArrowCall (vec2.mk 0 0) (vec2.mk 10 0) style)).1
          ctx)
     = Canvas.current ctx).
Proof.
  intros ctx style H. apply (f_equal Canvas.lineDash) in H.
  vm_compute in H. discriminate H.
Qed.

(** C1, a case: an arrow whose arrowhead function saves, draws and
    restores, on a context with a state already saved. *)
Lemma emitters_restore_state_witness :
  let ctx :=
    Canvas.mk (Canvas.mkState [] "#000" (PaintColor "#000") 3 [4; 2]%float)
      [Canvas.mkState [] "red" (PaintColor "red") 2 []] [] [] in
  let e :=
    ArrowCall (vec2.mk 0 0) (vec2.mk 10 0)
      (Some (with_arrow StyleOptions.empty
               (val {| arrow_type :=
                         Some (val (ArrowFunction
                                      (fun size =>
                                         [Save; BeginPath; MoveTo 0 0;
                                          LineTo size 0; Stroke; Restore])));
                       arrow_size := None |}))) in
  arrowhead_bracketed e /\
  completes e = true /\
  Canvas.current
    (Canvas.run
       (emit any_number any_object pow_by_multiplication
          (fun _ _ => 0%float) e).1 ctx)
  = Canvas.current ctx.
Proof.
  intros ctx e.
  assert (He : arrowhead_bracketed e).
  { intros draw size Hdraw. vm_compute in Hdraw.
    injection Hdraw as <-. reflexivity. }
  assert (Hcompletes : completes e = true) by reflexivity.
  split; [exact He |]. split; [exact Hcompletes |].
  exact (proj1 (proj2 (emitters_restore_state any_number any_object
                         pow_by_multiplication (fun _ _ => 0%float) e ctx
                         He Hcompletes))).
Defined.

(** C2, as stated, fails: with the fill flag set and the style not
    batched, [line] issues no [fill()]. *)
Lemma line_never_fills :
  let style :=
    Some (StyleOptions.mk None (Some (val true)) (Some (val (CssString "red")))
            None None None None None None None None None None None None None
            ∅) in
  truthy (read (fill (getStyle style))) = true /\
  truthy (read (batch (getStyle style))) = false /\
  line any_number any_object (vec2.mk 0 0) (vec2.mk 10 0) style =
    ([Save; SetLineWidth (val 1%float); SetLineDash []; BeginPath;
      MoveTo 0 0; LineTo 10 0; Stroke; Restore],
     Continue tt).
Proof. vm_compute. done. Qed.

(** C2, a case: a filled and stroked triangle, and the same vertices as
    a path. *)
Lemma emitters_fill_then_stroke_witness :
  let style :=
    Some (StyleOptions.mk None (Some (val true)) (Some (val (CssString "red")))
            None None None None None None None None None None None None None
            ∅) in
  let vertices := [vec2.mk 0 0; vec2.mk 10 0; vec2.mk 0 10]%float in
  (3 <= length vertices)%nat /\
  path_completes vertices (getStyle style) = true /\
  ends_with paintless [Fill; Stroke; Restore]
    (polygon any_number any_object vertices style) /\
  ends_with paintless [Stroke; Restore]
    (path any_number any_object pow_by_multiplication vertices style).
Proof.
  intros style vertices.
  assert (Hlen : (3 <= length vertices)%nat) by (vm_compute; lia).
  assert (Hlen' : (2 <= length vertices)%nat) by (vm_compute; lia).
  assert (Hcompletes : path_completes vertices (getStyle style) = true)
    by reflexivity.
  pose proof (emitters_fill_then_stroke any_number any_object
                pow_by_multiplication (fun _ _ => 0%float) style)
    as (_ & _ & Hpolygon & _ & _ & Hpath & _).
  split; [exact Hlen |]. split; [exact Hcompletes |].
  split; [exact (Hpolygon vertices Hlen) |].
  exact (Hpath vertices Hlen' Hcompletes).
Defined.

(** C4 (the code differs): with bezier order 2.5 and the four vertices
    (0,0), (0,10), (10,10), (10,0), the order is still 2.5 after clamping
    and has no entry in either table: [path] saves, assigns the
    attributes, begins a path, moves to the first vertex and throws.  No
    line is drawn, nothing is stroked, and the state it saved stays on the
    stack, with the line width it assigned in force.  With the first three
    of the vertices the window of 3.5 does not fit, and the same order
    draws nothing and throws nothing. *)
Theorem path_fractional_order_throws :
  let vertices :=
    [vec2.mk 0 0; vec2.mk 0 10; vec2.mk 10 10; vec2.mk 10 0]%float in
  let style :=
    Some (StyleOptions.mk None None None None None None None None None None
            None None None (Some (val Bezier)) (Some (val 2.5%float)) None
            ∅) in
  let ctx :=
    Canvas.mk (Canvas.mkState [] "#000" (PaintColor "#000") 3 [4; 2]%float)
      [] [] [] in
  let outcome :=
    path any_number any_object pow_by_multiplication vertices style in
  clamp 2.5 1 3 = 2.5%float /\
  table_key 2.5 = None /\
  outcome =
    ([Save; SetLineWidth (val 1%float); SetLineDash []; BeginPath;
      MoveTo 0 0],
     Thrown) /\
  Canvas.saved (Canvas.run outcome.1 ctx) = [Canvas.current ctx] /\
  Canvas.lineWidth (Canvas.current (Canvas.run outcome.1 ctx)) = 1%float /\
  path any_number any_object pow_by_multiplication (take 3 vertices) style =
    ([Save; SetLineWidth (val 1%float); SetLineDash []; BeginPath; Stroke;
      Restore],
     Continue tt).
Proof. vm_compute. done. Qed.

(** X21, a case: order 2 and six vertices; the windows start at 0 and 2,
    and the sixth vertex belongs to none. *)
Lemma path_bezier_windows_witness :
  let style :=
    Some (StyleOptions.mk None None None None None None None None None None
            None None None (Some (val Bezier)) (Some (val 2%float)) None ∅) in
  let vertices :=
    [vec2.mk 0 0; vec2.mk 1 2; vec2.mk 2 0; vec2.mk 3 2; vec2.mk 4 0;
     vec2.mk 5 5]%float in
  member style pathType = val Bezier /\
  (2 <= length vertices)%nat /\
  table_key (clamp (nullish (member style bezierOrder) 3%float) 1 3)
  = Some 2%Z /\
  path any_number any_object pow_by_multiplication vertices style =
    path any_number any_object pow_by_multiplication (take 5 vertices) style.
Proof.
  intros style vertices.
  assert (Htype : member style pathType = val Bezier) by reflexivity.
  assert (Hlen : (2 <= length vertices)%nat) by (vm_compute; lia).
  assert (Hkey :
    table_key (clamp (nullish (member style bezierOrder) 3%float) 1 3)
    = Some 2%Z) by reflexivity.
  split; [exact Htype |]. split; [exact Hlen |]. split; [exact Hkey |].
  refine (proj1 (proj2 (proj2 (path_bezier_windows any_number any_object
                                 pow_by_multiplication vertices style 2%Z
                                 Htype Hlen Hkey)))
            (take 5 vertices) (drop 5 vertices) 2%nat _ _ _ _);
    vm_compute; (reflexivity || lia).
Defined.

(** C6, a case: three vertices. *)
Lemma path_catmull_rom_fallback_witness :
  let vertices := [vec2.mk 0 0; vec2.mk 10 0; vec2.mk 10 10]%float in
  (length vertices = 2%nat \/ length vertices = 3%nat) /\
  path any_number any_object pow_by_multiplication vertices
    (Some (with_pathType StyleOptions.empty (val CatmullRom))) =
  path any_number any_object pow_by_multiplication vertices
    (Some (with_pathType StyleOptions.empty (val Linear))).
Proof.
  intros vertices.
  assert (Hlen : length vertices = 2%nat \/ length vertices = 3%nat)
    by (right; reflexivity).
  split; [exact Hlen |].
  exact (proj1 (path_catmull_rom_fallback any_number any_object pow_by_multiplication
                  vertices StyleOptions.empty Hlen)).
Defined.

(** C10, a case: only the type is given; the chevron is drawn with size
    10, half size 5. *)
Lemma arrow_size_default_witness :
  let given := {| arrow_type := Some (val Chevron); arrow_size := None |} in
  let s := with_arrow StyleOptions.empty (val given) in
  StyleOptions.arrow s = Some (val given) /\
  present (read (arrow_size given)) = false /\
  arrow any_number any_object (fun _ _ => 0%float) (vec2.mk 0 0) (vec2.mk 10 0)
    (Some s) =
  ([Save; SetLineWidth (val 1%float); SetLineDash []; BeginPath; MoveTo 0 0;
    LineTo 10 0; Stroke; Save; Translate 10 0; Rotate 0; BeginPath;
    MoveTo (-5) (-5); LineTo 0 0; LineTo (-5) 5; Stroke; Restore; Restore],
   Continue tt).
Proof.
  intros given s.
  assert (Hgiven : StyleOptions.arrow s = Some (val given)) by reflexivity.
  assert (Hsize : present (read (arrow_size given)) = false) by reflexivity.
  split; [exact Hgiven |]. split; [exact Hsize |].
  rewrite (proj1 (arrow_size_default any_number any_object (fun _ _ => 0%float)
                    (vec2.mk 0 0) (vec2.mk 10 0)) s given Hgiven Hsize).
  vm_compute. reflexivity.
Defined.

(** * Further evaluations on concrete inputs *)

(** X1, a case: two vertices are too few for [polygon]. *)
Lemma polygon_path_short_input_witness :
  let vertices := [vec2.mk 0 0; vec2.mk 10 0]%float in
  (length vertices < 3)%nat /\
  polygon any_number any_object vertices None = ([], Returned).
Proof.
  intros vertices.
  assert (Hlen : (length vertices < 3)%nat) by (vm_compute; lia).
  split; [exact Hlen |].
  exact (proj1 (polygon_path_short_input any_number any_object pow_by_multiplication
                  vertices None) Hlen).
Defined.

(** X2, a case: a batched circle, on a context whose path holds a
    move-to. *)
Lemma batched_emitters_extend_path_witness :
  let ctx :=
    Canvas.mk (Canvas.mkState [] "#000" (PaintColor "#000") 1 [])
      [] [(MoveTo 0 0, [])] [] in
  let style :=
    Some (StyleOptions.mk (Some (val true)) (Some (val true)) None None None
            None None None None None None None None None None None ∅) in
  let e := CircleCall (vec2.mk 5 5) 2 style in
  batchable e = true /\
  truthy (read (batch (getStyle (style_of e)))) = true /\
  Canvas.currentPath
    (Canvas.run
       (emit any_number any_object pow_by_multiplication (fun _ _ => 0%float) e).1 ctx)
  = [(MoveTo 0 0, []); (Arc 5 5 2 0 (3.141592653589793 * 2), [])].
Proof.
  intros ctx style e.
  assert (He : batchable e = true) by reflexivity.
  assert (Hbatch : truthy (read (batch (getStyle (style_of e)))) = true)
    by reflexivity.
  split; [exact He |]. split; [exact Hbatch |].
  rewrite (proj2 (proj2 (batched_emitters_extend_path any_number any_object
                           pow_by_multiplication (fun _ _ => 0%float) e ctx
                           He Hbatch))).
  reflexivity.
Defined.

(** X3, a case: a line drawn on a context whose path holds a move-to. *)
Lemma unbatched_emitters_discard_path_witness :
  let ctx :=
    Canvas.mk (Canvas.mkState [] "#000" (PaintColor "#000") 1 []) [] [] [] in
  let e := LineCall (vec2.mk 0 0) (vec2.mk 10 0) None in
  let calls :=
    (emit any_number any_object pow_by_multiplication (fun _ _ => 0%float) e).1 in
  draws e = true /\
  truthy (read (batch (getStyle (style_of e)))) = false /\
  Canvas.run calls (with_currentPath ctx [(MoveTo 1 1, [])]) =
    Canvas.run calls ctx.
Proof.
  intros ctx e calls.
  assert (Hdraws : draws e = true) by reflexivity.
  assert (Hbatch : truthy (read (batch (getStyle (style_of e)))) = false)
    by reflexivity.
  split; [exact Hdraws |]. split; [exact Hbatch |].
  exact (proj2 (unbatched_emitters_discard_path any_number any_object
                  pow_by_multiplication (fun _ _ => 0%float) e ctx
                  [(MoveTo 1 1, [])] Hdraws (fun _ => Hbatch))).
Defined.

(** X5, a case: a bezier path of order 0, clamped to 1, over two
    vertices. *)
Lemma path_never_aborts_witness :
  let style :=
    Some (StyleOptions.mk None None None None None None None None None None
            None None None (Some (val Bezier)) (Some (val 0%float)) None
            ∅) in
  let vertices := [vec2.mk 0 0; vec2.mk 10 0]%float in
  (2 <= length vertices)%nat /\
  path_completes vertices (getStyle style) = true /\
  (path any_number any_object pow_by_multiplication vertices style).2
  = Continue tt.
Proof.
  intros style vertices.
  assert (Hlen : (2 <= length vertices)%nat) by (vm_compute; lia).
  assert (Hcompletes : path_completes vertices (getStyle style) = true)
    by reflexivity.
  split; [exact Hlen |]. split; [exact Hcompletes |].
  exact (proj1 (proj1 (proj2 (proj2 (path_never_aborts any_number any_object
                                       pow_by_multiplication vertices style)
                                Hlen))
                  Hcompletes)).
Defined.

(** X22, a case: order 2.5 and four vertices, on a context with one
    state saved. *)
Lemma path_unlisted_order_throws_witness :
  let vertices :=
    [vec2.mk 0 0; vec2.mk 0 10; vec2.mk 10 10; vec2.mk 10 0]%float in
  let style :=
    Some (StyleOptions.mk None None None None None None None None None None
            None None None (Some (val Bezier)) (Some (val 2.5%float)) None
            ∅) in
  let ctx :=
    Canvas.mk (Canvas.mkState [] "#000" (PaintColor "#000") 3 [])
      [Canvas.mkState [] "red" (PaintColor "red") 2 []] [] [] in
  (2 <= length vertices)%nat /\
  path_completes vertices (getStyle style) = false /\
  Canvas.saved
    (Canvas.run
       (path any_number any_object pow_by_multiplication vertices style).1
       ctx)
  = Canvas.current ctx :: Canvas.saved ctx.
Proof.
  intros vertices style ctx.
  assert (Hlen : (2 <= length vertices)%nat) by (vm_compute; lia).
  assert (Hcompletes : path_completes vertices (getStyle style) = false)
    by reflexivity.
  split; [exact Hlen |]. split; [exact Hcompletes |].
  exact (proj2 (proj2 (proj2 (path_unlisted_order_throws any_number
                                any_object pow_by_multiplication vertices
                                style ctx Hlen Hcompletes)))).
Defined.

(** X7, a case: a circle with a fill colour and a linear gradient of two
    stops. *)
Lemma gradient_overrides_fillColor_witness :
  let g :=
    {| gradient_type := GradientLinear;
       gradient_start := vec2.mk 0 0;
       gradient_end := vec2.mk 10 0;
       colorStops := [mkColorStop (CssString "red") 0;
                      mkColorStop (CssString "blue") 1] |} in
  let style :=
    Some (StyleOptions.mk None (Some (val true))
            (Some (val (CssString "green"))) (Some (val g)) None None None
            None None None None None None None None None ∅) in
  read (gradient (getStyle style)) = val g /\
  exists gr,
    gradient_source gr = LinearGradient 0 0 10 0 /\
    settles paintless keeps_fillStyle (SetFillStyle (PaintGradient gr))
      (circle any_number any_object (vec2.mk 5 5) 2 style).
Proof.
  intros g style.
  assert (Hgradient : read (gradient (getStyle style)) = val g) by reflexivity.
  split; [exact Hgradient |].
  destruct (gradient_overrides_fillColor any_number any_object style g Hgradient)
    as (gr & _ & Hsource & Hcircle & _).
  exists gr. split; [exact Hsource | apply Hcircle].
Defined.

(** X8, a case: a path of three vertices with no path type. *)
Lemma stroke_emitters_closed_form_witness :
  let vertices := [vec2.mk 0 0; vec2.mk 10 0; vec2.mk 10 10]%float in
  (2 <= length vertices)%nat /\
  path any_number any_object pow_by_multiplication vertices None =
    ([Save; SetLineWidth (val 1%float); SetLineDash []; BeginPath;
      MoveTo 0 0; LineTo 10 0; LineTo 10 10; Stroke; Restore],
     Continue tt).
Proof.
  intros vertices.
  assert (Hlen : (2 <= length vertices)%nat) by (vm_compute; lia).
  split; [exact Hlen |].
  exact (proj2 (proj2 (stroke_emitters_closed_form any_number any_object
                         pow_by_multiplication None))
           vertices Hlen).
Defined.

(** X9, a case: a filled and stroked triangle. *)
Lemma fill_emitters_closed_form_witness :
  let style :=
    Some (StyleOptions.mk None (Some (val true)) None None None None None None
            None None None None None None None None ∅) in
  let vertices := [vec2.mk 0 0; vec2.mk 10 0; vec2.mk 0 10]%float in
  (3 <= length vertices)%nat /\
  polygon any_number any_object vertices style =
    ([Save; SetLineWidth (val 1%float); SetLineDash []; BeginPath;
      MoveTo 0 0; LineTo 10 0; LineTo 0 10; ClosePath; Fill; Stroke; Restore],
     Continue tt).
Proof.
  intros style vertices.
  assert (Hlen : (3 <= length vertices)%nat) by (vm_compute; lia).
  split; [exact Hlen |].
  exact (proj2 (proj2 (fill_emitters_closed_form any_number any_object style))
           vertices Hlen).
Defined.

(** X12, a case: an arrow with the default style, whose stroke colour is
    [null]. *)
Lemma null_members_keep_attributes_witness :
  let e := ArrowCall (vec2.mk 0 0) (vec2.mk 10 0) None in
  builtin_arrowhead e /\
  read (strokeColor (getStyle (style_of e))) = null /\
  forallb keeps_strokeStyle
    (emit any_number any_object pow_by_multiplication (fun _ _ => 0%float) e).1 = true.
Proof.
  intros e.
  assert (Hhead : builtin_arrowhead e) by reflexivity.
  assert (Hnull : read (strokeColor (getStyle (style_of e))) = null)
    by reflexivity.
  split; [exact Hhead |]. split; [exact Hnull |].
  exact (proj1 (null_members_keep_attributes any_number any_object
                  pow_by_multiplication (fun _ _ => 0%float) e Hhead) Hnull).
Defined.

(** X13, a case: an arrow with the flags [batch] and [fill] set and
    [stroke] cleared, and one with no style at all. *)
Lemma arrow_reads_stroke_members_witness :
  let style :=
    Some (StyleOptions.mk (Some (val true)) (Some (val true)) None None
            (Some (val false)) None None None None None None None None None
            None None ∅) in
  strokeColor (getStyle style) = strokeColor (getStyle None) /\
  arrow any_number any_object (fun _ _ => 0%float) (vec2.mk 0 0) (vec2.mk 10 0) style =
    arrow any_number any_object (fun _ _ => 0%float) (vec2.mk 0 0) (vec2.mk 10 0) None.
Proof.
  intros style.
  assert (Hcolor : strokeColor (getStyle style) = strokeColor (getStyle None))
    by reflexivity.
  split; [exact Hcolor |].
  exact (arrow_reads_stroke_members any_number any_object (fun _ _ => 0%float)
           (vec2.mk 0 0) (vec2.mk 10 0) style None Hcolor eq_refl eq_refl
           eq_refl).
Defined.

(** X14, a case: a line whose style holds [stroke: undefined]. *)
Lemma supplied_stroke_suppresses_witness :
  let s :=
    StyleOptions.mk None None None None (Some undefined) None None None None
      None None None None None None None ∅ in
  let e := LineCall (vec2.mk 0 0) (vec2.mk 10 0) (Some s) in
  stroke s = Some undefined /\
  (emit any_number any_object pow_by_multiplication (fun _ _ => 0%float) e).1 =
    [Save; SetLineWidth (val 1%float); SetLineDash []; BeginPath;
     MoveTo 0 0; LineTo 10 0; Restore] /\
  forallb strokeless
    (emit any_number any_object pow_by_multiplication (fun _ _ => 0%float) e).1 = true.
Proof.
  intros s e.
  assert (Hstroke : stroke s = Some undefined) by reflexivity.
  split; [exact Hstroke |]. split; [reflexivity |].
  exact (supplied_stroke_suppresses any_number any_object pow_by_multiplication
           (fun _ _ => 0%float) e s undefined eq_refl eq_refl Hstroke eq_refl).
Defined.

(** X15, a case: order 2 and five vertices give two windows of 100
    segments each. *)
Lemma path_line_to_count_witness :
  let style :=
    Some (StyleOptions.mk None None None None None None None None None None
            None None None (Some (val Bezier)) (Some (val 2%float)) None ∅) in
  let vertices :=
    [vec2.mk 0 0; vec2.mk 1 2; vec2.mk 2 0; vec2.mk 3 2; vec2.mk 4 0]%float in
  (2 <= length vertices)%nat /\
  line_tos (path any_number any_object pow_by_multiplication vertices style).1
  = 200%nat.
Proof.
  intros style vertices.
  assert (Hlen : (2 <= length vertices)%nat) by (vm_compute; lia).
  split; [exact Hlen |].
  rewrite (path_line_to_count any_number any_object pow_by_multiplication vertices
             style Hlen).
  reflexivity.
Defined.

(** X16, a case: two vertices, order 1 against no path type. *)
Lemma bezier_order_one_is_not_linear_witness :
  let style :=
    Some (StyleOptions.mk None None None None None None None None None None
            None None None (Some (val Bezier)) (Some (val 1%float)) None ∅) in
  let vertices := [vec2.mk 0 0; vec2.mk 10 0]%float in
  (2 <= length vertices)%nat /\
  member style pathType = val Bezier /\
  path any_number any_object pow_by_multiplication vertices style <>
    path any_number any_object pow_by_multiplication vertices None.
Proof.
  intros style vertices.
  assert (Hlen : (2 <= length vertices)%nat) by (vm_compute; lia).
  assert (Htype : member style pathType = val Bezier) by reflexivity.
  split; [exact Hlen |]. split; [exact Htype |].
  exact (proj2 (proj2 (bezier_order_one_is_not_linear any_number any_object
                         pow_by_multiplication vertices style None
                         Hlen Htype eq_refl eq_refl))).
Defined.

(** X17, a case: one function is returned as a function. *)
Lemma withContext_binds_witness :
  let functions :=
    [fun (_ : unit) (v : vec2.t) => call (MoveTo (vec2.x v) (vec2.y v))] in
  length functions = 1%nat /\
  exists g, withContext tt functions = BoundOne g.
Proof.
  intros functions.
  assert (Hlen : length functions = 1%nat) by reflexivity.
  split; [exact Hlen |].
  exact (proj2 (proj2 (proj2 (withContext_binds tt functions))) Hlen).
Defined.

(** X18, a case: a filled rectangle, on a context whose path holds a
    move-to: the fill and the stroke paint the rectangle alone, in red. *)
Lemma unbatched_emitters_paint_own_shape_witness :
  let ctx :=
    Canvas.mk (Canvas.mkState [] "#000" (PaintColor "#000") 3 [])
      [] [(MoveTo 0 0, [])] [] in
  let style :=
    Some (StyleOptions.mk None (Some (val true))
            (Some (val (CssString "red"))) None None None None None None None
            None None None None None None ∅) in
  let e := RectangleCall (vec2.mk 1 1) (vec2.mk 10 5) style in
  let after :=
    Canvas.run
      (emit any_number any_object pow_by_multiplication (fun _ _ => 0%float) e).1 ctx in
  let styled_state := Canvas.mkState [] "#000" (PaintColor "red") 1 [] in
  batchable e = true /\
  draws e = true /\
  completes e = true /\
  truthy (read (batch (getStyle (style_of e)))) = false /\
  Canvas.currentPath after = [(Rect 1 1 10 5, [])] /\
  Canvas.painted after =
    [(Fill, styled_state, [(Rect 1 1 10 5, [])]);
     (Stroke, styled_state, [(Rect 1 1 10 5, [])])].
Proof.
  intros ctx style e after styled_state.
  assert (He : batchable e = true) by reflexivity.
  assert (Hdraws : draws e = true) by reflexivity.
  assert (Hcompletes : completes e = true) by reflexivity.
  assert (Hbatch : truthy (read (batch (getStyle (style_of e)))) = false)
    by reflexivity.
  split; [exact He |]. split; [exact Hdraws |]. split; [exact Hcompletes |].
  split; [exact Hbatch |].
  destruct (unbatched_emitters_paint_own_shape any_number any_object
              pow_by_multiplication (fun _ _ => 0%float) e ctx
              He Hdraws Hcompletes Hbatch) as [Hpath Hpainted].
  unfold after. rewrite Hpath, Hpainted. vm_compute. done.
Defined.

(** X20, a case: a line whose style holds [strokeColor: undefined] and
    the line style ['dashed']. *)
Lemma resolved_members_are_assigned_witness :
  let s :=
    StyleOptions.mk None None None None None (Some undefined) None
      (Some (val Dashed)) None None None None None None None None ∅ in
  let e := LineCall (vec2.mk 0 0) (vec2.mk 10 0) (Some s) in
  draws e = true /\
  read (strokeColor (getStyle (style_of e))) = undefined /\
  (emit any_number any_object pow_by_multiplication (fun _ _ => 0%float) e).1 =
    [Save; SetStrokeStyle "black"; SetLineWidth (val 1%float);
     SetLineDash [5; 5]%float; BeginPath; MoveTo 0 0; LineTo 10 0; Stroke;
     Restore] /\
  SetStrokeStyle "black"
  ∈ (emit any_number any_object pow_by_multiplication (fun _ _ => 0%float) e).1.
Proof.
  intros s e.
  assert (Hdraws : draws e = true) by reflexivity.
  assert (Hcolor : read (strokeColor (getStyle (style_of e))) = undefined)
    by reflexivity.
  split; [exact Hdraws |]. split; [exact Hcolor |]. split; [reflexivity |].
  exact (proj1 (proj2 (proj2 (proj2 (resolved_members_are_assigned
                                        any_number any_object pow_by_multiplication
                                        (fun _ _ => 0%float) e Hdraws))))
           Hcolor).
Defined.
